(** * micrograd: the scalar autograd engine ([micrograd/engine.py]) and
      the network classes built on it ([micrograd/nn.py])

    A shallow embedding of the [Value] class, of its backward pass, and of
    [Neuron], [Layer] and [MLP].

    - Python objects live in a store: a [Value] is named by its position in
      the store (its identity), a new object is appended at the end, and a
      field assignment rewrites one cell.  Two nodes with the same [data]
      are two cells.
    - A method is a computation over the store that returns a result or
      raises; what it did to the store before raising stays done.
    - The closure a node keeps in [_backward] is recorded as the operator
      that installed it together with the variables it captured
      ([self], [other], [out]); calling it interprets that record on the
      current store, so it reads [data] and [grad] at call time, as the
      closure does.
    - Numbers are a parameter ([Arith]): the engine itself never inspects a
      number, it only hands numbers to Python's arithmetic.  The
      arithmetic of the program is that of IEEE doubles ([float_arith]);
      what [math.exp] and [**] return in range is libm's, a parameter of
      [float_arith].
    - The order in which Python iterates over [_prev] (a set of objects) is
      not fixed by the language; it is a parameter too ([SetOrder]).
    - [build_topo] recurses on the graph; its embedding takes the depth it
      may recurse to ([fuel], Python's recursion limit) and raises
      [RecursionError] beyond it.  In a store the operators built, a node's
      children are older than the node, and a depth above the root's
      position is enough ([build_topo_root]).
    - A neuron, a layer and a network are records of references into the
      store.  The numbers that [random.uniform] gives are a parameter (a
      sequence, with a count of the numbers drawn).  What a call is given
      is a list or a single thing; the [TypeError] of iterating a single
      thing is a result of its own, beside the errors of the engine. *)

From Stdlib Require Import ZArith List String Lia Floats Uint63.
From stdpp Require Import base list.

Set Default Proof Using "Type".

(** ** Python's run-time errors *)

Inductive error : Type :=
  | AssertionError      (* [assert isinstance(other, (int, float))] in [__pow__] *)
  | ZeroDivisionError   (* [x / 0.0], [0.0 ** negative] *)
  | OverflowError       (* [math.exp] and [**] out of the double range *)
  | ValueError          (* a libm domain error *)
  | ComplexResult       (* no Python error: a power that is a complex number,
                           which this model of [float] data leaves out *)
  | RecursionError      (* the recursion limit, hit by [build_topo] *)
  | DanglingRef.        (* a name of no object: never produced by the engine *)

(** The specification's name for the failure of the exponent's type check. *)
Definition UnsupportedExponentType : error := AssertionError.

Inductive outcome (A : Type) : Type :=
  | Ok (a : A)
  | Raise (e : error).
Arguments Ok {A} a.
Arguments Raise {A} e.

(** ** Numbers, as the engine uses them *)

Class Arith (num : Type) : Type := {
  of_int : Z -> num;                       (* an [int] literal met by a number *)
  py_neg : num -> num;                     (* [-x] *)
  py_add : num -> num -> num;              (* [x + y] *)
  py_sub : num -> num -> num;              (* [x - y] *)
  py_mul : num -> num -> num;              (* [x * y] *)
  py_truediv : num -> num -> outcome num;  (* [x / y] *)
  py_pow : num -> num -> outcome num;      (* [x ** y] *)
  math_exp : num -> outcome num            (* [math.exp(x)] *)
}.

(** ** Object identities and the iteration order of a set of objects *)

Abbreviation ref := nat.

Class SetOrder : Type := {
  set_iter : list ref -> list ref;
  set_iter_perm : forall l, Permutation (set_iter l) (remove_dups l)
}.

(** One admissible order: first insertion first. *)
#[refine]
Instance insertion_order : SetOrder := {| set_iter := remove_dups |}.
Proof. reflexivity. Defined.

(** Another one: last insertion first. *)
#[refine]
Instance reverse_order : SetOrder := {| set_iter := fun l => rev (remove_dups l) |}.
Proof. intros l. apply Permutation_sym, Permutation_rev. Defined.

(** ** Nodes *)

(** The closures installed in [_backward], by operator, with their captured
    variables. *)
Inductive rule (num : Type) : Type :=
  | RNone                                        (* [lambda: None] *)
  | RAdd (self other out : ref)                   (* in [__add__] *)
  | RMul (self other out : ref)                   (* in [__mul__] *)
  | RPow (self : ref) (other : num) (out : ref)    (* in [__pow__] *)
  | RExp (self out : ref)                         (* in [exp] *)
  | RTanh (self out : ref).                       (* in [tanh] *)
Arguments RNone {num}.
Arguments RAdd {num} self other out.
Arguments RMul {num} self other out.
Arguments RPow {num} self other out.
Arguments RExp {num} self out.
Arguments RTanh {num} self out.

Record Value (num : Type) : Type := mkValue {
  _backward : rule num;
  _op : option string;
  _prev : list ref;
  data : num;
  grad : num
}.
Arguments mkValue {num} _ _ _ _ _.
Arguments _backward {num} _.
Arguments _op {num} _.
Arguments _prev {num} _.
Arguments data {num} _.
Arguments grad {num} _.

(** The right operand of an operator: a node, or a plain number. *)
Inductive operand (num : Type) : Type :=
  | Node (v : ref)
  | Num (x : num).
Arguments Node {num} v.
Arguments Num {num} x.

Section Monad.

Context {num : Type}.

(** ** Computations over the store *)

Definition M (A : Type) : Type := list (Value num) -> list (Value num) * outcome A.

Definition ret {A : Type} (a : A) : M A := fun h => (h, Ok a).

Definition raise {A : Type} (e : error) : M A := fun h => (h, Raise e).

Definition bind {A B : Type} (m : M A) (k : A -> M B) : M B :=
  fun h => match m h with
           | (h', Ok a) => k a h'
           | (h', Raise e) => (h', Raise e)
           end.

Definition lift {A : Type} (o : outcome A) : M A := fun h => (h, o).

End Monad.

Arguments M num A : clear implicits.

Notation "'do' x <- m ; k" := (bind m (fun x => k))
  (at level 10, x name, m at level 100, k at level 200).
Notation "'run' m ; k" := (bind m (fun _ => k))
  (at level 10, m at level 100, k at level 200).

Section Engine.

Context {num : Type} {arith : Arith num} {sets : SetOrder}.

Abbreviation heap := (list (Value num)).
Abbreviation M := (M num).

(** Attribute reads and writes. *)

Definition get_node (v : ref) : M (Value num) :=
  fun h => match h !! v with
           | Some n => (h, Ok n)
           | None => (h, Raise DanglingRef)
           end.

Definition get_data (v : ref) : M num := do n <- get_node v ; ret (data n).

Definition get_grad (v : ref) : M num := do n <- get_node v ; ret (grad n).

Definition with_grad (g : num) (n : Value num) : Value num :=
  mkValue (_backward n) (_op n) (_prev n) (data n) g.

Definition with_backward (r : rule num) (n : Value num) : Value num :=
  mkValue r (_op n) (_prev n) (data n) (grad n).

Definition set_grad (v : ref) (g : num) : M unit :=
  do _ <- get_node v ; fun h => (alter (with_grad g) v h, Ok tt).

Definition set_backward (v : ref) (r : rule num) : M unit :=
  do _ <- get_node v ; fun h => (alter (with_backward r) v h, Ok tt).

(** [v.grad += x], the right-hand side being computed by [rhs] after
    [v.grad] was loaded. *)
Definition iadd_grad (v : ref) (rhs : M num) : M unit :=
  do g <- get_grad v ; do x <- rhs ; set_grad v (py_add g x).

(** ** [Value.__init__] *)

Definition __init__ (d : num) (_children : list ref) (op : option string) : M ref :=
  fun h => (h ++ [mkValue RNone op (set_iter _children) d (of_int 0)], Ok (length h)).

(** [other if isinstance(other, Value) else Value(other)] *)
Definition coerce (other : operand num) : M ref :=
  match other with
  | Node v => ret v
  | Num x => __init__ x [] None
  end.

(** ** The operators *)

Definition __add__ (self : ref) (other : operand num) : M ref :=
  do other <- coerce other ;
  do a <- get_data self ;
  do b <- get_data other ;
  do out <- __init__ (py_add a b) [self; other] (Some "+"%string) ;
  run set_backward out (RAdd self other out) ;
  ret out.

Definition __radd__ (self : ref) (other : num) : M ref :=
  __add__ self (Num other).

Definition __mul__ (self : ref) (other : operand num) : M ref :=
  do other <- coerce other ;
  do a <- get_data self ;
  do b <- get_data other ;
  do out <- __init__ (py_mul a b) [self; other] (Some "*"%string) ;
  run set_backward out (RMul self other out) ;
  ret out.

Definition __rmul__ (self : ref) (other : num) : M ref :=
  __mul__ self (Num other).

Definition __neg__ (self : ref) : M ref :=
  __mul__ self (Num (of_int (-1))).

Definition __pow__ (self : ref) (other : operand num) : M ref :=
  match other with
  | Node _ => raise AssertionError
  | Num p =>
      do a <- get_data self ;
      do d <- lift (py_pow a p) ;
      do out <- __init__ d [self] (Some "**"%string) ;
      run set_backward out (RPow self p out) ;
      ret out
  end.

Definition __sub__ (self : ref) (other : operand num) : M ref :=
  match other with
  | Node o => do n <- __neg__ o ; __add__ self (Node n)
  | Num x => __add__ self (Num (py_neg x))
  end.

Definition __rsub__ (self : ref) (other : num) : M ref :=
  do n <- __neg__ self ; __radd__ n other.

Definition __truediv__ (self : ref) (other : operand num) : M ref :=
  do other <- coerce other ;
  do inv <- __pow__ other (Num (of_int (-1))) ;
  __mul__ self (Node inv).

Definition __rtruediv__ (self : ref) (other : num) : M ref :=
  do inv <- __pow__ self (Num (of_int (-1))) ;
  __rmul__ inv other.

Definition exp (self : ref) : M ref :=
  do a <- get_data self ;
  do d <- lift (math_exp a) ;
  do out <- __init__ d [self] (Some "exp"%string) ;
  run set_backward out (RExp self out) ;
  ret out.

Definition tanh (self : ref) : M ref :=
  do a <- get_data self ;
  do e1 <- lift (math_exp (py_mul (of_int 2) a)) ;
  do a' <- get_data self ;
  do e2 <- lift (math_exp (py_mul (of_int 2) a')) ;
  do d <- lift (py_truediv (py_sub e1 (of_int 1)) (py_add e2 (of_int 1))) ;
  do out <- __init__ d [self] (Some "tanh"%string) ;
  run set_backward out (RTanh self out) ;
  ret out.

(** ** Calling a node's [_backward] *)

Definition call_rule (r : rule num) : M unit :=
  match r with
  | RNone => ret tt
  | RAdd self other out =>
      run iadd_grad self (get_grad out) ;
      iadd_grad other (get_grad out)
  | RMul self other out =>
      run iadd_grad self (do b <- get_data other ; do g <- get_grad out ; ret (py_mul b g)) ;
      iadd_grad other (do a <- get_data self ; do g <- get_grad out ; ret (py_mul a g))
  | RPow self other out =>
      iadd_grad self
        (do a <- get_data self ;
         do p <- lift (py_pow a (py_sub other (of_int 1))) ;
         do g <- get_grad out ;
         ret (py_mul (py_mul other p) g))
  | RExp self out =>
      iadd_grad self (do d <- get_data out ; do g <- get_grad out ; ret (py_mul d g))
  | RTanh self out =>
      iadd_grad self
        (do d <- get_data out ;
         do s <- lift (py_pow d (of_int 2)) ;
         do g <- get_grad out ;
         ret (py_mul (py_sub (of_int 1) s) g))
  end.

Definition call_backward (node : ref) : M unit :=
  do n <- get_node node ; call_rule (_backward n).

(** ** [Value.backward] *)

(** [build_topo]: [st] is the pair of the closure's [visited] and [topo];
    [fuel] bounds the depth of the recursion, as the recursion limit does. *)
Fixpoint build_topo (fuel : nat) (h : heap) (v : ref) (st : list ref * list ref)
  : outcome (list ref * list ref) :=
  match fuel with
  | O => Raise RecursionError
  | S fuel' =>
      if bool_decide (v ∈ st.1) then Ok st
      else
        match h !! v with
        | None => Raise DanglingRef
        | Some n =>
            match
              fold_left
                (fun acc child =>
                   match acc with
                   | Ok st' => build_topo fuel' h child st'
                   | Raise e => Raise e
                   end)
                (_prev n) (Ok (v :: st.1, st.2))
            with
            | Ok st' => Ok (st'.1, st'.2 ++ [v])
            | Raise e => Raise e
            end
        end
  end.

(** [for node in nodes: node._backward()] *)
Fixpoint call_all (nodes : list ref) : M unit :=
  match nodes with
  | [] => ret tt
  | node :: rest => run call_backward node ; call_all rest
  end.

Definition backward (fuel : nat) (self : ref) : M unit :=
  fun h =>
    match build_topo fuel h self ([], []) with
    | Raise e => (h, Raise e)
    | Ok st => (run set_grad self (of_int 1) ; call_all (reverse st.2)) h
    end.

(** ** [Module.zero_grad] ([micrograd/nn.py]), over the given parameters *)

Fixpoint zero_grad (parameters : list ref) : M unit :=
  match parameters with
  | [] => ret tt
  | parameter :: rest => run set_grad parameter (of_int 0) ; zero_grad rest
  end.

End Engine.

(** ** Python's [float]: IEEE doubles *)

Module PyFloat.

(** [float(z)] for an [int] literal; exact for the literals of the engine
    ([0], [1], [2], [-1]). *)
Definition float_of_int (z : Z) : float :=
  match z with
  | Z0 => 0%float
  | Zpos _ => of_uint63 (Uint63.of_Z z)
  | Zneg p => (- of_uint63 (Uint63.of_Z (Zpos p)))%float
  end.

(** [x / y]: [float.__truediv__] raises on a zero divisor of either sign. *)
Definition float_truediv (x y : float) : outcome float :=
  if (y =? 0)%float then Raise ZeroDivisionError else Ok (x / y)%float.

(** [x ** y]: a zero base and a finite negative exponent raise; every other
    case is left to [c_pow] (the rest of [float.__pow__]: its special values
    and libm's [pow] with the range check). *)
Definition float_pow (c_pow : float -> float -> outcome float) (x y : float)
  : outcome float :=
  if (x =? 0)%float && (y <? 0)%float && negb (is_infinity y)
  then Raise ZeroDivisionError
  else c_pow x y.

(** [math.exp(x)]: NaN goes to NaN; below [-746] the result is less than half
    the least positive double and rounds to [0.0]; from [710] on it exceeds the
    largest double, which is [inf] for [x = inf] and raises for a finite [x];
    in between it is libm's [exp] ([c_exp]). *)
Definition float_exp (c_exp : float -> outcome float) (x : float) : outcome float :=
  if is_nan x then Ok nan
  else if (x <? -746)%float then Ok 0%float
  else if (710 <=? x)%float then
    if is_infinity x then Ok infinity else Raise OverflowError
  else c_exp x.

Definition float_arith (c_exp : float -> outcome float)
    (c_pow : float -> float -> outcome float) : Arith float :=
  {| of_int := float_of_int;
     py_neg := PrimFloat.opp;
     py_add := PrimFloat.add;
     py_sub := PrimFloat.sub;
     py_mul := PrimFloat.mul;
     py_truediv := float_truediv;
     py_pow := float_pow c_pow;
     math_exp := float_exp c_exp |}.

End PyFloat.

(** ** The graph of a store *)

Section Graph.

Context {num : Type}.

Abbreviation heap := (list (Value num)).

(** The nodes whose [grad] a closure assigns, and the node it belongs to. *)
Definition rule_targets (r : rule num) : list ref :=
  match r with
  | RNone => []
  | RAdd self other _ | RMul self other _ => [self; other]
  | RPow self _ _ | RExp self _ | RTanh self _ => [self]
  end.

Definition rule_out (r : rule num) : list ref :=
  match r with
  | RNone => []
  | RAdd _ _ out | RMul _ _ out | RPow _ _ out | RExp _ out | RTanh _ out => [out]
  end.

(** What the operators establish for the node stored at [v]: its children
    were created before it, its closure assigns to children only, and the
    closure's [out] is the node itself. *)
Definition node_ok (v : ref) (n : Value num) : Prop :=
  Forall (fun c => c < v) (_prev n)
  /\ Forall (fun t => t ∈ _prev n) (rule_targets (_backward n))
  /\ Forall (fun o => o = v) (rule_out (_backward n)).

Definition wf (h : heap) : Prop :=
  forall v n, h !! v = Some n -> node_ok v n.

(** Every node has the [grad] it was constructed with. *)
Definition all_fresh `{Arith num} (h : heap) : Prop :=
  Forall (fun n => grad n = of_int 0) h.

(** [h] is [h0] with new objects after it, the old ones untouched; the new
    ones are as the operators make them. *)
Definition extends `{Arith num} (h0 h : heap) : Prop :=
  h0 `prefix_of` h /\ (wf h0 -> wf h) /\ (all_fresh h0 -> all_fresh h).

(** [reach h v w]: [w] is [v] or is reached from [v] through [_prev]. *)
Inductive reach (h : heap) : ref -> ref -> Prop :=
  | reach_refl v : reach h v v
  | reach_step v n c w :
      h !! v = Some n -> c ∈ _prev n -> reach h c w -> reach h v w.

(** Every node of the sequence stands after all of its children. *)
Definition children_first (h : heap) (l : list ref) : Prop :=
  forall i v n c,
    l !! i = Some v -> h !! v = Some n -> c ∈ _prev n ->
    exists j, j < i /\ l !! j = Some c.

(** The state of [build_topo] between two calls: what is in [topo] is there
    once, after its children, and was visited. *)
Definition topo_inv (h : heap) (visited topo : list ref) : Prop :=
  NoDup topo /\ children_first h topo /\ (forall n, n ∈ topo -> n ∈ visited).

(** What a traversal from the nodes [roots] answers, started in the state
    [(visited, topo)]: it appends to [topo] the nodes reached from [roots]
    that were not there, and has visited these besides. *)
Definition dfs_post (h : heap) (roots visited topo : list ref)
    (r : outcome (list ref * list ref)) : Prop :=
  exists visited' new,
    r = Ok (visited', topo ++ new)
    /\ topo_inv h visited' (topo ++ new)
    /\ (forall n, n ∈ visited' <-> n ∈ visited \/ n ∈ new)
    /\ (forall n, n ∈ new -> exists c, c ∈ roots /\ reach h c n)
    /\ (forall c n, c ∈ roots -> reach h c n -> n ∈ topo ++ new).

(** Two nodes that differ in [grad] at most. *)
Definition same_node (n n' : Value num) : Prop :=
  _backward n' = _backward n /\ _op n' = _op n
  /\ _prev n' = _prev n /\ data n' = data n.

(** [h'] is [h] with other values of [grad], and only at nodes of [S]. *)
Definition frame (S : ref -> Prop) (h h' : heap) : Prop :=
  Forall2 same_node h h' /\ forall v, ~ S v -> h' !! v = h !! v.

(** The errors that Python's power raises somewhere. *)
Definition pow_error `{Arith num} (e : error) : Prop :=
  exists x p : num, py_pow x p = Raise e.

(** Every node that [y] reaches has the [grad] it was constructed with. *)
Definition fresh_grads `{Arith num} (h : heap) (y : ref) : Prop :=
  forall v n, reach h y v -> h !! v = Some n -> grad n = of_int 0.

End Graph.

(** ** Hoare triples over the store *)

Section Hoare.

Context {num : Type}.

Definition hoare {A : Type} (P : list (Value num) -> Prop) (m : M num A)
    (Q : A -> list (Value num) -> Prop) (E : error -> list (Value num) -> Prop) : Prop :=
  forall h, P h ->
    match m h with
    | (h', Ok a) => Q a h'
    | (h', Raise e) => E e h'
    end.

(** The shape shared by the operators' triples: a call only adds nodes,
    made as the operators make them, and returns a node of the store. *)
Definition op_spec `{Arith num} (m : M num ref) : Prop :=
  forall h0, hoare (fun h => extends h0 h) m
                   (fun out h => extends h0 h /\ out < length h)
                   (fun _ h => extends h0 h).

(** From the store [h0] on, [m] assigns [grad] at nodes of [S] only, and
    raises nothing but what a power raised. *)
Definition keeps `{Arith num} (h0 : list (Value num)) (S : ref -> Prop)
    {A : Type} (m : M num A) : Prop :=
  hoare (frame S h0) m (fun _ => frame S h0)
        (fun e h => frame S h0 h /\ pow_error e).

(** From the store [h0] on, [m] assigns [grad] only. *)
Definition stays (h0 : list (Value num)) {A : Type} (m : M num A) : Prop :=
  hoare (frame (fun _ => True) h0) m
        (fun _ => frame (fun _ => True) h0) (fun _ => frame (fun _ => True) h0).

(** [wf], as a conjunction over the store from the node [v] on. *)
Fixpoint wf_from (v : ref) (h : list (Value num)) : Prop :=
  match h with
  | [] => True
  | n :: h' => node_ok v n /\ wf_from (S v) h'
  end.

End Hoare.

(** ** Programs of the specification's scenarios *)

Section Programs.

Context {num : Type} {arith : Arith num} {sets : SetOrder}.

(** [a = Value(x); b = Value(y); c = Value(z); e = a*b + c] *)
Definition expression_e (x y z : num) : M num (ref * ref * ref * ref) :=
  do a <- __init__ x [] None ;
  do b <- __init__ y [] None ;
  do c <- __init__ z [] None ;
  do ab <- __mul__ a (Node b) ;
  do e <- __add__ ab (Node c) ;
  ret (a, b, c, e).

(** ... followed by [e.backward()] *)
Definition end_to_end (x y z : num) (fuel : nat) : M num (ref * ref * ref * ref) :=
  do r <- expression_e x y z ;
  run backward fuel r.2 ;
  ret r.

(** [x = Value(d); y = x + x; y.backward()] *)
Definition double_backward (d : num) (fuel : nat) : M num (ref * ref) :=
  do x <- __init__ d [] None ;
  do y <- __add__ x (Node x) ;
  run backward fuel y ;
  ret (x, y).

(** [x = Value(d); y = x * x; y.backward()] *)
Definition square_backward (d : num) (fuel : nat) : M num (ref * ref) :=
  do x <- __init__ d [] None ;
  do y <- __mul__ x (Node x) ;
  run backward fuel y ;
  ret (x, y).

(** [a = Value(x); b = Value(y); out = a - b; out.backward()] *)
Definition sub_backward (x y : num) (fuel : nat) : M num (ref * ref * ref) :=
  do a <- __init__ x [] None ;
  do b <- __init__ y [] None ;
  do out <- __sub__ a (Node b) ;
  run backward fuel out ;
  ret (a, b, out).

(** [a = Value(x); b = Value(y); out = a / b; out.backward()] *)
Definition truediv_backward (x y : num) (fuel : nat) : M num (ref * ref * ref) :=
  do a <- __init__ x [] None ;
  do b <- __init__ y [] None ;
  do out <- __truediv__ a (Node b) ;
  run backward fuel out ;
  ret (a, b, out).


End Programs.

(** ** What the closures add *)

Section Contributions.

Context {num : Type} {arith : Arith num}.

(** [v.grad] and [v.data] in the store [k] ([0] where there is no such
    node). *)
Definition grad_of (k : list (Value num)) (v : ref) : num :=
  match k !! v with
  | Some n => grad n
  | None => of_int 0
  end.

Definition data_of (k : list (Value num)) (v : ref) : num :=
  match k !! v with
  | Some n => data n
  | None => of_int 0
  end.

(** What the closure [r], called in the store [k], adds to the [grad] of
    which node, in the order of its statements; or what it raises. *)
Definition rule_amounts (k : list (Value num)) (r : rule num)
  : outcome (list (ref * num)) :=
  match r with
  | RNone => Ok []
  | RAdd self other out =>
      Ok [(self, grad_of k out); (other, grad_of k out)]
  | RMul self other out =>
      Ok [(self, py_mul (data_of k other) (grad_of k out));
          (other, py_mul (data_of k self) (grad_of k out))]
  | RPow self other out =>
      match py_pow (data_of k self) (py_sub other (of_int 1)) with
      | Ok p => Ok [(self, py_mul (py_mul other p) (grad_of k out))]
      | Raise e => Raise e
      end
  | RExp self out =>
      Ok [(self, py_mul (data_of k out) (grad_of k out))]
  | RTanh self out =>
      match py_pow (data_of k out) (of_int 2) with
      | Ok s => Ok [(self, py_mul (py_sub (of_int 1) s) (grad_of k out))]
      | Raise e => Raise e
      end
  end.

Definition node_amounts (k : list (Value num)) (p : ref) : outcome (list (ref * num)) :=
  match k !! p with
  | Some n => rule_amounts k (_backward n)
  | None => Raise DanglingRef
  end.

(** The amounts of [l] that go to [v]. *)
Definition amounts_to (v : ref) (l : list (ref * num)) : list num :=
  flat_map (fun tx => if decide (tx.1 = v) then [tx.2] else []) l.

(** What [v] receives from the closures of [nodes], in this order. *)
Definition received (k : list (Value num)) (nodes : list ref) (v : ref) : list num :=
  flat_map (fun p => match node_amounts k p with
                     | Ok l => amounts_to v l
                     | Raise _ => []
                     end) nodes.

(** [g += x] for each [x] of [l], from left to right. *)
Definition accumulate (g : num) (l : list num) : num := fold_left py_add l g.

(** No node of the list is a child of itself or of a node after it. *)
Fixpoint parents_first (h : list (Value num)) (nodes : list ref) : Prop :=
  match nodes with
  | [] => True
  | p :: rest =>
      (forall q nq, q ∈ p :: rest -> h !! q = Some nq -> p ∉ _prev nq)
      /\ parents_first h rest
  end.

End Contributions.

(** ** A graph placed after other nodes *)

Section Placing.

Context {num : Type}.

(** The closure [r] with every node it names moved [n] places up. *)
Definition shift_rule (n : nat) (r : rule num) : rule num :=
  match r with
  | RNone => RNone
  | RAdd self other out => RAdd (n + self) (n + other) (n + out)
  | RMul self other out => RMul (n + self) (n + other) (n + out)
  | RPow self other out => RPow (n + self) other (n + out)
  | RExp self out => RExp (n + self) (n + out)
  | RTanh self out => RTanh (n + self) (n + out)
  end.

Definition shift (n : nat) (x : Value num) : Value num :=
  mkValue (shift_rule n (_backward x)) (_op x) (map (Nat.add n) (_prev x))
    (data x) (grad x).

(** The store [h] followed by the graph [g], whose nodes name each other
    by their places in [g]. *)
Definition placed (h g : list (Value num)) : list (Value num) :=
  h ++ map (shift (length h)) g.

(** [m], run after [h] on the graph [g] moved up, does what [m'] does on
    [g] in place, and returns what [m'] returns, renamed by [rename]. *)
Definition runs_alike {A : Type} (h : list (Value num)) (rename : A -> A)
    (m m' : M num A) : Prop :=
  forall g,
    m (placed h g)
    = match m' g with
      | (g', Ok a) => (placed h g', Ok (rename a))
      | (g', Raise e) => (placed h g', Raise e)
      end.

(** The state of [build_topo], moved up. *)
Definition shift_state (n : nat) (o : outcome (list ref * list ref))
  : outcome (list ref * list ref) :=
  match o with
  | Ok st => Ok (map (Nat.add n) st.1, map (Nat.add n) st.2)
  | Raise e => Raise e
  end.

End Placing.

(** ** Nodes as the constructor makes them *)

Section Nodes.

Context {num : Type} {arith : Arith num} {sets : SetOrder}.

(** [Value(d)] *)
Definition leaf (d : num) : Value num :=
  mkValue RNone None (set_iter []) d (of_int 0).

(** [Value(d, cs, op)] with the closure [r] installed. *)
Definition made (r : rule num) (op : string) (cs : list ref) (d : num) : Value num :=
  mkValue r (Some op) (set_iter cs) d (of_int 0).

End Nodes.

(** ** What a call gives *)

(** [m], run in [h], returns a node made by the call, which holds [d]. *)
Definition yields {num : Type} (m : M num ref) (h : list (Value num)) (d : num) : Prop :=
  exists h' out n,
    m h = (h', Ok out) /\ length h <= out /\ h' !! out = Some n /\ data n = d.

(** ** Calls that only add nodes *)

Section Grows.

Context {num : Type} {arith : Arith num} {sets : SetOrder}.

(** [m] only adds nodes, made as the operators make them, whether it
    returns or raises. *)
Definition grows {A : Type} (m : M num A) : Prop :=
  forall h0 : list (Value num),
    hoare (fun h => extends h0 h) m (fun _ h => extends h0 h) (fun _ h => extends h0 h).

End Grows.

(** ** [micrograd/nn.py] *)

Module nn.

(** What a call is given, and what a layer returns: one node or number,
    which is not iterable, or a list. *)
Inductive input (num : Type) : Type :=
  | Single (x : operand num)
  | Several (xs : list (operand num)).

Arguments Single {num} x.
Arguments Several {num} xs.

(** The [TypeError] that [zip] raises on an argument that is not iterable,
    kept apart from the errors of the engine: it is raised before the call
    made any node. *)
Inductive checked (A : Type) : Type :=
  | Fine (a : A)
  | TypeError.

Arguments Fine {A} a.
Arguments TypeError {A}.

Record Neuron : Type := mkNeuron { w : list ref; b : ref }.

Record Layer : Type := mkLayer { neurons : list Neuron }.

Record MLP : Type := mkMLP { layers : list Layer }.

Section Network.

Context {num : Type} {arith : Arith num} {sets : SetOrder}.

(** [[Value(random.uniform(-1, 1)) for _ in range(n)]]: [uniform t] is the
    [t]-th number that the generator gives, [t] counts the numbers drawn. *)
Fixpoint init_weights (uniform : nat -> num) (n t : nat) : M num (list ref) :=
  match n with
  | O => ret []
  | S n' =>
      do v <- __init__ (uniform t) [] None ;
      do vs <- init_weights uniform n' (S t) ;
      ret (v :: vs)
  end.

(** [Neuron.__init__] *)
Definition Neuron_init (uniform : nat -> num) (n_inputs t : nat) : M num (Neuron * nat) :=
  do ws <- init_weights uniform n_inputs t ;
  do bias <- __init__ (of_int 0) [] None ;
  ret (mkNeuron ws bias, t + n_inputs).

(** [sum((wi * xi for wi, xi in pairs), acc)]: each product is made when
    [sum] asks for it, and added to the running result. *)
Fixpoint sum_products (pairs : list (ref * operand num)) (acc : ref) : M num ref :=
  match pairs with
  | [] => ret acc
  | (wi, xi) :: rest =>
      do p <- __mul__ wi xi ;
      do acc' <- __add__ acc (Node p) ;
      sum_products rest acc'
  end.

(** [Neuron.__call__] *)
Definition Neuron_call (self : Neuron) (x : input num) : M num (checked ref) :=
  match x with
  | Single _ => ret TypeError
  | Several xs =>
      do pre_activation <- sum_products (zip (w self) xs) (b self) ;
      do out <- tanh pre_activation ;
      ret (Fine out)
  end.

(** [Neuron.parameters] *)
Definition Neuron_parameters (self : Neuron) : list ref := w self ++ [b self].

(** [Module.parameters], which [Neuron] overrides. *)
Definition Module_parameters : list ref := [].

(** [Module.zero_grad] on a neuron, the only class that inherits it. *)
Definition Neuron_zero_grad (self : Neuron) : M num unit :=
  zero_grad (Neuron_parameters self).

(** [[Neuron(n_inputs) for _ in range(n_outputs)]] *)
Fixpoint init_neurons (uniform : nat -> num) (n_inputs n_outputs t : nat)
  : M num (list Neuron * nat) :=
  match n_outputs with
  | O => ret ([], t)
  | S k =>
      do n <- Neuron_init uniform n_inputs t ;
      do r <- init_neurons uniform n_inputs k n.2 ;
      ret (n.1 :: r.1, r.2)
  end.

(** [Layer.__init__] *)
Definition Layer_init (uniform : nat -> num) (n_inputs n_outputs t : nat)
  : M num (Layer * nat) :=
  do r <- init_neurons uniform n_inputs n_outputs t ;
  ret (mkLayer r.1, r.2).

(** [[n(x) for n in ns]] *)
Fixpoint call_neurons (ns : list Neuron) (x : input num) : M num (checked (list ref)) :=
  match ns with
  | [] => ret (Fine [])
  | n :: rest =>
      do r <- Neuron_call n x ;
      match r with
      | TypeError => ret TypeError
      | Fine v =>
          do rs <- call_neurons rest x ;
          match rs with
          | TypeError => ret TypeError
          | Fine vs => ret (Fine (v :: vs))
          end
      end
  end.

(** [Layer.__call__]: [out[0] if len(out) == 1 else out] *)
Definition Layer_call (self : Layer) (x : input num) : M num (checked (input num)) :=
  do r <- call_neurons (neurons self) x ;
  ret (match r with
       | TypeError => TypeError
       | Fine [v] => Fine (Single (Node v))
       | Fine out => Fine (Several (map Node out))
       end).

(** [Layer.parameters] *)
Definition Layer_parameters (self : Layer) : list ref :=
  flat_map Neuron_parameters (neurons self).

(** [[Layer(sz[i], sz[i + 1]) for i in range(len(n_outputs))]] with
    [sz = [n_inputs] + n_outputs]: each layer takes as many inputs as the
    layer before it has neurons. *)
Fixpoint init_layers (uniform : nat -> num) (n_inputs : nat) (n_outputs : list nat)
    (t : nat) : M num (list Layer * nat) :=
  match n_outputs with
  | [] => ret ([], t)
  | n :: rest =>
      do l <- Layer_init uniform n_inputs n t ;
      do r <- init_layers uniform n rest l.2 ;
      ret (l.1 :: r.1, r.2)
  end.

(** [MLP.__init__] *)
Definition MLP_init (uniform : nat -> num) (n_inputs : nat) (n_outputs : list nat)
    (t : nat) : M num (MLP * nat) :=
  do r <- init_layers uniform n_inputs n_outputs t ;
  ret (mkMLP r.1, r.2).

(** [for layer in ls: x = layer(x)] *)
Fixpoint call_layers (ls : list Layer) (x : input num) : M num (checked (input num)) :=
  match ls with
  | [] => ret (Fine x)
  | layer :: rest =>
      do r <- Layer_call layer x ;
      match r with
      | TypeError => ret TypeError
      | Fine x' => call_layers rest x'
      end
  end.

(** [MLP.__call__] *)
Definition MLP_call (self : MLP) (x : input num) : M num (checked (input num)) :=
  call_layers (layers self) x.

(** [MLP.parameters] *)
Definition MLP_parameters (self : MLP) : list ref :=
  flat_map Layer_parameters (layers self).

End Network.

(** *** What the constructors and the calls are expected to give *)

(** The parameters of a network of the given widths, and the numbers it
    draws. *)
Fixpoint n_parameters (n_inputs : nat) (n_outputs : list nat) : nat :=
  match n_outputs with
  | [] => 0
  | n :: rest => n * (n_inputs + 1) + n_parameters n rest
  end.

Fixpoint n_weights (n_inputs : nat) (n_outputs : list nat) : nat :=
  match n_outputs with
  | [] => 0
  | n :: rest => n * n_inputs + n_weights n rest
  end.

(** The nodes that [Neuron(n_inputs)] makes. *)
Definition neuron_nodes {num : Type} `{Arith num} `{SetOrder}
    (uniform : nat -> num) (n_inputs t : nat) : list (Value num) :=
  map (fun i => leaf (uniform i)) (seq t n_inputs) ++ [leaf (of_int 0)].

(** A value is one thing, or a list of so many. *)
Inductive kind : Type :=
  | KSingle
  | KSeveral (n : nat).

Definition kind_of {num : Type} (x : input num) : kind :=
  match x with
  | Single _ => KSingle
  | Several xs => KSeveral (length xs)
  end.

Definition result_kind {num : Type} (r : checked (input num)) : option kind :=
  match r with
  | TypeError => None
  | Fine y => Some (kind_of y)
  end.

(** A layer of so many neurons, given a value of kind [k]: nothing to call
    without neurons, no iteration over a single thing. *)
Definition layer_kind (width : nat) (k : kind) : option kind :=
  match width, k with
  | O, _ => Some (KSeveral 0)
  | _, KSingle => None
  | 1, KSeveral _ => Some KSingle
  | n, KSeveral _ => Some (KSeveral n)
  end.

Fixpoint layers_kind (widths : list nat) (k : kind) : option kind :=
  match widths with
  | [] => Some k
  | n :: rest =>
      match layer_kind n k with
      | None => None
      | Some k' => layers_kind rest k'
      end
  end.

Definition widths (self : MLP) : list nat :=
  map (fun l => length (neurons l)) (layers self).

(** The references of a network and of an input are nodes of [h]. *)
Definition Neuron_in {num : Type} (h : list (Value num)) (n : Neuron) : Prop :=
  Forall (fun v => v < length h) (Neuron_parameters n).

Definition MLP_in {num : Type} (h : list (Value num)) (self : MLP) : Prop :=
  Forall (fun l => Forall (Neuron_in h) (neurons l)) (layers self).

Definition operand_in {num : Type} (h : list (Value num)) (x : operand num) : Prop :=
  match x with
  | Node v => v < length h
  | Num _ => True
  end.

Definition input_in {num : Type} (h : list (Value num)) (x : input num) : Prop :=
  match x with
  | Single x => operand_in h x
  | Several xs => Forall (operand_in h) xs
  end.

(** *** The network as a function on numbers *)

Section Values.

Context {num : Type} {arith : Arith num}.

(** The number an operand stands for. *)
Definition value_of (h : list (Value num)) (x : operand num) : num :=
  match x with
  | Node v => data_of h v
  | Num r => r
  end.

(** What a call is given, as numbers. *)
Inductive shape : Type :=
  | One (x : num)
  | Many (xs : list num).

Definition shape_of (h : list (Value num)) (x : input num) : shape :=
  match x with
  | Single x => One (value_of h x)
  | Several xs => Many (map (value_of h) xs)
  end.

(** The formula of [tanh], or what [math.exp] or the division raises. *)
Definition tanh_value (s : num) : outcome num :=
  match math_exp (py_mul (of_int 2) s) with
  | Raise e => Raise e
  | Ok ex => py_truediv (py_sub ex (of_int 1)) (py_add ex (of_int 1))
  end.

(** [((b + w1 * x1) + w2 * x2) + ...], over the pairs that [zip] gives. *)
Definition weighted_sum (h : list (Value num)) (self : Neuron) (xs : list num) : num :=
  fold_left (fun acc p => py_add acc (py_mul (data_of h p.1) p.2))
    (zip (w self) xs) (data_of h (b self)).

Definition neuron_value (h : list (Value num)) (self : Neuron) (xs : list num)
  : outcome num :=
  tanh_value (weighted_sum h self xs).

(** The neurons one after the other; the first that raises ends it. *)
Fixpoint neurons_values (h : list (Value num)) (ns : list Neuron) (xs : list num)
  : outcome (list num) :=
  match ns with
  | [] => Ok []
  | n :: rest =>
      match neuron_value h n xs with
      | Raise e => Raise e
      | Ok v =>
          match neurons_values h rest xs with
          | Raise e => Raise e
          | Ok vs => Ok (v :: vs)
          end
      end
  end.

Definition layer_value (h : list (Value num)) (self : Layer) (x : shape)
  : outcome (checked shape) :=
  match neurons self, x with
  | [], _ => Ok (Fine (Many []))
  | _ :: _, One _ => Ok TypeError
  | ns, Many xs =>
      match neurons_values h ns xs with
      | Raise e => Raise e
      | Ok [v] => Ok (Fine (One v))
      | Ok vs => Ok (Fine (Many vs))
      end
  end.

Fixpoint layers_value (h : list (Value num)) (ls : list Layer) (x : shape)
  : outcome (checked shape) :=
  match ls with
  | [] => Ok (Fine x)
  | l :: rest =>
      match layer_value h l x with
      | Raise e => Raise e
      | Ok TypeError => Ok TypeError
      | Ok (Fine x') => layers_value h rest x'
      end
  end.

End Values.
Arguments One {num} x.
Arguments Many {num} xs.

End nn.

(** ** Example stores, in doubles *)

(** A leaf of doubles, as [Value(x)] makes it. *)
Definition float_leaf (x : float) : Value float := mkValue RNone None [] x 0%float.

(** Doubles with one libm, for the examples: its [exp] and [pow] hand
    back their first argument.  The results hold for every libm. *)
Definition demo_arith : Arith float :=
  PyFloat.float_arith (fun x => Ok x) (fun x _ => Ok x).

(** The store after [a = Value(2.0); b = Value(-3.0); c = Value(10.0);
    e = a*b + c], with [_prev] in insertion order. *)
Definition demo_graph : list (Value float) :=
  [ float_leaf 2;
    float_leaf (-3);
    float_leaf 10;
    mkValue (RMul 0 1 3) (Some "*"%string) [0; 1] (-6)%float 0%float;
    mkValue (RAdd 3 2 4) (Some "+"%string) [3; 2] 4%float 0%float ].

(** The same store after [e.backward()]. *)
Definition demo_graph_done : list (Value float) :=
  [ mkValue RNone None [] 2%float (-3)%float;
    mkValue RNone None [] (-3)%float 2%float;
    mkValue RNone None [] 10%float 1%float;
    mkValue (RMul 0 1 3) (Some "*"%string) [0; 1] (-6)%float 1%float;
    mkValue (RAdd 3 2 4) (Some "+"%string) [3; 2] 4%float 1%float ].

(** The store after [a = Value(0.0); y = a ** 0.5]. *)
Definition root_of_zero : list (Value float) :=
  [ float_leaf 0;
    mkValue (RPow 0 0.5%float 1) (Some "**"%string) [0] 0%float 0%float ].

(** The store after [x = Value(1.0); y = x + x], where [x.grad] is [5.0]
    from an earlier use of [x]. *)
Definition stale_graph : list (Value float) :=
  [ mkValue RNone None [] 1%float 5%float;
    mkValue (RAdd 0 0 1) (Some "+"%string) [0] 2%float 0%float ].



(** A neuron over the leaves of [demo_graph]. *)
Definition demo_neuron : nn.Neuron := nn.mkNeuron [0; 1] 2.

(** Three parameters, and a network of two layers over them: two neurons,
    then one. Its sums lie below [-373], where [tanh] gives [-1.0]
    whatever libm's [exp] is. *)
Definition demo_params : list (Value float) :=
  [ float_leaf 2; float_leaf (-3); float_leaf (-400) ].

Definition demo_wide_mlp : nn.MLP :=
  nn.mkMLP [ nn.mkLayer [nn.mkNeuron [0; 1] 2; nn.mkNeuron [1] 2];
             nn.mkLayer [nn.mkNeuron [0; 1] 2] ].

(** * Properties *)

Ltac split_ands :=
  simpl; intros;
  repeat match goal with H : _ /\ _ |- _ => destruct H end;
  repeat match goal with |- _ /\ _ => split end; assumption.

Section Rules.

Context {num : Type} {arith : Arith num} {sets : SetOrder}.

Implicit Types (h : list (Value num)) (v : ref) (n : Value num).
Implicit Types (P : list (Value num) -> Prop) (E : error -> list (Value num) -> Prop).

Lemma hoare_ret {A} P (a : A) (Q : A -> _ -> Prop) E :
  (forall h, P h -> Q a h) -> hoare P (ret a) Q E.
Proof. intros HQ h HP. simpl. auto. Qed.

Lemma hoare_lift {A} P (o : outcome A) (Q : A -> _ -> Prop) E :
  (forall h, P h -> match o with Ok a => Q a h | Raise e => E e h end) ->
  hoare P (lift o) Q E.
Proof. intros HQ h HP. unfold lift. specialize (HQ h HP). destruct o; auto. Qed.

Lemma hoare_raise {A} P e (Q : A -> _ -> Prop) E :
  (forall h, P h -> E e h) -> hoare P (raise e) Q E.
Proof. intros HE h HP. simpl. auto. Qed.

Lemma hoare_bind {A B} P (m : M num A) (k : A -> M num B) R (Q : B -> _ -> Prop) E :
  hoare P m R E -> (forall a, hoare (R a) (k a) Q E) -> hoare P (bind m k) Q E.
Proof.
  intros Hm Hk h HP. unfold bind. specialize (Hm h HP).
  destruct (m h) as [h' [a|e]]; [apply Hk, Hm | exact Hm].
Qed.

Lemma hoare_conseq {A} P P' (m : M num A) (Q Q' : A -> _ -> Prop) E E' :
  hoare P' m Q' E' ->
  (forall h, P h -> P' h) ->
  (forall a h, Q' a h -> Q a h) ->
  (forall e h, E' e h -> E e h) ->
  hoare P m Q E.
Proof.
  intros Hm HP HQ HE h Hh. specialize (Hm h (HP h Hh)).
  destruct (m h) as [h' [a|e]]; auto.
Qed.

Lemma hoare_get_node v P (Q : Value num -> _ -> Prop) E :
  (forall h, P h ->
     match h !! v with Some n => Q n h | None => E DanglingRef h end) ->
  hoare P (get_node v) Q E.
Proof.
  intros HQ h HP. unfold get_node. specialize (HQ h HP).
  destruct (h !! v); auto.
Qed.

Lemma hoare_get_data v P (Q : num -> _ -> Prop) E :
  (forall h, P h ->
     match h !! v with Some n => Q (data n) h | None => E DanglingRef h end) ->
  hoare P (get_data v) Q E.
Proof.
  intros HQ. unfold get_data.
  eapply hoare_bind; [apply hoare_get_node with (Q := fun n h => h !! v = Some n /\ P h)|].
  - intros h HP. destruct (h !! v) eqn:Hv; [auto|]. specialize (HQ h HP). now rewrite Hv in HQ.
  - intros n. apply hoare_ret. intros h [Hv HP]. specialize (HQ h HP). now rewrite Hv in HQ.
Qed.

Lemma hoare_get_grad v P (Q : num -> _ -> Prop) E :
  (forall h, P h ->
     match h !! v with Some n => Q (grad n) h | None => E DanglingRef h end) ->
  hoare P (get_grad v) Q E.
Proof.
  intros HQ. unfold get_grad.
  eapply hoare_bind; [apply hoare_get_node with (Q := fun n h => h !! v = Some n /\ P h)|].
  - intros h HP. destruct (h !! v) eqn:Hv; [auto|]. specialize (HQ h HP). now rewrite Hv in HQ.
  - intros n. apply hoare_ret. intros h [Hv HP]. specialize (HQ h HP). now rewrite Hv in HQ.
Qed.

Lemma hoare_set_grad v g P (Q : unit -> _ -> Prop) E :
  (forall h, P h ->
     match h !! v with
     | Some n => Q tt (alter (with_grad g) v h)
     | None => E DanglingRef h
     end) ->
  hoare P (set_grad v g) Q E.
Proof.
  intros HQ h HP. unfold set_grad, bind, get_node. specialize (HQ h HP).
  destruct (h !! v); auto.
Qed.

Lemma hoare_set_backward v r P (Q : unit -> _ -> Prop) E :
  (forall h, P h ->
     match h !! v with
     | Some n => Q tt (alter (with_backward r) v h)
     | None => E DanglingRef h
     end) ->
  hoare P (set_backward v r) Q E.
Proof.
  intros HQ h HP. unfold set_backward, bind, get_node. specialize (HQ h HP).
  destruct (h !! v); auto.
Qed.

Lemma hoare_init_rule d cs op P (Q : ref -> _ -> Prop) E :
  (forall h, P h ->
     Q (length h) (h ++ [mkValue RNone op (set_iter cs) d (of_int 0)])) ->
  hoare P (__init__ d cs op) Q E.
Proof. intros HQ h HP. simpl. auto. Qed.

(** What a triple says of one run. *)
Lemma hoare_run {A} P (m : M num A) (Q : A -> _ -> Prop) E h h' o :
  hoare P m Q E -> P h -> m h = (h', o) ->
  match o with Ok a => Q a h' | Raise e => E e h' end.
Proof. intros Hm HP Heq. specialize (Hm h HP). now rewrite Heq in Hm. Qed.

Lemma hoare_state {A} P (m : M num A) (I : list (Value num) -> Prop) h :
  hoare P m (fun _ => I) (fun _ => I) -> P h -> I (m h).1.
Proof. intros Hm HP. specialize (Hm h HP). destruct (m h) as [h' [a|e]]; auto. Qed.

End Rules.

(** ** The operators only add nodes, and keep the store well formed *)

Section Operators.

Context {num : Type} {arith : Arith num} {sets : SetOrder}.

Implicit Types (h : list (Value num)) (v : ref) (n : Value num).

Lemma elem_of_set_iter (c : ref) (cs : list ref) : c ∈ set_iter cs <-> c ∈ cs.
Proof. rewrite (set_iter_perm cs). apply elem_of_remove_dups. Qed.

Lemma wf_nil : wf (@nil (Value num)).
Proof. intros v n Hv. discriminate. Qed.

Lemma wf_snoc h n : wf h -> node_ok (length h) n -> wf (h ++ [n]).
Proof.
  intros Hwf Hn v n' Hv.
  apply lookup_app_Some in Hv as [Hv | [Hlen Hv]]; [eauto|].
  apply list_lookup_singleton_Some in Hv as [Hv ->].
  replace v with (length h) by lia. exact Hn.
Qed.

Lemma extends_refl h : extends h h.
Proof. split; [reflexivity | auto]. Qed.

Lemma extends_snoc h0 h n :
  extends h0 h -> (wf h -> node_ok (length h) n) -> grad n = of_int 0 ->
  extends h0 (h ++ [n]).
Proof.
  intros (Hpre & Hwf & Hfr) Hn Hg. split; [|split].
  - etransitivity; [exact Hpre | apply prefix_app_r; reflexivity].
  - intros H0. apply wf_snoc; auto.
  - intros H0. apply Forall_app. split; [now apply Hfr | now repeat constructor].
Qed.

Lemma extends_take h0 h : extends h0 h -> take (length h0) h = h0.
Proof. intros ([k ->] & _). apply take_app_length. Qed.

(** [out = Value(d, cs, op); out._backward = r]: one node more. *)
Lemma hoare_new_node h0 d cs op (r : ref -> rule num) :
  (forall out, Forall (fun t => t ∈ cs) (rule_targets (r out))) ->
  (forall out, Forall (fun o => o = out) (rule_out (r out))) ->
  hoare (fun h => extends h0 h /\ Forall (fun c => c < length h) cs)
        (do out <- __init__ d cs op ; run set_backward out (r out) ; ret out)
        (fun out h => extends h0 h /\ out < length h)
        (fun _ h => extends h0 h).
Proof.
  intros Ht Ho h [Hext Hcs].
  unfold bind, __init__, set_backward, get_node, bind, ret.
  rewrite list_lookup_middle by reflexivity.
  rewrite alter_app_r_alt by lia. rewrite Nat.sub_diag. simpl. split.
  - apply extends_snoc; [exact Hext | | reflexivity]. intros _. repeat split; simpl.
    + apply Forall_forall. intros c Hc. rewrite elem_of_set_iter in Hc.
      rewrite Forall_forall in Hcs. auto.
    + eapply Forall_impl; [apply Ht|]. intros t Hin. now apply elem_of_set_iter.
    + apply Ho.
  - rewrite length_app. simpl. lia.
Qed.

Lemma hoare_leaf h0 d :
  hoare (fun h => extends h0 h) (__init__ d [] None)
        (fun out h => extends h0 h /\ out < length h) (fun _ h => extends h0 h).
Proof.
  apply hoare_init_rule. intros h Hext. split.
  - apply extends_snoc; [exact Hext | | reflexivity].
    intros _. repeat split; simpl; auto.
    apply Forall_forall. intros c Hc. rewrite elem_of_set_iter in Hc. inversion Hc.
  - rewrite length_app. simpl. lia.
Qed.

Lemma op_spec_bind (m : M num ref) (k : ref -> M num ref) :
  op_spec m -> (forall a, op_spec (k a)) -> op_spec (bind m k).
Proof.
  intros Hm Hk h0. eapply hoare_bind; [apply Hm|].
  intros a. eapply hoare_conseq; [apply (Hk a h0) | | |]; split_ands.
Qed.

Lemma hoare_coerce h0 (other : operand num) :
  hoare (fun h => extends h0 h) (coerce other)
        (fun _ h => extends h0 h) (fun _ h => extends h0 h).
Proof.
  destruct other as [v|x]; simpl.
  - now apply hoare_ret.
  - eapply hoare_conseq; [apply (hoare_leaf h0) | | |]; split_ands.
Qed.

(** A binary operator: coerce, read both [data], build the node. *)
Lemma op_spec_binary (f : num -> num -> num) op (r : ref -> ref -> ref -> rule num)
    (self : ref) (other : operand num) :
  (forall s o out, rule_targets (r s o out) = [s; o]) ->
  (forall s o out, rule_out (r s o out) = [out]) ->
  op_spec (do other <- coerce other ;
           do a <- get_data self ;
           do b <- get_data other ;
           do out <- __init__ (f a b) [self; other] op ;
           run set_backward out (r self other out) ;
           ret out).
Proof.
  intros Ht Ho h0.
  eapply hoare_bind; [apply hoare_coerce|]. intros o.
  eapply hoare_bind.
  { apply hoare_get_data
      with (Q := fun _ h => extends h0 h /\ self < length h).
    intros h Hext. destruct (h !! self) eqn:Hs; [|exact Hext].
    split; [exact Hext | eapply lookup_lt_Some; eauto]. }
  intros a. eapply hoare_bind.
  { apply hoare_get_data
      with (Q := fun _ h => extends h0 h /\ self < length h /\ o < length h).
    intros h [Hext Hs]. destruct (h !! o) eqn:Ho'; [|exact Hext].
    split; [exact Hext | split; [exact Hs | eapply lookup_lt_Some; eauto]]. }
  intros b. eapply hoare_conseq;
    [apply (hoare_new_node h0 (f a b) [self; o] op (r self o)) | | |]; simpl; auto.
  - intros out. rewrite Ht. repeat constructor.
  - intros out. rewrite Ho. repeat constructor.
  - intros h (Hext & Hs & Ho'). split; [exact Hext|]. repeat constructor; auto.
Qed.

(** A unary operator: read [data], compute (which may raise), build the node. *)
Lemma op_spec_unary (f : num -> outcome num) op (r : ref -> ref -> rule num)
    (self : ref) :
  (forall s out, rule_targets (r s out) = [s]) ->
  (forall s out, rule_out (r s out) = [out]) ->
  op_spec (do a <- get_data self ;
           do d <- lift (f a) ;
           do out <- __init__ d [self] op ;
           run set_backward out (r self out) ;
           ret out).
Proof.
  intros Ht Ho h0.
  eapply hoare_bind.
  { apply hoare_get_data
      with (Q := fun _ h => extends h0 h /\ self < length h).
    intros h Hext. destruct (h !! self) eqn:Hs; [|exact Hext].
    split; [exact Hext | eapply lookup_lt_Some; eauto]. }
  intros a. eapply hoare_bind.
  { apply hoare_lift with (Q := fun _ h => extends h0 h /\ self < length h).
    intros h [Hext Hs]. destruct (f a); auto. }
  intros d. eapply hoare_conseq;
    [apply (hoare_new_node h0 d [self] op (r self)) | | |]; simpl; auto.
  - intros out. rewrite Ht. repeat constructor.
  - intros out. rewrite Ho. repeat constructor.
  - intros h (Hext & Hs). split; [exact Hext|]. repeat constructor; auto.
Qed.

Lemma op_spec_add self other : op_spec (__add__ self other).
Proof. apply (op_spec_binary py_add _ RAdd); reflexivity. Qed.

Lemma op_spec_mul self other : op_spec (__mul__ self other).
Proof. apply (op_spec_binary py_mul _ RMul); reflexivity. Qed.

Lemma op_spec_neg self : op_spec (__neg__ self).
Proof. apply op_spec_mul. Qed.

Lemma op_spec_pow self other : op_spec (__pow__ self other).
Proof.
  destruct other as [v|p]; simpl.
  - intros h0. now apply hoare_raise.
  - apply (op_spec_unary (fun a => py_pow a p) _ (fun s out => RPow s p out));
      reflexivity.
Qed.

Lemma op_spec_sub self other : op_spec (__sub__ self other).
Proof.
  destruct other as [o|x]; simpl.
  - apply op_spec_bind; [apply op_spec_neg | intros n; apply op_spec_add].
  - apply op_spec_add.
Qed.

Lemma op_spec_rsub self other : op_spec (__rsub__ self other).
Proof. apply op_spec_bind; [apply op_spec_neg | intros n; apply op_spec_add]. Qed.

Lemma op_spec_truediv self other : op_spec (__truediv__ self other).
Proof.
  intros h0. eapply hoare_bind; [apply hoare_coerce|]. intros o.
  apply (op_spec_bind (__pow__ o _) (fun inv => __mul__ self (Node inv)));
    [apply op_spec_pow | intros inv; apply op_spec_mul].
Qed.

Lemma op_spec_rtruediv self other : op_spec (__rtruediv__ self other).
Proof. apply op_spec_bind; [apply op_spec_pow | intros inv; apply op_spec_mul]. Qed.

Lemma op_spec_exp self : op_spec (exp self).
Proof. apply (op_spec_unary math_exp _ RExp); reflexivity. Qed.

Lemma op_spec_tanh self : op_spec (tanh self).
Proof.
  intros h0. unfold tanh.
  eapply hoare_bind.
  { apply hoare_get_data with (Q := fun _ h => extends h0 h /\ self < length h).
    intros h Hext. destruct (h !! self) eqn:Hs; [|exact Hext].
    split; [exact Hext | eapply lookup_lt_Some; eauto]. }
  intros a. eapply hoare_bind.
  { apply hoare_lift with (Q := fun _ h => extends h0 h /\ self < length h).
    intros h [Hext Hs]. destruct (math_exp _); auto. }
  intros e1. eapply hoare_bind.
  { apply hoare_get_data with (Q := fun _ h => extends h0 h /\ self < length h).
    intros h [Hext Hs]. destruct (h !! self); auto. }
  intros a'. eapply hoare_bind.
  { apply hoare_lift with (Q := fun _ h => extends h0 h /\ self < length h).
    intros h [Hext Hs]. destruct (math_exp _); auto. }
  intros e2. eapply hoare_bind.
  { apply hoare_lift with (Q := fun _ h => extends h0 h /\ self < length h).
    intros h [Hext Hs]. destruct (py_truediv _ _); auto. }
  intros d. eapply hoare_conseq;
    [apply (hoare_new_node h0 d [self] _ (RTanh self)) | | |]; simpl; auto.
  - intros out. repeat constructor.
  - intros h (Hext & Hs). split; [exact Hext|]. repeat constructor; auto.
Qed.

(** One operator call on a store. *)
Lemma op_spec_run (m : M num ref) h :
  op_spec m -> extends h (m h).1.
Proof.
  intros Hm. apply (hoare_state (fun h' => extends h h') m).
  - eapply hoare_conseq; [apply (Hm h) | | |]; split_ands.
  - apply extends_refl.
Qed.

End Operators.

(** ** [build_topo] is a depth-first post-order of the reachable nodes *)

Section Traversal.

Context {num : Type}.

Implicit Types (h : list (Value num)) (v c w : ref).

Lemma build_topo_S fuel h v st :
  build_topo (S fuel) h v st =
  if bool_decide (v ∈ st.1) then Ok st
  else
    match h !! v with
    | None => Raise DanglingRef
    | Some n =>
        match
          fold_left
            (fun acc child =>
               match acc with
               | Ok st' => build_topo fuel h child st'
               | Raise e => Raise e
               end)
            (_prev n) (Ok (v :: st.1, st.2))
        with
        | Ok st' => Ok (st'.1, st'.2 ++ [v])
        | Raise e => Raise e
        end
    end.
Proof. reflexivity. Qed.

Lemma wf_child_lt h v n c : wf h -> h !! v = Some n -> c ∈ _prev n -> c < v.
Proof.
  intros Hwf Hv Hc. destruct (Hwf v n Hv) as [Hlt _].
  rewrite Forall_forall in Hlt. auto.
Qed.

Lemma reach_le h v w : wf h -> reach h v w -> w <= v.
Proof.
  intros Hwf Hr. induction Hr as [v | v n c w Hv Hc _ IH]; [lia|].
  pose proof (wf_child_lt h v n c Hwf Hv Hc). lia.
Qed.

Lemma reach_trans h u v w : reach h u v -> reach h v w -> reach h u w.
Proof.
  intros Huv Hvw. induction Huv as [| u n c v Hu Hc _ IH]; [exact Hvw|].
  eapply reach_step; eauto.
Qed.

Lemma reach_valid h v w : v < length h -> wf h -> reach h v w -> w < length h.
Proof. intros Hv Hwf Hr. pose proof (reach_le h v w Hwf Hr). lia. Qed.

(** A sequence with children first contains whatever its members reach. *)
Lemma children_first_closed h l v w :
  children_first h l -> v ∈ l -> reach h v w -> w ∈ l.
Proof.
  intros Hcf Hv Hr. induction Hr as [| v n c w Hn Hc _ IH]; [exact Hv|].
  apply IH. apply list_elem_of_lookup in Hv as [i Hi].
  destruct (Hcf i v n c Hi Hn Hc) as (j & _ & Hj).
  eapply list_elem_of_lookup_2; eauto.
Qed.

Lemma children_first_app h l l' :
  children_first h l ->
  (forall i v n c, l' !! i = Some v -> h !! v = Some n -> c ∈ _prev n ->
     c ∈ l ++ take i l') ->
  children_first h (l ++ l').
Proof.
  intros Hcf Hnew i v n c Hi Hn Hc.
  apply lookup_app_Some in Hi as [Hi | [Hlen Hi]].
  - destruct (Hcf i v n c Hi Hn Hc) as (j & Hj & Hjc).
    exists j. split; [exact Hj|]. now apply lookup_app_l_Some.
  - specialize (Hnew _ _ _ _ Hi Hn Hc).
    apply list_elem_of_lookup in Hnew as [j Hj].
    exists j. pose proof (lookup_lt_Some _ _ _ Hj) as Hlt.
    rewrite length_app, length_take in Hlt. split; [lia|].
    apply lookup_app_Some in Hj as [Hj | [Hlen' Hj]].
    + now apply lookup_app_l_Some.
    + apply lookup_app_Some. right. split; [exact Hlen'|].
      rewrite lookup_take_Some in Hj. tauto.
Qed.

Section Fold.

Variable h : list (Value num).
Variable fuel : nat.
Hypothesis Hwf : wf h.
Hypothesis IH : forall v visited topo,
  v < fuel -> v < length h -> topo_inv h visited topo ->
  (forall n, n <= v -> n ∈ visited -> n ∈ topo) ->
  dfs_post h [v] visited topo (build_topo fuel h v (visited, topo)).

(** The loop over the children of a node [b]. *)
Lemma dfs_fold_spec cs : forall b visited topo,
  Forall (fun c => c < b /\ c < fuel /\ c < length h) cs ->
  topo_inv h visited topo ->
  (forall n, n < b -> n ∈ visited -> n ∈ topo) ->
  dfs_post h cs visited topo
    (fold_left
       (fun acc child =>
          match acc with
          | Ok st' => build_topo fuel h child st'
          | Raise e => Raise e
          end)
       cs (Ok (visited, topo))).
Proof using Hwf IH.
  induction cs as [|c cs IHcs]; intros b visited topo Hcs Hinv Hlow.
  - exists visited, []. simpl. rewrite app_nil_r.
    split; [reflexivity|]. split; [exact Hinv|]. split; [|split].
    + intros n. split; [now left | intros [?|Hn]; [auto | inversion Hn]].
    + intros n Hn. inversion Hn.
    + intros c n Hc. inversion Hc.
  - apply Forall_cons in Hcs as [(Hcb & Hcf & Hch) Hcs]. simpl.
    destruct (IH c visited topo Hcf Hch Hinv) as (vis1 & new1 & -> & Hinv1 & Hvis1 & Hnew1 & Hall1).
    { intros n Hn. apply Hlow. lia. }
    destruct (IHcs b vis1 (topo ++ new1) Hcs Hinv1) as (vis2 & new2 & Hr & Hinv2 & Hvis2 & Hnew2 & Hall2).
    { intros n Hn Hin. apply Hvis1 in Hin as [Hin | Hin].
      - apply elem_of_app. left. auto.
      - apply elem_of_app. now right. }
    exists vis2, (new1 ++ new2). rewrite app_assoc.
    split; [exact Hr|]. split; [exact Hinv2|]. split; [|split].
    + intros n. rewrite Hvis2, Hvis1, elem_of_app. tauto.
    + intros n Hn. apply elem_of_app in Hn as [Hn | Hn].
      * destruct (Hnew1 n Hn) as (c' & Hc' & Hr').
        apply list_elem_of_singleton in Hc' as ->. exists c. split; [left | exact Hr'].
      * destruct (Hnew2 n Hn) as (c' & Hc' & Hr'). exists c'. split; [now right | exact Hr'].
    + intros c' n Hc' Hr'. apply elem_of_cons in Hc' as [-> | Hc'].
      * apply elem_of_app. left. apply (Hall1 c); [left | exact Hr'].
      * eapply Hall2; eauto.
Qed.

End Fold.

Lemma build_topo_spec h (Hwf : wf h) : forall fuel v visited topo,
  v < fuel -> v < length h -> topo_inv h visited topo ->
  (forall n, n <= v -> n ∈ visited -> n ∈ topo) ->
  dfs_post h [v] visited topo (build_topo fuel h v (visited, topo))
  /\ (v ∉ visited ->
      exists visited' topo',
        build_topo fuel h v (visited, topo) = Ok (visited', topo' ++ [v])).
Proof.
  induction fuel as [|fuel IHfuel]; intros v visited topo Hfuel Hv Hinv Hlow; [lia|].
  rewrite build_topo_S. simpl fst. simpl snd.
  case_bool_decide as Hvis.
  - split; [|tauto].
    exists visited, []. rewrite app_nil_r.
    split; [reflexivity|]. split; [exact Hinv|]. split; [|split].
    + intros n. split; [now left | intros [?|Hn]; [auto | inversion Hn]].
    + intros n Hn. inversion Hn.
    + intros c n Hc Hr. apply list_elem_of_singleton in Hc as ->.
      destruct Hinv as (_ & Hcf & _).
      apply (children_first_closed h topo v n Hcf); auto.
  - destruct (lookup_lt_is_Some_2 h v Hv) as [nd Hnd]. rewrite Hnd.
    destruct Hinv as (Hnd_topo & Hcf & Hsub).
    destruct (dfs_fold_spec h fuel Hwf (fun v' vis' topo' H1 H2 H3 H4 =>
                proj1 (IHfuel v' vis' topo' H1 H2 H3 H4))
                (_prev nd) v (v :: visited) topo)
      as (vis1 & new1 & -> & (Hnd1 & Hcf1 & Hsub1) & Hvis1 & Hnew1 & Hall1).
    { apply Forall_forall. intros c Hc.
      pose proof (wf_child_lt h v nd c Hwf Hnd Hc). lia. }
    { split; [exact Hnd_topo|]. split; [exact Hcf|].
      intros n Hn. right. auto. }
    { intros n Hn Hin. apply elem_of_cons in Hin as [-> | Hin]; [lia|].
      apply Hlow; [lia | exact Hin]. }
    simpl fst. simpl snd.
    assert (Hfresh : v ∉ topo ++ new1).
    { intros Hin. apply elem_of_app in Hin as [Hin | Hin].
      - apply Hvis. auto.
      - destruct (Hnew1 v Hin) as (c & Hc & Hr).
        pose proof (wf_child_lt h v nd c Hwf Hnd Hc).
        pose proof (reach_le h c v Hwf Hr). lia. }
    split; [|intros _; eauto].
    exists vis1, (new1 ++ [v]). rewrite app_assoc.
    split; [reflexivity|]. split; [|split; [|split]].
    + split; [|split].
      * apply NoDup_app. split; [exact Hnd1|]. split; [|apply NoDup_singleton].
        intros n Hn Hn'. apply list_elem_of_singleton in Hn' as ->. auto.
      * apply children_first_app; [exact Hcf1|].
        intros i v' nd' c Hi Hnd' Hc.
        apply list_lookup_singleton_Some in Hi as [-> <-].
        rewrite Hnd in Hnd'. injection Hnd' as <-.
        simpl. rewrite app_nil_r. apply (Hall1 c c Hc). constructor.
      * intros n Hn. apply elem_of_app in Hn as [Hn | Hn]; [auto|].
        apply list_elem_of_singleton in Hn as ->. apply Hvis1. left. left.
    + intros n. rewrite Hvis1, elem_of_cons, elem_of_app, list_elem_of_singleton. tauto.
    + intros n Hn. exists v. split; [left|].
      apply elem_of_app in Hn as [Hn | Hn].
      * destruct (Hnew1 n Hn) as (c & Hc & Hr). eapply reach_step; eauto.
      * apply list_elem_of_singleton in Hn as ->. constructor.
    + intros c n Hc Hr. apply list_elem_of_singleton in Hc as ->.
      inversion Hr as [| v' nd' c w Hnd' Hc Hr']; subst.
      * apply elem_of_app. right. left.
      * rewrite Hnd in Hnd'. injection Hnd' as <-.
        apply elem_of_app. left. eapply Hall1; eauto.
Qed.

(** The traversal [backward] starts: from an empty [visited] and [topo]. *)
Lemma build_topo_root h fuel y :
  wf h -> y < length h -> y < fuel ->
  exists visited topo,
    build_topo fuel h y ([], []) = Ok (visited, topo)
    /\ NoDup topo
    /\ children_first h topo
    /\ (forall n, n ∈ topo <-> reach h y n)
    /\ (forall n, n ∈ visited <-> n ∈ topo)
    /\ last topo = Some y.
Proof.
  intros Hwf Hy Hfuel.
  destruct (build_topo_spec h Hwf fuel y [] [] Hfuel Hy) as [Hpost Hlast].
  { split; [constructor|]. split; [|auto].
    intros i v n c Hi. inversion Hi. }
  { intros n _ Hn. inversion Hn. }
  destruct Hpost as (visited & new & Hr & (Hnd & Hcf & Hsub) & Hvis & Hnew & Hall).
  simpl in *. exists visited, new.
  split; [exact Hr|]. split; [exact Hnd|]. split; [exact Hcf|].
  split; [|split].
  - intros n. split.
    + intros Hn. destruct (Hnew n Hn) as (c & Hc & Hreach).
      now apply list_elem_of_singleton in Hc as ->.
    + intros Hreach. apply (Hall y); [left | exact Hreach].
  - intros n. rewrite Hvis. split; [intros [Hn|Hn]; [inversion Hn | exact Hn] | now right].
  - destruct Hlast as (visited' & topo' & Heq); [intros Hin; inversion Hin|].
    rewrite Hr in Heq. injection Heq as _ ->. apply last_snoc.
Qed.

End Traversal.

(** ** The backward pass assigns [grad], and nothing else *)

Section Frame.

Context {num : Type}.

Implicit Types (h : list (Value num)) (v : ref) (S : ref -> Prop).

Lemma same_node_refl (n : Value num) : same_node n n.
Proof. repeat split. Qed.

Lemma same_node_trans (n1 n2 n3 : Value num) :
  same_node n1 n2 -> same_node n2 n3 -> same_node n1 n3.
Proof. unfold same_node. intros (-> & -> & -> & ->) (-> & -> & -> & ->). repeat split. Qed.

Lemma same_node_with_grad g (n : Value num) : same_node n (with_grad g n).
Proof. repeat split. Qed.

Lemma same_node_eq (n n' : Value num) : same_node n n' -> grad n' = grad n -> n' = n.
Proof.
  destruct n, n'. unfold same_node. simpl. intros (-> & -> & -> & ->) ->. reflexivity.
Qed.

Lemma frame_refl S h : frame S h h.
Proof.
  split; [|reflexivity]. apply Forall2_same_length_lookup.
  split; [reflexivity|]. intros i n n' Hn Hn'. rewrite Hn in Hn'. injection Hn' as <-.
  apply same_node_refl.
Qed.

Lemma frame_trans S h1 h2 h3 : frame S h1 h2 -> frame S h2 h3 -> frame S h1 h3.
Proof.
  intros [H12 E12] [H23 E23]. split.
  - apply Forall2_same_length_lookup. split.
    + rewrite (Forall2_length _ _ _ H12). apply (Forall2_length _ _ _ H23).
    + intros i n1 n3 Hn1 Hn3.
      destruct (Forall2_lookup_l _ _ _ _ _ H12 Hn1) as (n2 & Hn2 & Hs12).
      destruct (Forall2_lookup_l _ _ _ _ _ H23 Hn2) as (n3' & Hn3' & Hs23).
      rewrite Hn3 in Hn3'. injection Hn3' as <-.
      eapply same_node_trans; eauto.
  - intros v Hv. rewrite E23, E12; auto.
Qed.

Lemma frame_weaken S S' h h' : (forall v, S v -> S' v) -> frame S h h' -> frame S' h h'.
Proof. intros HS [H E]. split; [exact H|]. intros v Hv. apply E. auto. Qed.

Lemma frame_length S h h' : frame S h h' -> length h' = length h.
Proof. intros [H _]. symmetry. eapply Forall2_length; eauto. Qed.

Lemma frame_lookup S h h' v (n : Value num) :
  frame S h h' -> h !! v = Some n -> exists n', h' !! v = Some n' /\ same_node n n'.
Proof. intros [H _] Hn. eapply Forall2_lookup_l in H as (n' & ? & ?); eauto. Qed.

Lemma frame_lookup_r S h h' v (n' : Value num) :
  frame S h h' -> h' !! v = Some n' -> exists n, h !! v = Some n /\ same_node n n'.
Proof. intros [H _] Hn. eapply Forall2_lookup_r in H as (n & ? & ?); eauto. Qed.

Lemma frame_set_grad S h v g : S v -> frame S h (alter (with_grad g) v h).
Proof.
  intros HS. split.
  - apply Forall2_same_length_lookup. split; [now rewrite length_alter|].
    intros i n n' Hn Hn'. destruct (decide (i = v)) as [->|Hne].
    + rewrite list_lookup_alter_eq, Hn in Hn'. injection Hn' as <-.
      apply same_node_with_grad.
    + rewrite list_lookup_alter_ne, Hn in Hn' by congruence. injection Hn' as <-.
      apply same_node_refl.
  - intros u Hu. apply list_lookup_alter_ne. intros ->. auto.
Qed.

Lemma wf_frame S h h' : frame S h h' -> wf h -> wf h'.
Proof.
  intros Hf Hwf v n' Hn'.
  destruct (frame_lookup_r S h h' v n' Hf Hn') as (n & Hn & Hb & _ & Hp & _).
  destruct (Hwf v n Hn) as (H1 & H2 & H3).
  unfold node_ok. rewrite Hb, Hp. auto.
Qed.

Lemma reach_frame S h h' v w : frame S h h' -> reach h v w -> reach h' v w.
Proof.
  intros Hf Hr. induction Hr as [| v n c w Hn Hc _ IH]; [constructor|].
  destruct (frame_lookup S h h' v n Hf Hn) as (n' & Hn' & _ & _ & Hp & _).
  apply (reach_step h' v n' c w Hn'); [congruence | exact IH].
Qed.

End Frame.

Section Backward.

Context {num : Type} {arith : Arith num}.

Implicit Types (h : list (Value num)) (v : ref) (S : ref -> Prop).

Section Keeps.

(** The store [h0] the pass started from, and the nodes [S] it may
    assign to. *)
Variable h0 : list (Value num).
Variable S : ref -> Prop.

Lemma keeps_ret {A} (a : A) : keeps h0 S (ret a).
Proof. now apply hoare_ret. Qed.

Lemma keeps_bind {A B} (m : M num A) (k : A -> M num B) :
  keeps h0 S m -> (forall a, keeps h0 S (k a)) -> keeps h0 S (bind m k).
Proof. intros Hm Hk. eapply hoare_bind; [exact Hm | exact Hk]. Qed.

Lemma keeps_pow x p : keeps h0 S (lift (py_pow x p)).
Proof.
  apply hoare_lift. intros h Hf. destruct (py_pow x p) as [a|e] eqn:He; [exact Hf|].
  split; [exact Hf | now exists x, p].
Qed.

Lemma frame_valid h v : frame S h0 h -> v < length h0 -> is_Some (h !! v).
Proof.
  intros Hf Hv. apply lookup_lt_is_Some. now rewrite (frame_length S h0 h Hf).
Qed.

Lemma keeps_get_data v : v < length h0 -> keeps h0 S (get_data v).
Proof.
  intros Hv. apply hoare_get_data. intros h Hf.
  destruct (frame_valid h v Hf Hv) as [n ->]. exact Hf.
Qed.

Lemma keeps_get_grad v : v < length h0 -> keeps h0 S (get_grad v).
Proof.
  intros Hv. apply hoare_get_grad. intros h Hf.
  destruct (frame_valid h v Hf Hv) as [n ->]. exact Hf.
Qed.

Lemma keeps_set_grad v g : v < length h0 -> S v -> keeps h0 S (set_grad v g).
Proof.
  intros Hv HS. apply hoare_set_grad. intros h Hf.
  destruct (frame_valid h v Hf Hv) as [n ->].
  eapply frame_trans; [exact Hf | now apply frame_set_grad].
Qed.

Lemma keeps_iadd_grad v (rhs : M num num) :
  v < length h0 -> S v -> keeps h0 S rhs -> keeps h0 S (iadd_grad v rhs).
Proof.
  intros Hv HS Hrhs. unfold iadd_grad.
  apply keeps_bind; [now apply keeps_get_grad | intros g].
  apply keeps_bind; [exact Hrhs | intros x].
  now apply keeps_set_grad.
Qed.

Lemma keeps_call_rule (r : rule num) :
  Forall (fun t => t < length h0 /\ S t) (rule_targets r) ->
  Forall (fun o => o < length h0) (rule_out r) ->
  keeps h0 S (call_rule r).
Proof.
  intros Ht Ho.
  destruct r as [|s o out|s o out|s p out|s out|s out]; simpl in *.
  - apply keeps_ret.
  - apply Forall_cons in Ht as [[Hs HSs] Ht]. apply Forall_cons in Ht as [[Ho' HSo] _].
    apply Forall_cons in Ho as [Hout _].
    apply keeps_bind; [|intros _]; apply keeps_iadd_grad; auto using keeps_get_grad.
  - apply Forall_cons in Ht as [[Hs HSs] Ht]. apply Forall_cons in Ht as [[Ho' HSo] _].
    apply Forall_cons in Ho as [Hout _].
    apply keeps_bind; [|intros _]; apply keeps_iadd_grad; auto;
      (apply keeps_bind; [now apply keeps_get_data | intros ?]);
      (apply keeps_bind; [now apply keeps_get_grad | intros ?]);
      apply keeps_ret.
  - apply Forall_cons in Ht as [[Hs HSs] _]. apply Forall_cons in Ho as [Hout _].
    apply keeps_iadd_grad; auto.
    apply keeps_bind; [now apply keeps_get_data | intros a].
    apply keeps_bind; [apply keeps_pow | intros q].
    apply keeps_bind; [now apply keeps_get_grad | intros g].
    apply keeps_ret.
  - apply Forall_cons in Ht as [[Hs HSs] _]. apply Forall_cons in Ho as [Hout _].
    apply keeps_iadd_grad; auto.
    apply keeps_bind; [now apply keeps_get_data | intros d].
    apply keeps_bind; [now apply keeps_get_grad | intros g].
    apply keeps_ret.
  - apply Forall_cons in Ht as [[Hs HSs] _]. apply Forall_cons in Ho as [Hout _].
    apply keeps_iadd_grad; auto.
    apply keeps_bind; [now apply keeps_get_data | intros d].
    apply keeps_bind; [apply keeps_pow | intros q].
    apply keeps_bind; [now apply keeps_get_grad | intros g].
    apply keeps_ret.
Qed.

Hypothesis Hwf : wf h0.

Lemma keeps_call_backward node :
  node < length h0 ->
  (forall n c, h0 !! node = Some n -> c ∈ _prev n -> S c) ->
  keeps h0 S (call_backward node).
Proof using Hwf.
  intros Hnode HS. unfold call_backward.
  eapply hoare_bind.
  { apply hoare_get_node
      with (Q := fun n h => frame S h0 h /\ h !! node = Some n).
    intros h Hf. destruct (frame_valid h node Hf Hnode) as [n Hn].
    rewrite Hn. auto. }
  intros n h [Hf Hn].
  destruct (frame_lookup_r S h0 h node n Hf Hn) as (n0 & Hn0 & Hb & _ & _ & _).
  destruct (Hwf node n0 Hn0) as (Hlt & Htg & Hout).
  rewrite Hb. apply keeps_call_rule; [| | exact Hf].
  - rewrite Forall_forall in *. intros t Ht. specialize (Htg t Ht).
    specialize (Hlt t Htg). split; [lia | eauto].
  - eapply Forall_impl; [exact Hout|]. intros o ->. exact Hnode.
Qed.

Lemma keeps_call_all nodes :
  Forall (fun node => node < length h0 /\
            forall n c, h0 !! node = Some n -> c ∈ _prev n -> S c) nodes ->
  keeps h0 S (call_all nodes).
Proof using Hwf.
  induction nodes as [|node rest IH]; intros Hall; simpl.
  - apply keeps_ret.
  - apply Forall_cons in Hall as [[Hnode HS] Hrest].
    apply keeps_bind; [now apply keeps_call_backward | intros _; auto].
Qed.

End Keeps.

(** The whole pass: the order it walks, what it may assign to, what it
    leaves in the root, and what it can raise. *)
Lemma backward_spec h fuel y :
  wf h -> y < length h -> y < fuel ->
  exists visited topo,
    build_topo fuel h y ([], []) = Ok (visited, topo)
    /\ backward fuel y h = (run set_grad y (of_int 1) ; call_all (reverse topo)) h
    /\ match backward fuel y h with
       | (h', Ok _) =>
           frame (reach h y) h h'
           /\ exists n, h' !! y = Some n /\ grad n = of_int 1
       | (h', Raise e) => frame (reach h y) h h' /\ pow_error e
       end.
Proof.
  intros Hwf Hy Hfuel.
  destruct (build_topo_root h fuel y Hwf Hy Hfuel)
    as (visited & topo & Hr & Hnd & Hcf & Hreach & Hvis & Hlast).
  exists visited, topo. split; [exact Hr|].
  assert (Heq : backward fuel y h
                = (run set_grad y (of_int 1) ; call_all (reverse topo)) h).
  { unfold backward. now rewrite Hr. }
  split; [exact Heq|]. rewrite Heq.
  destruct (lookup_lt_is_Some_2 h y Hy) as [ny Hny].
  unfold bind at 1. unfold set_grad, bind, get_node. rewrite Hny.
  set (h1 := alter (with_grad (of_int 1)) y h).
  assert (Hf1 : frame (fun t => t = y) h h1) by now apply frame_set_grad.
  assert (Hwf1 : wf h1) by (eapply wf_frame; eauto).
  assert (Hy1 : h1 !! y = Some (with_grad (of_int 1) ny)).
  { unfold h1. now rewrite list_lookup_alter_eq, Hny. }
  pose (S' := fun t => reach h y t /\ t < y).
  assert (Hkeep : keeps h1 S' (call_all (reverse topo))).
  { apply keeps_call_all; [exact Hwf1|].
    apply Forall_forall. intros node Hnode.
    rewrite elem_of_reverse in Hnode. apply Hreach in Hnode.
    pose proof (reach_le h y node Hwf Hnode) as Hle.
    split; [rewrite (frame_length _ _ _ Hf1); lia|].
    intros n c Hn Hc.
    destruct (frame_lookup_r _ _ _ _ _ Hf1 Hn) as (n0 & Hn0 & _ & _ & Hp & _).
    rewrite Hp in Hc. split.
    - eapply reach_trans; [exact Hnode|]. eapply reach_step; [exact Hn0 | exact Hc | constructor].
    - pose proof (wf_child_lt h node n0 c Hwf Hn0 Hc). lia. }
  assert (Hweak : forall h2, frame S' h1 h2 -> frame (reach h y) h h2).
  { intros h2 Hf2. eapply frame_trans.
    - eapply frame_weaken; [|exact Hf1]. intros v ->. constructor.
    - eapply frame_weaken; [|exact Hf2]. intros v [Hv _]. exact Hv. }
  specialize (Hkeep h1 (frame_refl S' h1)).
  destruct (call_all (reverse topo) h1) as [h2 [[]|e]].
  - split; [auto|]. exists (with_grad (of_int 1) ny). split; [|reflexivity].
    destruct Hkeep as [_ Hsame]. rewrite Hsame; [exact Hy1|].
    unfold S'. lia.
  - destruct Hkeep as [Hf2 He]. auto.
Qed.

End Backward.

(** ** Assignments to [grad] leave every other field alone *)

Section Shape.

Context {num : Type} {arith : Arith num}.

Implicit Types (h : list (Value num)) (v : ref).

(** [h0]: the store before. *)
Variable h0 : list (Value num).

Lemma stays_ret {A} (a : A) : stays h0 (ret a).
Proof. now apply hoare_ret. Qed.

Lemma stays_lift {A} (o : outcome A) : stays h0 (lift o).
Proof. apply hoare_lift. intros h Hf. now destruct o. Qed.

Lemma stays_bind {A B} (m : M num A) (k : A -> M num B) :
  stays h0 m -> (forall a, stays h0 (k a)) -> stays h0 (bind m k).
Proof. intros Hm Hk. eapply hoare_bind; [exact Hm | exact Hk]. Qed.

Lemma stays_get_node v : stays h0 (get_node v).
Proof. apply hoare_get_node. intros h Hf. now destruct (h !! v). Qed.

Lemma stays_get_data v : stays h0 (get_data v).
Proof. apply hoare_get_data. intros h Hf. now destruct (h !! v). Qed.

Lemma stays_get_grad v : stays h0 (get_grad v).
Proof. apply hoare_get_grad. intros h Hf. now destruct (h !! v). Qed.

Lemma stays_set_grad v g : stays h0 (set_grad v g).
Proof.
  apply hoare_set_grad. intros h Hf. destruct (h !! v); [|exact Hf].
  eapply frame_trans; [exact Hf | now apply frame_set_grad].
Qed.

Lemma stays_iadd_grad v (rhs : M num num) : stays h0 rhs -> stays h0 (iadd_grad v rhs).
Proof.
  intros Hrhs. unfold iadd_grad.
  apply stays_bind; [apply stays_get_grad | intros g].
  apply stays_bind; [exact Hrhs | intros x]. apply stays_set_grad.
Qed.

Ltac stays_steps :=
  repeat first
    [ apply stays_ret | apply stays_lift | apply stays_get_data
    | apply stays_get_grad | apply stays_get_node | apply stays_set_grad
    | apply stays_iadd_grad | (apply stays_bind; [|intros ?]) ].

Lemma stays_call_rule (r : rule num) : stays h0 (call_rule r).
Proof. destruct r; simpl; stays_steps. Qed.

Lemma stays_call_backward node : stays h0 (call_backward node).
Proof.
  unfold call_backward. apply stays_bind; [apply stays_get_node|].
  intros n. apply stays_call_rule.
Qed.

Lemma stays_call_all nodes : stays h0 (call_all nodes).
Proof.
  induction nodes as [|node rest IH]; simpl; [apply stays_ret|].
  apply stays_bind; [apply stays_call_backward | now intros _].
Qed.

Lemma stays_zero_grad parameters : stays h0 (zero_grad parameters).
Proof.
  induction parameters as [|p rest IH]; simpl; [apply stays_ret|].
  apply stays_bind; [apply stays_set_grad | now intros _].
Qed.

Lemma stays_backward fuel y : stays h0 (backward fuel y).
Proof.
  intros h Hf. unfold backward.
  destruct (build_topo fuel h y ([], [])) as [st|e]; [|exact Hf].
  revert h Hf. apply stays_bind; [apply stays_set_grad | intros _; apply stays_call_all].
Qed.

End Shape.

Section ShapeFacts.

Context {num : Type} {arith : Arith num}.

Lemma frame_map_data (S : ref -> Prop) (h h' : list (Value num)) :
  frame S h h' -> map data h' = map data h.
Proof.
  intros [Hf _]. induction Hf as [|n n' h h' Hn _ IH]; [reflexivity|].
  simpl. destruct Hn as (_ & _ & _ & ->). now rewrite IH.
Qed.

Lemma stays_data {A} (m : M num A) (h : list (Value num)) :
  stays h m -> map data (m h).1 = map data h.
Proof.
  intros Hm. apply (frame_map_data (fun _ => True)).
  apply (hoare_state _ m _ h Hm). apply frame_refl.
Qed.

(** What [zero_grad] leaves, for parameters that exist. *)
Lemma zero_grad_spec parameters : forall h : list (Value num),
  Forall (fun p => p < length h) parameters ->
  exists h', zero_grad parameters h = (h', Ok tt)
    /\ length h' = length h
    /\ forall v, h' !! v =
         if bool_decide (v ∈ parameters)
         then with_grad (of_int 0) <$> h !! v else h !! v.
Proof.
  induction parameters as [|p rest IH]; intros h Hall.
  - exists h. simpl. split; [reflexivity|]. split; [reflexivity|].
    intros v. reflexivity.
  - apply Forall_cons in Hall as [Hp Hrest].
    destruct (lookup_lt_is_Some_2 h p Hp) as [n Hn].
    simpl. unfold bind at 1. unfold set_grad, bind, get_node. rewrite Hn.
    destruct (IH (alter (with_grad (of_int 0)) p h)) as (h' & -> & Hlen & Hlook).
    { now rewrite length_alter. }
    exists h'. split; [reflexivity|]. split; [now rewrite Hlen, length_alter|].
    intros v. rewrite Hlook. rewrite list_lookup_alter.
    destruct (decide (p = v)) as [->|Hne].
    + rewrite (bool_decide_true (v ∈ v :: rest)) by left.
      rewrite Hn. simpl. now case_bool_decide.
    + rewrite (bool_decide_ext (v ∈ p :: rest) (v ∈ rest)); [reflexivity|].
      rewrite elem_of_cons. split; [intros [->|?]; [congruence | auto] | auto].
Qed.

End ShapeFacts.

(** ** Checking [wf] on a given store *)

Section WfCheck.

Context {num : Type}.

Lemma wf_from_lookup (h : list (Value num)) : forall v0 i n,
  wf_from v0 h -> h !! i = Some n -> node_ok (v0 + i) n.
Proof.
  induction h as [|m h IH]; intros v0 i n Hwf Hi; [discriminate|].
  destruct Hwf as [Hm Hrest]. destruct i as [|i]; simpl in Hi.
  - injection Hi as <-. now rewrite Nat.add_0_r.
  - replace (v0 + S i) with (S v0 + i) by lia. eauto.
Qed.

Lemma wf_from_wf (h : list (Value num)) : wf_from 0 h -> wf h.
Proof. intros Hwf v n Hv. exact (wf_from_lookup h 0 v n Hwf Hv). Qed.

End WfCheck.

Lemma demo_graph_wf : wf demo_graph.
Proof. apply wf_from_wf. simpl. unfold node_ok. simpl. repeat constructor. Qed.

(** * Main results *)

Section BackwardResults.

Context {num : Type} {arith : Arith num}.

Implicit Types (h : list (Value num)) (y : ref).

(** C4. In a well-formed store (every node's children were created before
    it, and its closure is the one its operator installed), [y.backward()]
    with recursion depth to spare either returns, and then [y.grad] is
    [1.0] whatever it was before, or raises what a power in some closure
    raised. *)
Theorem backward_sets_root_grad h fuel y :
  wf h -> y < length h -> y < fuel ->
  match backward fuel y h with
  | (h', Ok _) => exists n, h' !! y = Some n /\ grad n = of_int 1
  | (_, Raise e) => pow_error e
  end.
Proof.
  intros Hwf Hy Hfuel.
  destruct (backward_spec h fuel y Hwf Hy Hfuel) as (visited & topo & _ & _ & Hb).
  destruct (backward fuel y h) as [h' [u|e]]; tauto.
Qed.

(** C6, amended. On a graph whose nodes still have the [grad] they were
    constructed with: after [y.backward()], setting [grad = 0] on exactly the nodes [y]
    reaches gives back the store from before the pass, so a second
    [y.backward()] ends in the very store the first one ended in. *)
Theorem backward_reset_backward h fuel y (nodes : list ref) h1 :
  wf h -> y < length h -> y < fuel ->
  fresh_grads h y ->
  (forall v, v ∈ nodes <-> reach h y v) ->
  backward fuel y h = (h1, Ok tt) ->
  zero_grad nodes h1 = (h, Ok tt)
  /\ backward fuel y (zero_grad nodes h1).1 = (h1, Ok tt).
Proof.
  intros Hwf Hy Hfuel Hfresh Hnodes Hrun.
  destruct (backward_spec h fuel y Hwf Hy Hfuel) as (visited & topo & _ & _ & Hb).
  rewrite Hrun in Hb. destruct Hb as [Hf _].
  assert (Hz : zero_grad nodes h1 = (h, Ok tt)).
  { destruct (zero_grad_spec nodes h1) as (h2 & Hz & Hlen & Hlook).
    { apply Forall_forall. intros v Hv. apply Hnodes in Hv.
      rewrite (frame_length _ _ _ Hf). eapply reach_valid; eauto. }
    rewrite Hz. f_equal. apply list_eq. intros v. rewrite Hlook.
    case_bool_decide as Hin.
    - apply Hnodes in Hin.
      pose proof (reach_valid h y v Hy Hwf Hin) as Hv.
      destruct (lookup_lt_is_Some_2 h v Hv) as [n Hn].
      destruct (frame_lookup _ _ _ _ _ Hf Hn) as (n1 & Hn1 & Hsame).
      rewrite Hn, Hn1. simpl. f_equal.
      apply same_node_eq.
      + destruct Hsame as (Hb & Ho & Hp & Hd). repeat split; simpl; congruence.
      + simpl. symmetry. eapply Hfresh; eauto.
    - destruct Hf as [_ Hsame]. apply Hsame. intros Hr. apply Hin, Hnodes, Hr. }
  split; [exact Hz|]. rewrite Hz. exact Hrun.
Qed.

End BackwardResults.

Section OperatorResults.

Context {num : Type} {arith : Arith num} {sets : SetOrder}.

Implicit Types (h : list (Value num)) (self : ref) (other : operand num).

(** C9. After a constructor or operator call, returned or raised, the
    nodes that existed before are what they were, field for field: the
    call only appends nodes.  A backward pass and a reset of [grad] change
    no [data]. *)
Theorem operators_leave_nodes_alone h :
  (forall d cs op, take (length h) (__init__ d cs op h).1 = h)
  /\ (forall self other, take (length h) (__add__ self other h).1 = h)
  /\ (forall self x, take (length h) (__radd__ self x h).1 = h)
  /\ (forall self other, take (length h) (__mul__ self other h).1 = h)
  /\ (forall self x, take (length h) (__rmul__ self x h).1 = h)
  /\ (forall self, take (length h) (__neg__ self h).1 = h)
  /\ (forall self other, take (length h) (__pow__ self other h).1 = h)
  /\ (forall self other, take (length h) (__sub__ self other h).1 = h)
  /\ (forall self x, take (length h) (__rsub__ self x h).1 = h)
  /\ (forall self other, take (length h) (__truediv__ self other h).1 = h)
  /\ (forall self x, take (length h) (__rtruediv__ self x h).1 = h)
  /\ (forall self, take (length h) (exp self h).1 = h)
  /\ (forall self, take (length h) (tanh self h).1 = h)
  /\ (forall fuel y, map data (backward fuel y h).1 = map data h)
  /\ (forall parameters, map data (zero_grad parameters h).1 = map data h).
Proof.
  repeat match goal with |- _ /\ _ => split end; intros.
  - simpl. apply take_app_length.
  - apply extends_take, op_spec_run, op_spec_add.
  - apply extends_take, op_spec_run, op_spec_add.
  - apply extends_take, op_spec_run, op_spec_mul.
  - apply extends_take, op_spec_run, op_spec_mul.
  - apply extends_take, op_spec_run, op_spec_neg.
  - apply extends_take, op_spec_run, op_spec_pow.
  - apply extends_take, op_spec_run, op_spec_sub.
  - apply extends_take, op_spec_run, op_spec_rsub.
  - apply extends_take, op_spec_run, op_spec_truediv.
  - apply extends_take, op_spec_run, op_spec_rtruediv.
  - apply extends_take, op_spec_run, op_spec_exp.
  - apply extends_take, op_spec_run, op_spec_tanh.
  - apply stays_data, stays_backward.
  - apply stays_data, stays_zero_grad.
Qed.

(** C10. [a ** b] with a node [b] raises at the type check, before
    anything is read or built: the store after is the store before. *)
Theorem pow_node_exponent_atomic h self (b : ref) :
  (__pow__ self (Node b) h).2 = Raise UnsupportedExponentType
  /\ (__pow__ self (Node b) h).1 = h
  /\ length (__pow__ self (Node b) h).1 = length h
  /\ forall v, (__pow__ self (Node b) h).1 !! v = h !! v.
Proof.
  unfold __pow__, raise. simpl.
  split; [reflexivity|]. split; [reflexivity|]. split; [reflexivity|].
  intros v. reflexivity.
Qed.

(** C3, amended. [a ** b] raises at the type check when [b] is a node.
    With a number [p] the check passes, and the call does what Python's
    [a.data ** p] does: it raises what that raises, the store untouched,
    or returns a new node holding its value, with [a] as only child. *)
Theorem pow_follows_power h self (n : Value num) :
  h !! self = Some n ->
  (forall b : ref, __pow__ self (Node b) h = (h, Raise UnsupportedExponentType))
  /\ (forall p : num,
        __pow__ self (Num p) h =
        match py_pow (data n) p with
        | Ok d =>
            (h ++ [mkValue (RPow self p (length h)) (Some "**"%string)
                     (set_iter [self]) d (of_int 0)],
             Ok (length h))
        | Raise e => (h, Raise e)
        end).
Proof.
  intros Hn. split; [reflexivity|]. intros p.
  unfold __pow__, get_data, get_node, bind, lift, ret. rewrite Hn.
  destruct (py_pow (data n) p) as [d|e]; [|reflexivity].
  unfold __init__, set_backward, get_node, bind.
  rewrite list_lookup_middle by reflexivity.
  rewrite alter_app_r_alt by lia. rewrite Nat.sub_diag. reflexivity.
Qed.

End OperatorResults.

(** ** Sets of one and of two objects *)

Section SmallSets.

Context {sets : SetOrder}.

Lemma set_iter_nil : set_iter [] = [].
Proof. apply Permutation_nil_r. apply (set_iter_perm []). Qed.

Lemma set_iter_single (a : ref) : set_iter [a] = [a].
Proof. apply Permutation_singleton_r. apply (set_iter_perm [a]). Qed.

Lemma set_iter_same (a : ref) : set_iter [a; a] = [a].
Proof.
  apply Permutation_singleton_r. rewrite (set_iter_perm [a; a]).
  simpl. case_decide as Hin; [reflexivity|]. exfalso. apply Hin. left.
Qed.

Lemma set_iter_pair (a b : ref) :
  a <> b -> set_iter [a; b] = [a; b] \/ set_iter [a; b] = [b; a].
Proof.
  intros Hab. pose proof (set_iter_perm [a; b]) as Hp. simpl in Hp.
  case_decide as Hin; [apply list_elem_of_singleton in Hin; congruence|].
  pose proof (Permutation_length Hp) as Hlen.
  destruct (set_iter [a; b]) as [|x [|y [|z l]]]; try discriminate.
  assert (Hx : x ∈ [a; b]) by (rewrite <- Hp; left).
  assert (Hy : y ∈ [a; b]) by (rewrite <- Hp; right; left).
  assert (Hnd : NoDup [x; y]).
  { rewrite Hp. repeat constructor; rewrite ?list_elem_of_singleton; auto. inversion 1. }
  apply NoDup_cons in Hnd as [Hxy _]. rewrite list_elem_of_singleton in Hxy.
  rewrite !elem_of_cons in Hx, Hy.
  destruct Hx as [->|[->|Hx]], Hy as [->|[->|Hy]];
    try (inversion Hx); try (inversion Hy); try congruence; auto.
Qed.

End SmallSets.

(** ** The end-to-end scenario, in doubles *)

Section EndToEnd.

Import PyFloat.

(** C1. With IEEE doubles, whatever libm computes and in whatever order
    the sets iterate: [a = Value(2.0)], [b = Value(-3.0)],
    [c = Value(10.0)], [e = a*b + c] give [e.data = 4.0], and
    [e.backward()] leaves [a.grad = -3.0], [b.grad = 2.0],
    [c.grad = 1.0]. *)
Theorem end_to_end_scenario
    (c_exp : float -> outcome float) (c_pow : float -> float -> outcome float)
    (sets : SetOrder) (fuel : nat) :
  exists h na nb nc ne,
    @end_to_end float (float_arith c_exp c_pow) sets 2%float (-3)%float 10%float
      (3 + fuel) [] = (h, Ok (0, 1, 2, 4))
    /\ h !! 0 = Some na /\ h !! 1 = Some nb /\ h !! 2 = Some nc /\ h !! 4 = Some ne
    /\ data ne = 4%float
    /\ grad na = (-3)%float /\ grad nb = 2%float /\ grad nc = 1%float.
Proof.
  pose proof (@set_iter_nil sets) as Hnil.
  destruct (@set_iter_pair sets 0 1) as [H01|H01]; [lia| |];
  destruct (@set_iter_pair sets 3 2) as [H32|H32]; try lia;
  destruct sets as [f Hperm]; simpl in Hnil, H01, H32;
  unfold end_to_end; unfold bind at 1;
  destruct (expression_e _ _ _ _) as [h0 r] eqn:Hc;
  vm_compute in Hc; injection Hc as <- <-;
  rewrite Hnil, H01, H32; vm_compute;
  do 5 eexists; repeat split; reflexivity.
Qed.

End EndToEnd.

(** ** [tanh], run in any arithmetic *)

Section Runs.

Context {num : Type} (arith : Arith num) (sets : SetOrder).


(** [a.tanh()] in any store. *)
Lemma tanh_run_at (h : list (Value num)) (a : ref) (na : Value num) (e t : num) :
  h !! a = Some na ->
  math_exp (py_mul (of_int 2) (data na)) = Ok e ->
  py_truediv (py_sub e (of_int 1)) (py_add e (of_int 1)) = Ok t ->
  tanh a h =
  (h ++ [mkValue (RTanh a (length h)) (Some "tanh"%string) [a] t (of_int 0)],
   Ok (length h)).
Proof.
  intros Ha He Ht.
  unfold tanh, get_data, get_node, bind, lift, ret.
  repeat (first [rewrite Ha | rewrite He | rewrite Ht]; simpl).
  unfold __init__, set_backward, get_node, bind.
  rewrite list_lookup_middle by reflexivity.
  rewrite alter_app_r_alt by lia. rewrite Nat.sub_diag.
  unfold with_backward. simpl. now rewrite set_iter_single.
Qed.


End Runs.

(** ** Doubles: a power of zero, and [tanh] at an endpoint *)

Section FloatFacts.

Import PyFloat.

(** C3, as stated, fails: [Value(0.0) ** -1] passes the type check and
    raises [ZeroDivisionError]. *)
Lemma pow_of_zero_raises :
  exists (h : list (Value float)) (self : ref) (p : float),
    is_Some (h !! self)
    /\ forall c_exp c_pow (sets : SetOrder),
         @__pow__ float (float_arith c_exp c_pow) sets self (Num p) h
         = (h, Raise ZeroDivisionError).
Proof.
  exists [mkValue RNone None [] 0%float 0%float], 0, (-1)%float.
  split; [eexists; reflexivity|]. intros c_exp c_pow sets. reflexivity.
Qed.


End FloatFacts.

(** ** The store's invariants *)

Section Invariants.

Context {num : Type} {arith : Arith num} {sets : SetOrder}.

Implicit Types (h : list (Value num)) (self : ref) (other : operand num).

Lemma all_fresh_fresh_grads h y : all_fresh h -> fresh_grads h y.
Proof.
  intros Hall v n _ Hv. unfold all_fresh in Hall.
  rewrite Forall_lookup in Hall. eauto.
Qed.

Lemma op_spec_keeps h (m : M num ref) :
  op_spec m -> wf h -> all_fresh h -> wf (m h).1 /\ all_fresh (m h).1.
Proof.
  intros Hm Hwf Hfr. destruct (op_spec_run m h Hm) as (_ & Hw & Hf). auto.
Qed.

(** X1. The leaf constructor and every operator keep the store well
    formed (children older than their parent, closures assigning to
    children only) and leave every [grad] at [0], whether they return or
    raise. *)
Theorem operators_keep_invariants h :
  wf h -> all_fresh h ->
  (forall d, wf (__init__ d [] None h).1 /\ all_fresh (__init__ d [] None h).1)
  /\ (forall self other, wf (__add__ self other h).1 /\ all_fresh (__add__ self other h).1)
  /\ (forall self other, wf (__mul__ self other h).1 /\ all_fresh (__mul__ self other h).1)
  /\ (forall self, wf (__neg__ self h).1 /\ all_fresh (__neg__ self h).1)
  /\ (forall self other, wf (__pow__ self other h).1 /\ all_fresh (__pow__ self other h).1)
  /\ (forall self other, wf (__sub__ self other h).1 /\ all_fresh (__sub__ self other h).1)
  /\ (forall self x, wf (__rsub__ self x h).1 /\ all_fresh (__rsub__ self x h).1)
  /\ (forall self other,
        wf (__truediv__ self other h).1 /\ all_fresh (__truediv__ self other h).1)
  /\ (forall self x,
        wf (__rtruediv__ self x h).1 /\ all_fresh (__rtruediv__ self x h).1)
  /\ (forall self, wf (exp self h).1 /\ all_fresh (exp self h).1)
  /\ (forall self, wf (tanh self h).1 /\ all_fresh (tanh self h).1).
Proof.
  intros Hwf Hfr.
  repeat match goal with |- _ /\ _ => split end; intros;
    try (apply op_spec_keeps; auto;
         first [ apply op_spec_add | apply op_spec_mul | apply op_spec_neg
               | apply op_spec_pow | apply op_spec_sub | apply op_spec_rsub
               | apply op_spec_truediv | apply op_spec_rtruediv
               | apply op_spec_exp | apply op_spec_tanh ]).
  pose proof (hoare_leaf h d h (extends_refl h)) as Hleaf. simpl in Hleaf.
  destruct Hleaf as [(_ & Hw & Hf) _]. auto.
Qed.

(** X2. A backward pass and a reset of [grad] change no node's children,
    closure, [_op] or [data], whether they return or raise: the store after
    them has as many nodes, each differing from what it was in [grad] at
    most.  So they keep the store well formed. *)
Theorem backward_keeps_wf h fuel y (parameters : list ref) :
  Forall2 same_node h (backward fuel y h).1
  /\ Forall2 same_node h (zero_grad parameters h).1
  /\ (wf h -> wf (backward fuel y h).1 /\ wf (zero_grad parameters h).1).
Proof.
  assert (Hb : frame (fun _ => True) h (backward fuel y h).1).
  { apply (hoare_state _ _ _ h (stays_backward h fuel y)). apply frame_refl. }
  assert (Hz : frame (fun _ => True) h (zero_grad parameters h).1).
  { apply (hoare_state _ _ _ h (stays_zero_grad h parameters)). apply frame_refl. }
  split; [apply Hb|]. split; [apply Hz|]. intros Hwf.
  split; eapply wf_frame; eauto.
Qed.

(** X3. A backward pass from [y] leaves alone every node that [y] does
    not reach. *)
Theorem backward_assigns_reachable_only h fuel y :
  wf h -> y < length h -> y < fuel ->
  forall v, ~ reach h y v -> (backward fuel y h).1 !! v = h !! v.
Proof.
  intros Hwf Hy Hfuel v Hv.
  destruct (backward_spec h fuel y Hwf Hy Hfuel) as (visited & topo & _ & _ & Hb).
  destruct (backward fuel y h) as [h' [u|e]]; destruct Hb as [[_ Hsame] _];
    simpl; auto.
Qed.

End Invariants.

(** ** Running one assignment to [grad] *)

Section Assignments.

Context {num : Type} {arith : Arith num}.

Implicit Types (k : list (Value num)) (v : ref).

Lemma get_grad_eq k v n : k !! v = Some n -> get_grad v k = (k, Ok (grad n)).
Proof. intros Hv. unfold get_grad, get_node, bind, ret. now rewrite Hv. Qed.

Lemma get_data_eq k v n : k !! v = Some n -> get_data v k = (k, Ok (data n)).
Proof. intros Hv. unfold get_data, get_node, bind, ret. now rewrite Hv. Qed.

Lemma set_grad_eq k v n g :
  k !! v = Some n -> set_grad v g k = (alter (with_grad g) v k, Ok tt).
Proof. intros Hv. unfold set_grad, get_node, bind. now rewrite Hv. Qed.

(** [v.grad += x], where computing [x] reads the store only. *)
Lemma iadd_grad_eq k v n (rhs : M num num) x :
  k !! v = Some n -> rhs k = (k, Ok x) ->
  iadd_grad v rhs k = (alter (with_grad (py_add (grad n) x)) v k, Ok tt).
Proof.
  intros Hv Hrhs. unfold iadd_grad, bind. rewrite (get_grad_eq k v n Hv), Hrhs.
  now apply (set_grad_eq k v n).
Qed.

Lemma iadd_grad_raise k v n (rhs : M num num) e :
  k !! v = Some n -> rhs k = (k, Raise e) -> iadd_grad v rhs k = (k, Raise e).
Proof.
  intros Hv Hrhs. unfold iadd_grad, bind. now rewrite (get_grad_eq k v n Hv), Hrhs.
Qed.

Lemma bind_eq {A B} (m : M num A) (f : A -> M num B) k k1 a :
  m k = (k1, Ok a) -> bind m f k = f a k1.
Proof. intros Hm. unfold bind. now rewrite Hm. Qed.

Lemma bind_raise {A B} (m : M num A) (f : A -> M num B) k k1 e :
  m k = (k1, Raise e) -> bind m f k = (k1, Raise e).
Proof. intros Hm. unfold bind. now rewrite Hm. Qed.

End Assignments.

(** ** The walk of the backward pass: what each closure adds *)

Section Accumulate.

Context {num : Type} {arith : Arith num}.

Implicit Types (h k : list (Value num)) (p v : ref).

Lemma grad_of_lookup k v n : k !! v = Some n -> grad_of k v = grad n.
Proof. intros Hv. unfold grad_of. now rewrite Hv. Qed.

Lemma data_of_lookup k v n : k !! v = Some n -> data_of k v = data n.
Proof. intros Hv. unfold data_of. now rewrite Hv. Qed.

Lemma grad_of_alter k v u g n :
  k !! u = Some n ->
  grad_of (alter (with_grad g) u k) v = if decide (v = u) then g else grad_of k v.
Proof.
  intros Hu. unfold grad_of. rewrite list_lookup_alter.
  destruct (decide (u = v)) as [->|Hne].
  - rewrite decide_True by reflexivity. now rewrite Hu.
  - rewrite decide_False by congruence. reflexivity.
Qed.

Lemma data_of_alter k v u g : data_of (alter (with_grad g) u k) v = data_of k v.
Proof.
  unfold data_of. rewrite list_lookup_alter.
  destruct (decide (u = v)) as [->|Hne]; [|reflexivity]. now destruct (k !! v).
Qed.

Lemma lookup_alter_grad k v u g n :
  k !! v = Some n ->
  alter (with_grad g) u k !! v = Some (if decide (v = u) then with_grad g n else n).
Proof.
  intros Hv. rewrite list_lookup_alter. destruct (decide (u = v)) as [->|Hne].
  - rewrite decide_True by reflexivity. now rewrite Hv.
  - rewrite decide_False by congruence. exact Hv.
Qed.

(** The right-hand sides of the closures read the store only. *)
Lemma read_grad k p n : k !! p = Some n -> get_grad p k = (k, Ok (grad_of k p)).
Proof. intros Hp. rewrite (get_grad_eq k p n Hp). now rewrite (grad_of_lookup k p n). Qed.

Lemma read_data_grad k (u p : ref) (nu n : Value num) (f : num -> num -> num) :
  k !! u = Some nu -> k !! p = Some n ->
  (do d <- get_data u ; do g <- get_grad p ; ret (f d g)) k
  = (k, Ok (f (data_of k u) (grad_of k p))).
Proof.
  intros Hu Hp. unfold bind.
  rewrite (get_data_eq k u nu Hu), (get_grad_eq k p n Hp).
  now rewrite (data_of_lookup k u nu), (grad_of_lookup k p n).
Qed.

Lemma read_data_pow_grad k (u p : ref) (nu n : Value num) (y : num)
    (f : num -> num -> num) :
  k !! u = Some nu -> k !! p = Some n ->
  (do d <- get_data u ; do s <- lift (py_pow d y) ; do g <- get_grad p ; ret (f s g)) k
  = match py_pow (data_of k u) y with
    | Ok s => (k, Ok (f s (grad_of k p)))
    | Raise e => (k, Raise e)
    end.
Proof.
  intros Hu Hp. unfold bind, lift. rewrite (get_data_eq k u nu Hu). simpl.
  rewrite (data_of_lookup k u nu Hu).
  destruct (py_pow (data nu) y); [|reflexivity].
  rewrite (get_grad_eq k p n Hp). now rewrite (grad_of_lookup k p n).
Qed.

(** [v.grad += x] *)
Lemma iadd_grad_of k v n (rhs : M num num) x :
  k !! v = Some n -> rhs k = (k, Ok x) ->
  iadd_grad v rhs k = (alter (with_grad (py_add (grad_of k v) x)) v k, Ok tt).
Proof.
  intros Hv Hrhs. rewrite (iadd_grad_eq k v n rhs x Hv Hrhs).
  now rewrite (grad_of_lookup k v n).
Qed.

(** A closure with one [+=]. *)
Lemma one_amount k s ns (rhs : M num num) x :
  k !! s = Some ns -> rhs k = (k, Ok x) ->
  exists k',
    iadd_grad s rhs k = (k', Ok tt)
    /\ forall v, grad_of k' v = accumulate (grad_of k v) (amounts_to v [(s, x)]).
Proof.
  intros Hs Hrhs. eexists. split; [apply (iadd_grad_of k s ns rhs x Hs Hrhs)|].
  intros v. rewrite (grad_of_alter k v s _ ns Hs). unfold amounts_to. simpl.
  destruct (decide (v = s)) as [->|Hne].
  - now rewrite decide_True by reflexivity.
  - now rewrite decide_False by congruence.
Qed.

(** A closure with two, whose right-hand sides do not read what the first
    assigned. *)
Lemma two_amounts k s o ns no (rhs1 rhs2 : M num num) x1 x2 :
  k !! s = Some ns -> k !! o = Some no ->
  rhs1 k = (k, Ok x1) ->
  rhs2 (alter (with_grad (py_add (grad_of k s) x1)) s k)
  = (alter (with_grad (py_add (grad_of k s) x1)) s k, Ok x2) ->
  exists k',
    (run iadd_grad s rhs1 ; iadd_grad o rhs2) k = (k', Ok tt)
    /\ forall v,
         grad_of k' v = accumulate (grad_of k v) (amounts_to v [(s, x1); (o, x2)]).
Proof.
  intros Hs Ho Hrhs1 Hrhs2.
  set (k1 := alter (with_grad (py_add (grad_of k s) x1)) s k) in *.
  pose proof (lookup_alter_grad k o s (py_add (grad_of k s) x1) no Ho) as Ho1.
  fold k1 in Ho1.
  eexists. split.
  - rewrite (bind_eq _ _ k k1 tt) by apply (iadd_grad_of k s ns rhs1 x1 Hs Hrhs1).
    apply (iadd_grad_of k1 o _ rhs2 x2 Ho1 Hrhs2).
  - intros v. rewrite (grad_of_alter k1 v o _ _ Ho1). unfold amounts_to. simpl.
    unfold k1 at 2. rewrite (grad_of_alter k v s _ ns Hs).
    unfold k1. rewrite (grad_of_alter k o s _ ns Hs).
    destruct (decide (v = s)) as [Hvs|Hvs]; destruct (decide (v = o)) as [Hvo|Hvo];
      subst; repeat case_decide; try congruence; reflexivity.
Qed.

(** One closure call: it adds its amounts, in their order, or raises and
    leaves the store as it was. *)
Lemma call_backward_amounts k p n :
  wf k -> k !! p = Some n ->
  match rule_amounts k (_backward n) with
  | Ok l =>
      exists k',
        call_backward p k = (k', Ok tt)
        /\ forall v, grad_of k' v = accumulate (grad_of k v) (amounts_to v l)
  | Raise e => call_backward p k = (k, Raise e)
  end.
Proof.
  intros Hwf Hn.
  destruct (Hwf p n Hn) as (Hlt & Htg & Hout).
  pose proof (lookup_lt_Some _ _ _ Hn) as Hplt.
  rewrite Forall_forall in Hlt.
  assert (Hcall : call_backward p k = call_rule (_backward n) k).
  { unfold call_backward.
    now rewrite (bind_eq _ _ k k n) by (unfold get_node; now rewrite Hn). }
  rewrite Hcall. clear Hcall.
  destruct (_backward n) as [|s o out|s o out|s q out|s out|s out] eqn:Hr;
    simpl in Htg, Hout; unfold call_rule, rule_amounts.
  - exists k. split; [reflexivity|]. intros v. reflexivity.
  - apply Forall_cons in Htg as [Hs Htg]. apply Forall_cons in Htg as [Ho _].
    apply Forall_cons in Hout as [-> _].
    pose proof (Hlt s Hs) as Hsp. pose proof (Hlt o Ho) as Hop.
    destruct (lookup_lt_is_Some_2 k s) as [ns Hns]; [lia|].
    destruct (lookup_lt_is_Some_2 k o) as [no Hno]; [lia|].
    apply (two_amounts k s o ns no (get_grad p) (get_grad p) (grad_of k p) (grad_of k p)
             Hns Hno); [now apply (read_grad k p n)|].
    pose proof (lookup_alter_grad k p s (py_add (grad_of k s) (grad_of k p)) n Hn) as Hn1.
    rewrite decide_False in Hn1 by lia.
    rewrite (read_grad _ p n Hn1). do 2 f_equal.
    rewrite (grad_of_alter k p s _ ns Hns). now rewrite decide_False by lia.
  - apply Forall_cons in Htg as [Hs Htg]. apply Forall_cons in Htg as [Ho _].
    apply Forall_cons in Hout as [-> _].
    pose proof (Hlt s Hs) as Hsp. pose proof (Hlt o Ho) as Hop.
    destruct (lookup_lt_is_Some_2 k s) as [ns Hns]; [lia|].
    destruct (lookup_lt_is_Some_2 k o) as [no Hno]; [lia|].
    set (g1 := py_add (grad_of k s) (py_mul (data_of k o) (grad_of k p))).
    apply (two_amounts k s o ns no _ _ (py_mul (data_of k o) (grad_of k p))
             (py_mul (data_of k s) (grad_of k p)) Hns Hno);
      [now apply (read_data_grad k o p no n)|]. fold g1.
    pose proof (lookup_alter_grad k p s g1 n Hn) as Hn1.
    rewrite decide_False in Hn1 by lia.
    pose proof (lookup_alter_grad k s s g1 ns Hns) as Hns1.
    rewrite (read_data_grad _ s p _ n py_mul Hns1 Hn1). do 2 f_equal.
    rewrite data_of_alter. f_equal.
    rewrite (grad_of_alter k p s _ ns Hns). now rewrite decide_False by lia.
  - apply Forall_cons in Htg as [Hs _]. apply Forall_cons in Hout as [-> _].
    pose proof (Hlt s Hs) as Hsp.
    destruct (lookup_lt_is_Some_2 k s) as [ns Hns]; [lia|].
    pose proof (read_data_pow_grad k s p ns n (py_sub q (of_int 1))
                  (fun d g => py_mul (py_mul q d) g) Hns Hn) as Hrhs.
    destruct (py_pow (data_of k s) (py_sub q (of_int 1))) as [d|e].
    + now apply (one_amount k s ns _ _ Hns Hrhs).
    + now apply (iadd_grad_raise k s ns _ _ Hns Hrhs).
  - apply Forall_cons in Htg as [Hs _]. apply Forall_cons in Hout as [-> _].
    pose proof (Hlt s Hs) as Hsp.
    destruct (lookup_lt_is_Some_2 k s) as [ns Hns]; [lia|].
    apply (one_amount k s ns _ (py_mul (data_of k p) (grad_of k p)) Hns).
    now apply (read_data_grad k p p n n).
  - apply Forall_cons in Htg as [Hs _]. apply Forall_cons in Hout as [-> _].
    pose proof (Hlt s Hs) as Hsp.
    destruct (lookup_lt_is_Some_2 k s) as [ns Hns]; [lia|].
    pose proof (read_data_pow_grad k p p n n (of_int 2)
                  (fun d g => py_mul (py_sub (of_int 1) d) g) Hn Hn) as Hrhs.
    destruct (py_pow (data_of k p) (of_int 2)) as [d|e].
    + now apply (one_amount k s ns _ _ Hns Hrhs).
    + now apply (iadd_grad_raise k s ns _ _ Hns Hrhs).
Qed.

Lemma accumulate_app (g : num) (l1 l2 : list num) :
  accumulate g (l1 ++ l2) = accumulate (accumulate g l1) l2.
Proof. apply fold_left_app. Qed.

Lemma rule_amounts_targets k (r : rule num) l :
  rule_amounts k r = Ok l -> Forall (fun tx => tx.1 ∈ rule_targets r) l.
Proof.
  destruct r as [|s o out|s o out|s q out|s out|s out]; simpl; intros Hl.
  - injection Hl as <-. constructor.
  - injection Hl as <-. repeat constructor.
  - injection Hl as <-. repeat constructor.
  - destruct (py_pow _ _); [|discriminate]. injection Hl as <-. repeat constructor.
  - injection Hl as <-. repeat constructor.
  - destruct (py_pow _ _); [|discriminate]. injection Hl as <-. repeat constructor.
Qed.

Lemma amounts_to_nil v (l : list (ref * num)) :
  Forall (fun tx => tx.1 <> v) l -> amounts_to v l = [].
Proof.
  induction 1 as [|tx l Hne _ IH]; [reflexivity|].
  unfold amounts_to in *. simpl.
  destruct (decide (tx.1 = v)); [contradiction | exact IH].
Qed.

(** A closure adds nothing to a node that is no child of its node. *)
Lemma amounts_nonchild k q nq v l :
  wf k -> k !! q = Some nq -> v ∉ _prev nq ->
  rule_amounts k (_backward nq) = Ok l -> amounts_to v l = [].
Proof.
  intros Hwf Hq Hv Hl. apply amounts_to_nil.
  destruct (Hwf q nq Hq) as (_ & Htg & _). rewrite Forall_forall in Htg.
  pose proof (rule_amounts_targets k _ l Hl) as Hin.
  eapply Forall_impl; [exact Hin|]. simpl. intros tx Htx Heq.
  apply Hv, Htg. now rewrite <- Heq.
Qed.

Lemma data_of_frame S h k v : frame S h k -> data_of k v = data_of h v.
Proof.
  intros Hf. unfold data_of. destruct (h !! v) as [n|] eqn:Hn.
  - destruct (frame_lookup S h k v n Hf Hn) as (n' & -> & _ & _ & _ & Hd). exact Hd.
  - rewrite lookup_ge_None_2; [reflexivity|].
    rewrite (frame_length S h k Hf). now apply lookup_ge_None_1.
Qed.

(** What a closure adds depends on the [data] of the store and on the
    [grad] of its own node. *)
Lemma node_amounts_frame S h k k' p :
  wf h -> frame S h k -> frame S h k' -> grad_of k' p = grad_of k p ->
  node_amounts k' p = node_amounts k p.
Proof.
  intros Hwf Hf Hf' Hg. unfold node_amounts. destruct (h !! p) as [n|] eqn:Hn.
  - destruct (frame_lookup S h k p n Hf Hn) as (n1 & -> & Hb1 & _ & _ & _).
    destruct (frame_lookup S h k' p n Hf' Hn) as (n2 & -> & Hb2 & _ & _ & _).
    rewrite Hb1, Hb2. destruct (Hwf p n Hn) as (_ & _ & Hout).
    assert (Hd : forall v, data_of k' v = data_of k v).
    { intros v. now rewrite (data_of_frame S h k'), (data_of_frame S h k). }
    destruct (_backward n) as [|s o out|s o out|s q out|s out|s out]; simpl in *;
      try reflexivity; apply Forall_cons in Hout as [-> _]; now rewrite ?Hd, Hg.
  - rewrite !lookup_ge_None_2; [reflexivity| |].
    + rewrite (frame_length S h k Hf). now apply lookup_ge_None_1.
    + rewrite (frame_length S h k' Hf'). now apply lookup_ge_None_1.
Qed.

(** Closures of nodes that do not have [v] as a child give [v] nothing. *)
Lemma received_nonchild S h k (nodes : list ref) v :
  wf h -> frame S h k ->
  (forall q nq, q ∈ nodes -> h !! q = Some nq -> v ∉ _prev nq) ->
  received k nodes v = [].
Proof.
  intros Hwf Hf Hv. assert (Hwfk : wf k) by (eapply wf_frame; eauto).
  induction nodes as [|q rest IH]; [reflexivity|].
  unfold received in *. simpl. rewrite IH.
  2:{ intros q' nq' Hq'. apply Hv. now right. }
  rewrite app_nil_r. unfold node_amounts.
  destruct (k !! q) as [nq|] eqn:Hq; [|reflexivity].
  destruct (rule_amounts k (_backward nq)) as [l|e] eqn:Hl; [|reflexivity].
  apply (amounts_nonchild k q nq v l Hwfk Hq); [|exact Hl].
  destruct (frame_lookup_r S h k q nq Hf Hq) as (n0 & Hn0 & _ & _ & Hp & _).
  rewrite Hp. apply (Hv q n0); [left | exact Hn0].
Qed.

(** The walk: after the closures of [nodes] were called in this order, each
    [grad] has received, in this order, what the closures that ran add at
    the [grad] their nodes end with; a closure that raises ends the walk. *)
Lemma call_all_accumulates h (Hwf : wf h) nodes : forall k k' o,
  frame (fun _ => True) h k ->
  parents_first h nodes ->
  call_all nodes k = (k', o) ->
  frame (fun _ => True) h k'
  /\ exists done,
       (forall v, grad_of k' v = accumulate (grad_of k v) (received k' done v))
       /\ (forall p, p ∈ done -> p ∈ nodes /\ exists l, node_amounts k' p = Ok l)
       /\ match o with
          | Ok _ => done = nodes
          | Raise e =>
              exists p rest, nodes = done ++ p :: rest /\ node_amounts k' p = Raise e
          end.
Proof.
  induction nodes as [|p rest IH]; intros k k' o Hf Hord Hrun; simpl in Hrun.
  - injection Hrun as <- <-. split; [exact Hf|]. exists [].
    split; [reflexivity|]. split; [|reflexivity]. intros p Hp. inversion Hp.
  - destruct Hord as [Hp Hrest].
    assert (Hwfk : wf k) by (eapply wf_frame; eauto).
    destruct (k !! p) as [n|] eqn:Hn.
    2:{ assert (Hcall : call_backward p k = (k, Raise DanglingRef)).
        { unfold call_backward, bind, get_node. now rewrite Hn. }
        rewrite (bind_raise _ _ _ _ _ Hcall) in Hrun. injection Hrun as <- <-.
        split; [exact Hf|]. exists []. split; [reflexivity|].
        split; [intros q Hq; inversion Hq|].
        exists p, rest. split; [reflexivity|]. unfold node_amounts. now rewrite Hn. }
    pose proof (call_backward_amounts k p n Hwfk Hn) as Hstep.
    assert (Hnode : node_amounts k p = rule_amounts k (_backward n))
      by (unfold node_amounts; now rewrite Hn).
    destruct (rule_amounts k (_backward n)) as [l|e] eqn:Hl.
    2:{ rewrite (bind_raise _ _ _ _ _ Hstep) in Hrun. injection Hrun as <- <-.
        split; [exact Hf|]. exists []. split; [reflexivity|].
        split; [intros q Hq; inversion Hq|].
        exists p, rest. split; [reflexivity | exact Hnode]. }
    destruct Hstep as (k1 & Hcall & Hgrow).
    rewrite (bind_eq _ _ _ _ _ Hcall) in Hrun.
    assert (Hf1 : frame (fun _ => True) h k1).
    { pose proof (stays_call_backward h p k Hf) as Hs. now rewrite Hcall in Hs. }
    destruct (IH k1 k' o Hf1 Hrest Hrun) as (Hf' & done & Hsum & Hdone & Htail).
    split; [exact Hf'|]. exists (p :: done).
    destruct (frame_lookup_r _ h k p n Hf Hn) as (n0 & Hn0 & _ & _ & Hprev & _).
    assert (Hpp : grad_of k' p = grad_of k p).
    { rewrite Hsum, Hgrow.
      rewrite (amounts_nonchild k p n p l Hwfk Hn); [|rewrite Hprev|exact Hl].
      2:{ apply (Hp p n0); [left | exact Hn0]. }
      rewrite (received_nonchild _ h k' done p Hwf Hf'); [reflexivity|].
      intros q nq Hq. apply Hp. right. now apply Hdone. }
    assert (Hsame : node_amounts k' p = Ok l).
    { rewrite (node_amounts_frame _ h k k' p Hwf Hf Hf' Hpp). exact Hnode. }
    split; [|split].
    + intros v. unfold received. simpl. rewrite Hsame.
      rewrite accumulate_app, <- Hgrow. apply Hsum.
    + intros q Hq. apply elem_of_cons in Hq as [->|Hq].
      * split; [left | now exists l].
      * destruct (Hdone q Hq) as [Hin Hok]. split; [now right | exact Hok].
    + destruct o as [u|e]; [now rewrite Htail|].
      destruct Htail as (p' & rest' & -> & Hraise).
      exists p', rest'. split; [reflexivity | exact Hraise].
Qed.

(** [topo] reversed is in that order. *)
Lemma parents_first_reverse h (l : list ref) :
  NoDup l -> children_first h l -> parents_first h (reverse l).
Proof.
  induction l as [|x l IH] using rev_ind; intros Hnd Hcf; [exact I|].
  rewrite reverse_snoc. simpl.
  apply NoDup_app in Hnd as (Hndl & Hx & _).
  split.
  - intros q nq Hq Hnq Hc.
    assert (Hql : q ∈ l ++ [x]).
    { apply elem_of_cons in Hq as [->|Hq]; apply elem_of_app;
        [right; left | left; now apply elem_of_reverse]. }
    apply list_elem_of_lookup in Hql as [i Hi].
    destruct (Hcf i q nq x Hi Hnq Hc) as (j & Hji & Hj).
    pose proof (lookup_lt_Some _ _ _ Hi) as Hilt. rewrite length_app in Hilt. simpl in Hilt.
    rewrite lookup_app_l in Hj by lia.
    apply (Hx x); [eapply list_elem_of_lookup_2; eauto | left].
  - apply IH; [exact Hndl|].
    intros i v n c Hi Hn Hc.
    destruct (Hcf i v n c) as (j & Hji & Hj); auto.
    { now apply lookup_app_l_Some. }
    exists j. split; [exact Hji|].
    pose proof (lookup_lt_Some _ _ _ Hi). rewrite lookup_app_l in Hj by lia. exact Hj.
Qed.

(** The whole pass. *)
Lemma backward_accumulates h fuel y :
  wf h -> y < length h -> y < fuel ->
  exists visited topo,
    build_topo fuel h y ([], []) = Ok (visited, topo)
    /\ NoDup topo
    /\ children_first h topo
    /\ (forall v, v ∈ topo <-> reach h y v)
    /\ (forall v, v ∈ visited <-> v ∈ topo)
    /\ last topo = Some y
    /\ exists done,
         (forall v,
            grad_of (backward fuel y h).1 v
            = accumulate (if decide (v = y) then of_int 1 else grad_of h v)
                (received (backward fuel y h).1 done v))
         /\ (forall p, p ∈ done -> exists l, node_amounts (backward fuel y h).1 p = Ok l)
         /\ match (backward fuel y h).2 with
            | Ok _ => done = reverse topo
            | Raise e =>
                exists p rest,
                  reverse topo = done ++ p :: rest
                  /\ node_amounts (backward fuel y h).1 p = Raise e
            end.
Proof.
  intros Hwf Hy Hfuel.
  destruct (build_topo_root h fuel y Hwf Hy Hfuel)
    as (visited & topo & Hr & Hnd & Hcf & Hreach & Hvis & Hlast).
  exists visited, topo. repeat (split; [assumption|]).
  destruct (lookup_lt_is_Some_2 h y Hy) as [ny Hny].
  assert (Heq : backward fuel y h
                = call_all (reverse topo) (alter (with_grad (of_int 1)) y h)).
  { unfold backward. rewrite Hr. simpl.
    now rewrite (bind_eq _ _ _ _ _ (set_grad_eq h y ny (of_int 1) Hny)). }
  destruct (backward fuel y h) as [h' o] eqn:Hrun. symmetry in Heq.
  destruct (call_all_accumulates h Hwf (reverse topo)
              (alter (with_grad (of_int 1)) y h) h' o)
    as (_ & done & Hsum & Hdone & Htail);
    [now apply frame_set_grad | now apply parents_first_reverse | exact Heq |].
  exists done. simpl. split; [|split; [|exact Htail]].
  - intros v. rewrite Hsum. now rewrite (grad_of_alter h v y _ ny Hny).
  - intros p Hp. now apply Hdone.
Qed.

End Accumulate.

Section WalkResults.

Context {num : Type} {arith : Arith num}.

Implicit Types (h : list (Value num)) (y : ref).


(** A node [m] that is a child of the root only: its [grad] after the pass
    is what it was plus what the root's closure adds to it. *)
Lemma sole_parent_grad h fuel y m (ny : Value num) h' :
  wf h -> y < fuel -> h !! y = Some ny -> m ∈ _prev ny ->
  (forall q nq, q <> y -> h !! q = Some nq -> m ∉ _prev nq) ->
  backward fuel y h = (h', Ok tt) ->
  grad_of h' y = of_int 1
  /\ exists l,
       node_amounts h' y = Ok l
       /\ grad_of h' m = accumulate (grad_of h m) (amounts_to m l).
Proof.
  intros Hwf Hfuel Hy Hm Hsole Hrun.
  assert (Hlt : y < length h) by (eapply lookup_lt_Some; eauto).
  destruct (backward_accumulates h fuel y Hwf Hlt Hfuel)
    as (visited & topo & _ & Hnd & _ & _ & _ & Hlast & done & Hsum & Hok & Htail).
  destruct (backward_spec h fuel y Hwf Hlt Hfuel) as (_ & _ & _ & _ & Hb).
  rewrite Hrun in Hsum, Hok, Htail, Hb. simpl in Hsum, Hok, Htail.
  subst done. destruct Hb as [Hf (n & Hn & Hg)].
  apply last_Some in Hlast as [topo' ->]. rewrite reverse_snoc in Hsum, Hok.
  apply NoDup_app in Hnd as (_ & Hny & _).
  assert (Hrest : received h' (reverse topo') m = []).
  { apply (received_nonchild (reach h y) h h'); [exact Hwf | exact Hf |].
    intros q nq Hq Hnq. apply (Hsole q nq); [|exact Hnq]. intros ->.
    rewrite elem_of_reverse in Hq. apply (Hny y Hq). left. }
  split.
  - unfold grad_of. now rewrite Hn.
  - destruct (Hok y) as [l Hl]; [left|]. exists l. split; [exact Hl|].
    rewrite (Hsum m). rewrite decide_False.
    2:{ intros ->. pose proof (wf_child_lt h y ny y Hwf Hy Hm). lia. }
    unfold received in *. simpl. now rewrite Hl, Hrest, app_nil_r.
Qed.

(** X4. The chain rule, as the pass computes it.  When [y.backward()]
    returns in a well-formed store, every closure along the walk returned,
    and each [v.grad] is what it was before ([1] for [y] itself) plus the
    amounts the closures of the nodes that [y] reaches add to [v], added
    from left to right in the order of the walk; the amount of a node [p]
    is its local derivative times the [grad] that [p] ends with. *)
Theorem backward_chain_rule h fuel y h' :
  wf h -> y < length h -> y < fuel ->
  backward fuel y h = (h', Ok tt) ->
  exists topo,
    NoDup topo
    /\ (forall v, v ∈ topo <-> reach h y v)
    /\ children_first h topo
    /\ (forall p, p ∈ topo -> exists l, node_amounts h' p = Ok l)
    /\ forall v,
         grad_of h' v
         = accumulate (if decide (v = y) then of_int 1 else grad_of h v)
             (received h' (reverse topo) v).
Proof.
  intros Hwf Hy Hfuel Hrun.
  destruct (backward_accumulates h fuel y Hwf Hy Hfuel)
    as (visited & topo & _ & Hnd & Hcf & Hreach & _ & _ & done & Hsum & Hok & Htail).
  rewrite Hrun in Hsum, Hok, Htail. simpl in Hsum, Hok, Htail. subst done.
  exists topo. split; [exact Hnd|]. split; [exact Hreach|]. split; [exact Hcf|].
  split; [|exact Hsum]. intros p Hp. apply Hok. now apply elem_of_reverse.
Qed.

End WalkResults.


(** ** Doubles: the range of [math.exp], and zero divisors *)

Section FloatRanges.

Import PyFloat.

Lemma SFeqb_refl (X : spec_float) : X <> S754_nan -> SFeqb X X = true.
Proof.
  destruct X as [s|s| |s m e]; intros HX; try congruence.
  - reflexivity.
  - now destruct s.
  - unfold SFeqb, SFcompare. rewrite Z.compare_refl.
    change (PosDef.Pos.compare_cont Eq m m) with (Pos.compare m m).
    rewrite Pos.compare_refl. now destruct s.
Qed.

Lemma ltb_not_nan (x y : float) : (x <? y)%float = true -> is_nan x = false.
Proof.
  unfold is_nan. rewrite FloatAxioms.ltb_spec, FloatAxioms.eqb_spec. intros Hlt.
  rewrite SFeqb_refl; [reflexivity|].
  intros HX. rewrite HX in Hlt. discriminate.
Qed.

(** From [710] upwards a double is no NaN and is not below [-746]. *)
Lemma leb_710 (x : float) :
  (710 <=? x)%float = true -> is_nan x = false /\ (x <? -746)%float = false.
Proof.
  unfold is_nan. rewrite FloatAxioms.leb_spec, FloatAxioms.ltb_spec, FloatAxioms.eqb_spec.
  set (c := Prim2SF 710). vm_compute in c. subst c.
  set (d := Prim2SF (-746)). vm_compute in d. subst d.
  intros Hle. split.
  - rewrite SFeqb_refl; [reflexivity|]. intros HX. rewrite HX in Hle. discriminate.
  - destruct (Prim2SF x) as [s|s| |s m e]; try destruct s; try discriminate;
      reflexivity.
Qed.

Lemma float_exp_overflow c_exp (x : float) :
  (710 <=? x)%float = true -> is_infinity x = false ->
  float_exp c_exp x = Raise OverflowError.
Proof.
  intros Hle Hfin. destruct (leb_710 x Hle) as [Hnan Hlt].
  unfold float_exp. now rewrite Hnan, Hlt, Hle, Hfin.
Qed.

Lemma float_exp_infinite c_exp (x : float) :
  (710 <=? x)%float = true -> is_infinity x = true ->
  float_exp c_exp x = Ok infinity.
Proof.
  intros Hle Hinf. destruct (leb_710 x Hle) as [Hnan Hlt].
  unfold float_exp. now rewrite Hnan, Hlt, Hle, Hinf.
Qed.

Lemma float_exp_underflow c_exp (x : float) :
  (x <? -746)%float = true -> float_exp c_exp x = Ok 0%float.
Proof.
  intros Hlt. unfold float_exp. now rewrite (ltb_not_nan x _ Hlt), Hlt.
Qed.

End FloatRanges.

Section FloatResults.

Import PyFloat.

Context (c_exp : float -> outcome float) (c_pow : float -> float -> outcome float).
Context (sets : SetOrder).

Implicit Types (h : list (Value float)) (a b : ref).

(** X5. In doubles, [a.exp()] raises [OverflowError] whenever [a.data] is
    finite and at least [710], and [a.tanh()] whenever [2 * a.data] is: the
    call adds no node and changes none. *)
Theorem exp_tanh_overflow h a (na : Value float) :
  h !! a = Some na ->
  ((710 <=? data na)%float = true -> is_infinity (data na) = false ->
   @exp float (float_arith c_exp c_pow) sets a h = (h, Raise OverflowError))
  /\ ((710 <=? 2 * data na)%float = true -> is_infinity (2 * data na) = false ->
      @tanh float (float_arith c_exp c_pow) sets a h = (h, Raise OverflowError)).
Proof.
  intros Ha. split; intros Hle Hfin.
  - unfold exp, get_data, get_node, bind, lift, ret. rewrite Ha. simpl.
    now rewrite (float_exp_overflow c_exp _ Hle Hfin).
  - unfold tanh, get_data, get_node, bind, lift, ret. rewrite Ha. simpl.
    change (float_of_int 2) with 2%float.
    now rewrite (float_exp_overflow c_exp _ Hle Hfin).
Qed.

(** X6. In doubles, [a.tanh()] holds exactly [-1.0] whenever [2 * a.data] is
    below [-746], where [math.exp] gives [0.0]; and it holds [NaN] whenever
    [2 * a.data] is [inf], as for [a.data] of [inf] or [1e308], where
    [math.exp] gives [inf]. *)
Theorem tanh_saturates h a (na : Value float) :
  h !! a = Some na ->
  ((2 * data na <? -746)%float = true ->
   @tanh float (float_arith c_exp c_pow) sets a h
   = (h ++ [mkValue (RTanh a (length h)) (Some "tanh"%string) [a] (-1)%float 0%float],
      Ok (length h)))
  /\ ((710 <=? 2 * data na)%float = true -> is_infinity (2 * data na) = true ->
      @tanh float (float_arith c_exp c_pow) sets a h
      = (h ++ [mkValue (RTanh a (length h)) (Some "tanh"%string) [a] nan 0%float],
         Ok (length h))).
Proof.
  intros Ha. split.
  - intros Hlt.
    rewrite (tanh_run_at (float_arith c_exp c_pow) sets h a na 0%float (-1)%float Ha).
    + reflexivity.
    + simpl. change (float_of_int 2) with 2%float.
      now apply float_exp_underflow.
    + reflexivity.
  - intros Hle Hinf.
    rewrite (tanh_run_at (float_arith c_exp c_pow) sets h a na infinity nan Ha).
    + reflexivity.
    + simpl. change (float_of_int 2) with 2%float.
      now apply float_exp_infinite.
    + reflexivity.
Qed.

(** X7. In doubles, dividing by a node whose [data] is zero ([0.0] or
    [-0.0]) raises [ZeroDivisionError] out of [data ** -1], for [a / b]
    and for [x / b] with a number [x]; the store is left as it was. *)
Theorem zero_divisor_raises h a b (nb : Value float) (x : float) :
  h !! b = Some nb -> (data nb =? 0)%float = true ->
  @__truediv__ float (float_arith c_exp c_pow) sets a (Node b) h
  = (h, Raise ZeroDivisionError)
  /\ @__rtruediv__ float (float_arith c_exp c_pow) sets b x h
     = (h, Raise ZeroDivisionError).
Proof.
  intros Hb Hz.
  assert (Hpow : @__pow__ float (float_arith c_exp c_pow) sets b
                   (Num (float_of_int (-1))) h = (h, Raise ZeroDivisionError)).
  { unfold __pow__, get_data, get_node, bind, lift, ret. rewrite Hb. simpl.
    unfold float_pow. rewrite Hz. reflexivity. }
  split.
  - unfold __truediv__, coerce, bind, ret. simpl in Hpow |- *. now rewrite Hpow.
  - unfold __rtruediv__, bind. simpl in Hpow |- *. now rewrite Hpow.
Qed.

End FloatResults.

(** ** Doubles: products and sums that are exact *)

Section Doubles.

Local Open Scope Z_scope.

Lemma bounded_inv (m : positive) (e : Z) :
  bounded prec emax m e = true ->
  Z.max (Zpos (digits2_pos m) + e - 53) (-1074) = e /\ e <= 971.
Proof.
  unfold bounded, canonical_mantissa, fexp, emin, prec, emax.
  intros H. apply andb_prop in H as [H1 H2].
  apply Z.eqb_eq in H1. apply Z.leb_le in H2. split; [exact H1 | exact H2].
Qed.

Lemma shr_exact (m : positive) (k : positive) :
  SpecFloat.iter_pos shr_1 k
    {| shr_m := Zpos (Pos.iter xO m k); shr_r := false; shr_s := false |}
  = {| shr_m := Zpos m; shr_r := false; shr_s := false |}.
Proof.
  revert m. induction k as [k IH|k IH|]; intros m; simpl.
  - rewrite IH. now rewrite IH.
  - now rewrite !IH.
  - reflexivity.
Qed.

Lemma digits_shift (m : positive) (k : positive) :
  Zpos (digits2_pos (Pos.iter xO m k)) = Zpos (digits2_pos m) + Zpos k.
Proof.
  induction k using Pos.peano_ind.
  - simpl. lia.
  - rewrite Pos.iter_succ. simpl. lia.
Qed.

(** Rounding [m * 2 ** k] at the exponent [e], where [m] at [e + k] is a
    double or is too large. *)
Lemma round_shift (s : bool) (m k : positive) (e : Z) :
  Z.max (Zpos (digits2_pos m) + (e + Zpos k) - 53) (-1074) = e + Zpos k ->
  binary_round_aux prec emax s (Zpos (Pos.iter xO m k)) e loc_Exact
  = if e + Zpos k <=? 971 then S754_finite s m (e + Zpos k) else S754_infinity s.
Proof.
  intros Hc.
  unfold binary_round_aux, shr_fexp, fexp, emin, prec, emax.
  cbn [Zdigits2 shr_record_of_loc]. rewrite digits_shift.
  replace (Z.max _ _ - e) with (Zpos k) by lia.
  cbn [shr]. rewrite shr_exact.
  cbn [shr_m shr_r shr_s loc_of_shr_record round_nearest_even Zdigits2].
  replace (Z.max _ _ - (e + Zpos k)) with 0 by lia.
  reflexivity.
Qed.

(** Rounding a double gives the double. *)
Lemma round_id (s : bool) (m : positive) (e : Z) :
  Z.max (Zpos (digits2_pos m) + e - 53) (-1074) = e ->
  binary_round_aux prec emax s (Zpos m) e loc_Exact
  = if e <=? 971 then S754_finite s m e else S754_infinity s.
Proof.
  intros Hc.
  unfold binary_round_aux, shr_fexp, fexp, emin, prec, emax.
  cbn [Zdigits2 shr_record_of_loc].
  replace (Z.max _ _ - e) with 0 by lia.
  cbn [shr shr_m shr_r shr_s loc_of_shr_record round_nearest_even Zdigits2].
  replace (Z.max _ _ - e) with 0 by lia.
  reflexivity.
Qed.

Lemma Prim2SF_bounded (d : float) (s : bool) (m : positive) (e : Z) :
  Prim2SF d = S754_finite s m e -> bounded prec emax m e = true.
Proof.
  intros Hd. pose proof (Prim2SF_valid d) as Hv. now rewrite Hd in Hv.
Qed.

(** [d * 1.0] is [d], and [d * -1.0] is [-d], to the bit. *)
Lemma mul_unit (d : float) (neg : bool) :
  Prim2SF (d * (if neg then -1 else 1))%float
  = (if neg then SFopp (Prim2SF d) else Prim2SF d).
Proof.
  rewrite FloatAxioms.mul_spec.
  assert (Hu : Prim2SF (if neg then -1 else 1)%float
               = S754_finite neg 4503599627370496 (-52)) by now destruct neg.
  rewrite Hu. clear Hu.
  destruct (Prim2SF d) as [s|s| |s m e] eqn:Hd.
  - destruct s, neg; reflexivity.
  - destruct s, neg; reflexivity.
  - now destruct neg.
  - destruct (bounded_inv m e (Prim2SF_bounded d s m e Hd)) as [Hc He].
    unfold SF64mul, SFmul. rewrite Pos.mul_comm.
    change (4503599627370496 * m)%positive with (Pos.iter xO m 52).
    rewrite round_shift.
    + replace (e + -52 + 52) with e by lia. apply Z.leb_le in He. rewrite He.
      destruct s, neg; reflexivity.
    + replace (e + -52 + 52) with e by lia. exact Hc.
Qed.

Lemma mul_one (d : float) : (d * 1)%float = d.
Proof. apply Prim2SF_inj. apply (mul_unit d false). Qed.

Lemma mul_minus_one (d : float) : (d * -1)%float = (- d)%float.
Proof.
  apply Prim2SF_inj. rewrite FloatAxioms.opp_spec. apply (mul_unit d true).
Qed.

(** [d + d] is [2.0 * d], to the bit. *)
Lemma add_self (d : float) : (d + d)%float = (2 * d)%float.
Proof.
  apply Prim2SF_inj. rewrite FloatAxioms.add_spec, FloatAxioms.mul_spec.
  change (Prim2SF 2) with (S754_finite false 4503599627370496 (-51)).
  destruct (Prim2SF d) as [s|s| |s m e] eqn:Hd.
  - now destruct s.
  - now destruct s.
  - reflexivity.
  - destruct (bounded_inv m e (Prim2SF_bounded d s m e Hd)) as [Hc He].
    unfold SF64mul, SFmul, SF64add, SFadd. cbn [xorb].
    rewrite Z.min_id. unfold shl_align. rewrite Z.sub_diag. cbn [fst].
    change (4503599627370496 * m)%positive with (Pos.iter xO m 52).
    assert (Hsum : cond_Zopp s (Zpos m) + cond_Zopp s (Zpos m)
                   = cond_Zopp s (Zpos (xO m))) by (destruct s; simpl; lia).
    rewrite Hsum. clear Hsum.
    assert (Hnorm : binary_normalize prec emax (cond_Zopp s (Zpos (xO m))) e false
                    = binary_round prec emax s (xO m) e) by now destruct s.
    rewrite Hnorm. clear Hnorm.
    unfold binary_round, shl_align, fexp, emin, prec, emax.
    cbn [digits2_pos]. rewrite Pos2Z.inj_succ.
    destruct (Z.eq_dec (Zpos (digits2_pos m)) 53) as [Hn|Hn].
    + (* a normal number: the exponent goes up *)
      replace (Z.max (Z.succ (Zpos (digits2_pos m)) + e - 53) (3 - 1024 - 53) - e)
        with 1 by lia.
      change (binary_round_aux 53 1024 s (Zpos (xO m)) e loc_Exact)
        with (binary_round_aux prec emax s (Zpos (Pos.iter xO m 1)) e loc_Exact).
      rewrite !round_shift by lia.
      now replace (-51 + e + 52) with (e + 1) by lia.
    + (* a subnormal number: the mantissa doubles *)
      replace (Z.max (Z.succ (Zpos (digits2_pos m)) + e - 53) (3 - 1024 - 53) - e)
        with 0 by lia.
      change (Pos.iter xO m 52) with (Pos.iter xO (xO m) 51).
      change (binary_round_aux 53 1024 s (Zpos (xO m)) e loc_Exact)
        with (binary_round_aux prec emax s (Zpos (xO m)) e loc_Exact).
      rewrite round_shift by (cbn [digits2_pos]; lia).
      rewrite round_id by (cbn [digits2_pos]; lia).
      now replace (-51 + e + 51) with e by lia.
Qed.

(** [0.0 + d] compares equal to [d], and is [d] unless [d] is a zero. *)
Lemma zero_add (d : float) :
  Prim2SF (0 + d)%float
  = match Prim2SF d with S754_zero _ => S754_zero false | X => X end.
Proof.
  rewrite FloatAxioms.add_spec. change (Prim2SF 0) with (S754_zero false).
  destruct (Prim2SF d) as [s|s| |s m e]; try reflexivity. now destruct s.
Qed.

(** [a + (-b)] is [a - b], to the bit. *)
Lemma add_opp (a b : float) : (a + - b)%float = (a - b)%float.
Proof.
  apply Prim2SF_inj.
  rewrite FloatAxioms.add_spec, FloatAxioms.sub_spec, FloatAxioms.opp_spec.
  destruct (Prim2SF a) as [sa|sa| |sa ma ea], (Prim2SF b) as [sb|sb| |sb mb eb];
    try reflexivity; destruct sa, sb; reflexivity.
Qed.

Lemma add_comm (a b : float) : (a + b)%float = (b + a)%float.
Proof.
  apply Prim2SF_inj. rewrite !FloatAxioms.add_spec.
  destruct (Prim2SF a) as [sa|sa| |sa ma ea], (Prim2SF b) as [sb|sb| |sb mb eb];
    try reflexivity; try (destruct sa, sb; reflexivity).
  unfold SF64add, SFadd. rewrite (Z.min_comm ea eb). f_equal. apply Z.add_comm.
Qed.

Lemma mul_comm (a b : float) : (a * b)%float = (b * a)%float.
Proof.
  apply Prim2SF_inj. rewrite !FloatAxioms.mul_spec.
  destruct (Prim2SF a) as [sa|sa| |sa ma ea], (Prim2SF b) as [sb|sb| |sb mb eb];
    try reflexivity; try (destruct sa, sb; reflexivity).
  unfold SF64mul, SFmul.
  now rewrite (xorb_comm sa sb), (Pos.mul_comm ma mb), (Z.add_comm ea eb).
Qed.

(** What [x * x] leaves in [x.grad] compares equal to [2 * x.data], unless
    [x.data] is a NaN. *)
Lemma square_grad_eqb (d : float) :
  (0 + d * 1 + d * 1 =? 2 * d)%float = negb (is_nan d).
Proof.
  rewrite mul_one. unfold is_nan. rewrite !FloatAxioms.eqb_spec.
  rewrite FloatAxioms.add_spec, zero_add, <- add_self, FloatAxioms.add_spec.
  destruct (Prim2SF d) as [s|s| |s m e] eqn:Hd.
  - now destruct s.
  - now destruct s.
  - reflexivity.
  - rewrite !SFeqb_refl; [reflexivity | discriminate |].
    rewrite <- Hd, <- FloatAxioms.add_spec, add_self, FloatAxioms.mul_spec, Hd.
    change (Prim2SF 2) with (S754_finite false 4503599627370496 (-51)).
    destruct (bounded_inv m e (Prim2SF_bounded d s m e Hd)) as [Hc He].
    unfold SF64mul, SFmul.
    change (4503599627370496 * m)%positive with (Pos.iter xO m 52).
    destruct (Z.eq_dec (Zpos (digits2_pos m)) 53) as [Hn|Hn].
    + rewrite round_shift by lia. now destruct (_ <=? _).
    + change (Pos.iter xO m 52) with (Pos.iter xO (xO m) 51).
      rewrite round_shift by (cbn [digits2_pos]; lia). now destruct (_ <=? _).
Qed.





End Doubles.

(** ** The operators, run in any store *)

Section OpEquations.

Context {num : Type} {arith : Arith num} {sets : SetOrder}.

Implicit Types (h : list (Value num)) (self other : ref).

Lemma new_node_eq h (d : num) (cs : list ref) (op : string) (r : ref -> rule num) :
  (do out <- __init__ d cs (Some op) ; run set_backward out (r out) ; ret out) h
  = (h ++ [made (r (length h)) op cs d], Ok (length h)).
Proof.
  unfold __init__, set_backward, get_node, bind, ret.
  rewrite list_lookup_middle by reflexivity.
  rewrite alter_app_r_alt by lia. rewrite Nat.sub_diag. reflexivity.
Qed.

Lemma leaf_eq h (d : num) : __init__ d [] None h = (h ++ [leaf d], Ok (length h)).
Proof. reflexivity. Qed.

Lemma add_node_eq h self other (a b : Value num) :
  h !! self = Some a -> h !! other = Some b ->
  __add__ self (Node other) h
  = (h ++ [made (RAdd self other (length h)) "+" [self; other]
             (py_add (data a) (data b))], Ok (length h)).
Proof.
  intros Ha Hb. unfold __add__, coerce.
  rewrite (bind_eq _ _ h h other) by reflexivity.
  rewrite (bind_eq _ _ h h (data a)) by now apply get_data_eq.
  rewrite (bind_eq _ _ h h (data b)) by now apply get_data_eq.
  apply (new_node_eq h _ _ "+" (fun out => RAdd self other out)).
Qed.

Lemma mul_node_eq h self other (a b : Value num) :
  h !! self = Some a -> h !! other = Some b ->
  __mul__ self (Node other) h
  = (h ++ [made (RMul self other (length h)) "*" [self; other]
             (py_mul (data a) (data b))], Ok (length h)).
Proof.
  intros Ha Hb. unfold __mul__, coerce.
  rewrite (bind_eq _ _ h h other) by reflexivity.
  rewrite (bind_eq _ _ h h (data a)) by now apply get_data_eq.
  rewrite (bind_eq _ _ h h (data b)) by now apply get_data_eq.
  apply (new_node_eq h _ _ "*" (fun out => RMul self other out)).
Qed.

(** With a number on the right, the number is wrapped in a leaf first. *)
Lemma add_num_eq h self (a : Value num) (x : num) :
  h !! self = Some a ->
  __add__ self (Num x) h
  = (h ++ [leaf x;
           made (RAdd self (length h) (S (length h))) "+" [self; length h]
             (py_add (data a) x)], Ok (S (length h))).
Proof.
  intros Ha. unfold __add__, coerce.
  rewrite (bind_eq _ _ h (h ++ [leaf x]) (length h)) by reflexivity.
  rewrite (bind_eq _ _ _ (h ++ [leaf x]) (data a))
    by (apply get_data_eq; now apply lookup_app_l_Some).
  rewrite (bind_eq _ _ _ (h ++ [leaf x]) x)
    by (apply (get_data_eq _ _ (leaf x)); now apply list_lookup_middle).
  rewrite (new_node_eq (h ++ [leaf x]) _ _ "+" (fun out => RAdd self (length h) out)).
  rewrite length_app, <- app_assoc. simpl. now rewrite Nat.add_1_r.
Qed.

Lemma mul_num_eq h self (a : Value num) (x : num) :
  h !! self = Some a ->
  __mul__ self (Num x) h
  = (h ++ [leaf x;
           made (RMul self (length h) (S (length h))) "*" [self; length h]
             (py_mul (data a) x)], Ok (S (length h))).
Proof.
  intros Ha. unfold __mul__, coerce.
  rewrite (bind_eq _ _ h (h ++ [leaf x]) (length h)) by reflexivity.
  rewrite (bind_eq _ _ _ (h ++ [leaf x]) (data a))
    by (apply get_data_eq; now apply lookup_app_l_Some).
  rewrite (bind_eq _ _ _ (h ++ [leaf x]) x)
    by (apply (get_data_eq _ _ (leaf x)); now apply list_lookup_middle).
  rewrite (new_node_eq (h ++ [leaf x]) _ _ "*" (fun out => RMul self (length h) out)).
  rewrite length_app, <- app_assoc. simpl. now rewrite Nat.add_1_r.
Qed.

Lemma pow_num_eq h self (a : Value num) (p d : num) :
  h !! self = Some a -> py_pow (data a) p = Ok d ->
  __pow__ self (Num p) h
  = (h ++ [made (RPow self p (length h)) "**" [self] d], Ok (length h)).
Proof.
  intros Ha Hd. unfold __pow__.
  rewrite (bind_eq _ _ h h (data a)) by now apply get_data_eq.
  rewrite (bind_eq _ _ h h d) by (unfold lift; now rewrite Hd).
  apply (new_node_eq h _ _ "**" (fun out => RPow self p out)).
Qed.

Lemma pow_raise_eq h self (a : Value num) (p : num) e :
  h !! self = Some a -> py_pow (data a) p = Raise e ->
  __pow__ self (Num p) h = (h, Raise e).
Proof.
  intros Ha Hd. unfold __pow__.
  rewrite (bind_eq _ _ h h (data a)) by now apply get_data_eq.
  apply bind_raise. unfold lift. now rewrite Hd.
Qed.

Lemma exp_eq h self (a : Value num) (d : num) :
  h !! self = Some a -> math_exp (data a) = Ok d ->
  exp self h = (h ++ [made (RExp self (length h)) "exp" [self] d], Ok (length h)).
Proof.
  intros Ha Hd. unfold exp.
  rewrite (bind_eq _ _ h h (data a)) by now apply get_data_eq.
  rewrite (bind_eq _ _ h h d) by (unfold lift; now rewrite Hd).
  apply (new_node_eq h _ _ "exp" (fun out => RExp self out)).
Qed.

End OpEquations.

Section ExpRuns.

Context {num : Type} {arith : Arith num} {sets : SetOrder}.

(** The closure of an [exp] node [out] of [a], called in any store. *)
Lemma exp_closure_at (k : list (Value num)) (a out : ref) (ka kout : Value num) :
  k !! a = Some ka -> k !! out = Some kout ->
  _backward kout = RExp a out ->
  call_backward out k
  = (alter (with_grad (py_add (grad ka) (py_mul (data kout) (grad kout)))) a k, Ok tt).
Proof.
  intros Ha Hout Hrule.
  unfold call_backward, bind, get_node at 1. rewrite Hout, Hrule. simpl.
  apply (iadd_grad_eq k a ka); [exact Ha|].
  rewrite (bind_eq _ _ k k (data kout)) by now apply get_data_eq.
  rewrite (bind_eq _ _ k k (grad kout)) by now apply get_grad_eq.
  reflexivity.
Qed.

Lemma lookup_snoc2 (h : list (Value num)) (n1 n2 : Value num) :
  (h ++ [n1; n2]) !! S (length h) = Some n2.
Proof.
  rewrite lookup_app_r by lia.
  now replace (S (length h) - length h) with 1 by lia.
Qed.

End ExpRuns.

(** ** The backward pass does not depend on where the graph is stored *)

Section Relocation.

Context {num : Type} {arith : Arith num}.

Variable h : list (Value num).

Implicit Types (g : list (Value num)) (v : ref).

Lemma placed_lookup g v :
  placed h g !! (length h + v) = shift (length h) <$> g !! v.
Proof.
  unfold placed. rewrite lookup_app_r by lia.
  replace (length h + v - length h) with v by lia. apply list_lookup_fmap.
Qed.

Lemma shift_with_grad (c : num) (x : Value num) :
  with_grad c (shift (length h) x) = shift (length h) (with_grad c x).
Proof. reflexivity. Qed.

Lemma placed_alter g v (c : num) :
  alter (with_grad c) (length h + v) (placed h g) = placed h (alter (with_grad c) v g).
Proof.
  unfold placed. rewrite alter_app_r_alt by lia.
  replace (length h + v - length h) with v by lia. f_equal.
  apply list_eq. intros i. rewrite list_lookup_fmap, !list_lookup_alter.
  destruct (decide (v = i)) as [->|Hne]; rewrite list_lookup_fmap;
    [|reflexivity]. now destruct (g !! i).
Qed.

Lemma alike_ret {A} (rename : A -> A) (a : A) :
  runs_alike h rename (ret (rename a)) (ret a).
Proof. intros g. reflexivity. Qed.

Lemma alike_bind {A B} (f : A -> A) (f' : B -> B) (m m' : M num A)
    (c c' : A -> M num B) :
  runs_alike h f m m' -> (forall a, runs_alike h f' (c (f a)) (c' a)) ->
  runs_alike h f' (bind m c) (bind m' c').
Proof.
  intros Hm Hc g. unfold bind. rewrite (Hm g).
  destruct (m' g) as [g' [a|e]]; [apply Hc | reflexivity].
Qed.

Lemma alike_lift {A} (o : outcome A) : runs_alike h (fun a => a) (lift o) (lift o).
Proof. intros g. unfold lift. now destruct o. Qed.

Lemma alike_get_node v :
  runs_alike h (shift (length h)) (get_node (length h + v)) (get_node v).
Proof.
  intros g. unfold get_node. rewrite placed_lookup. now destruct (g !! v).
Qed.

Lemma alike_get_data v :
  runs_alike h (fun a => a) (get_data (length h + v)) (get_data v).
Proof.
  apply (alike_bind (shift (length h))); [apply alike_get_node|].
  intros a g. reflexivity.
Qed.

Lemma alike_get_grad v :
  runs_alike h (fun a => a) (get_grad (length h + v)) (get_grad v).
Proof.
  apply (alike_bind (shift (length h))); [apply alike_get_node|].
  intros a g. reflexivity.
Qed.

Lemma alike_set_grad v (c : num) :
  runs_alike h (fun a => a) (set_grad (length h + v) c) (set_grad v c).
Proof.
  apply (alike_bind (shift (length h))); [apply alike_get_node|].
  intros _ g. now rewrite placed_alter.
Qed.

Lemma alike_iadd_grad v (rhs rhs' : M num num) :
  runs_alike h (fun a => a) rhs rhs' ->
  runs_alike h (fun a => a) (iadd_grad (length h + v) rhs) (iadd_grad v rhs').
Proof.
  intros Hrhs. apply (alike_bind (fun a => a)); [apply alike_get_grad|].
  intros c. apply (alike_bind (fun a => a)); [exact Hrhs|].
  intros x. apply alike_set_grad.
Qed.

Ltac alike_steps :=
  repeat first
    [ apply alike_iadd_grad
    | apply alike_get_grad
    | apply alike_get_data
    | apply alike_lift
    | apply (alike_ret (fun a => a))
    | apply (alike_bind (fun a => a)); [|intros ?] ].

Lemma alike_call_rule (r : rule num) :
  runs_alike h (fun a => a) (call_rule (shift_rule (length h) r)) (call_rule r).
Proof. destruct r; simpl; alike_steps. Qed.

Lemma alike_call_backward v :
  runs_alike h (fun a => a) (call_backward (length h + v)) (call_backward v).
Proof.
  apply (alike_bind (shift (length h))); [apply alike_get_node|].
  intros a. apply alike_call_rule.
Qed.

Lemma alike_call_all (nodes : list ref) :
  runs_alike h (fun a => a) (call_all (map (Nat.add (length h)) nodes)) (call_all nodes).
Proof.
  induction nodes as [|v rest IH]; simpl; [apply (alike_ret (fun a => a))|].
  apply (alike_bind (fun a => a)); [apply alike_call_backward|]. intros _. exact IH.
Qed.

Lemma elem_of_shifted (v : ref) (l : list ref) :
  length h + v ∈ map (Nat.add (length h)) l <-> v ∈ l.
Proof.
  rewrite list_elem_of_fmap. split.
  - intros (w & Hw & Hin). now replace v with w by lia.
  - intros Hin. now exists v.
Qed.

Lemma build_topo_placed fuel g : forall v st,
  build_topo fuel (placed h g) (length h + v)
    (map (Nat.add (length h)) st.1, map (Nat.add (length h)) st.2)
  = shift_state (length h) (build_topo fuel g v st).
Proof.
  induction fuel as [|fuel IH]; intros v st; [reflexivity|].
  rewrite !build_topo_S. cbn [fst snd].
  rewrite (bool_decide_ext _ _ (elem_of_shifted v st.1)).
  case_bool_decide; [now destruct st|].
  rewrite placed_lookup. destruct (g !! v) as [x|]; [|reflexivity]. simpl.
  assert (Hfold : forall cs acc,
             fold_left
               (fun acc child =>
                  match acc with
                  | Ok st' => build_topo fuel (placed h g) child st'
                  | Raise e => Raise e
                  end)
               (map (Nat.add (length h)) cs) (shift_state (length h) acc)
             = shift_state (length h)
                 (fold_left
                    (fun acc child =>
                       match acc with
                       | Ok st' => build_topo fuel g child st'
                       | Raise e => Raise e
                       end)
                    cs acc)).
  { induction cs as [|c cs IHcs]; intros acc; [reflexivity|]. simpl.
    rewrite <- IHcs. f_equal. destruct acc as [st'|e]; [|reflexivity].
    apply IH. }
  change (Ok (length h + v :: map (Nat.add (length h)) st.1,
              map (Nat.add (length h)) st.2))
    with (shift_state (length h) (Ok (v :: st.1, st.2))).
  rewrite Hfold.
  destruct (fold_left _ (_prev x) _) as [st'|e]; [|reflexivity].
  simpl. now rewrite map_app.
Qed.

(** [backward] on a graph stored after other nodes does to the graph what
    it does to the graph stored alone, and does nothing to the other
    nodes. *)
Lemma backward_placed fuel v :
  runs_alike h (fun a => a) (backward fuel (length h + v)) (backward fuel v).
Proof.
  intros g. unfold backward.
  pose proof (build_topo_placed fuel g v ([], [])) as Ht. simpl in Ht.
  rewrite Ht. destruct (build_topo fuel g v ([], [])) as [st|e]; [|reflexivity].
  simpl.
  change (map (Nat.add (length h)) st.2) with (Nat.add (length h) <$> st.2).
  rewrite <- fmap_reverse.
  apply (alike_bind (fun a => a)); [apply alike_set_grad|].
  intros _. apply alike_call_all.
Qed.

End Relocation.

(** ** The operators on a graph placed after other nodes *)

Section PlacedOperators.

Context {num : Type} {arith : Arith num} {sets : SetOrder}.

Variable h : list (Value num).

Implicit Types (g : list (Value num)) (a b : ref).

Lemma placed_nil : placed h [] = h.
Proof. unfold placed. simpl. apply app_nil_r. Qed.

Lemma placed_length g : length (placed h g) = length h + length g.
Proof. unfold placed. now rewrite length_app, length_map. Qed.

Lemma placed_snoc g (x : Value num) :
  placed h g ++ [shift (length h) x] = placed h (g ++ [x]).
Proof. unfold placed. now rewrite map_app, app_assoc. Qed.

Lemma placed_data g a na :
  g !! a = Some na -> get_data (length h + a) (placed h g) = (placed h g, Ok (data na)).
Proof.
  intros Ha. apply (get_data_eq _ _ (shift (length h) na)).
  rewrite placed_lookup. now rewrite Ha.
Qed.

Lemma leaf_placed g (d : num) :
  __init__ d [] None (placed h g)
  = (placed h (g ++ [mkValue RNone None [] d (of_int 0)]), Ok (length h + length g)).
Proof.
  unfold __init__. rewrite placed_length, set_iter_nil. now rewrite <- placed_snoc.
Qed.

(** The children of a node with one or two operands, as the set gives
    them. *)
Lemma children_placed a b :
  exists cs,
    set_iter [length h + a; length h + b] = map (Nat.add (length h)) cs
    /\ if decide (a = b) then cs = [a] else cs = [a; b] \/ cs = [b; a].
Proof.
  destruct (decide (a = b)) as [->|Hne].
  - exists [b]. split; [apply set_iter_same | reflexivity].
  - destruct (set_iter_pair (length h + a) (length h + b)) as [Hs|Hs]; [lia| |].
    + exists [a; b]. split; [exact Hs | now left].
    + exists [b; a]. split; [exact Hs | now right].
Qed.

Lemma node_placed g (d : num) (cs cs' : list ref) (op : string)
    (r : ref -> rule num) (rg : rule num) :
  set_iter cs = map (Nat.add (length h)) cs' ->
  r (length h + length g) = shift_rule (length h) rg ->
  (do out <- __init__ d cs (Some op) ; run set_backward out (r out) ; ret out)
    (placed h g)
  = (placed h (g ++ [mkValue rg (Some op) cs' d (of_int 0)]),
     Ok (length h + length g)).
Proof.
  intros Hset Hr. rewrite new_node_eq. unfold made.
  rewrite placed_length, Hr, Hset. now rewrite <- placed_snoc.
Qed.

Lemma add_placed g a b na nb :
  g !! a = Some na -> g !! b = Some nb ->
  exists cs,
    (if decide (a = b) then cs = [a] else cs = [a; b] \/ cs = [b; a])
    /\ __add__ (length h + a) (Node (length h + b)) (placed h g)
       = (placed h (g ++ [mkValue (RAdd a b (length g)) (Some "+"%string) cs
                           (py_add (data na) (data nb)) (of_int 0)]),
          Ok (length h + length g)).
Proof.
  intros Ha Hb. destruct (children_placed a b) as (cs & Hset & Hcs).
  exists cs. split; [exact Hcs|]. unfold __add__, coerce.
  rewrite (bind_eq _ _ _ (placed h g) (length h + b)) by reflexivity.
  rewrite (bind_eq _ _ _ _ _ (placed_data g a na Ha)).
  rewrite (bind_eq _ _ _ _ _ (placed_data g b nb Hb)).
  now apply (node_placed g _ _ cs "+"
               (fun out => RAdd (length h + a) (length h + b) out) (RAdd a b (length g))).
Qed.

Lemma mul_placed g a b na nb :
  g !! a = Some na -> g !! b = Some nb ->
  exists cs,
    (if decide (a = b) then cs = [a] else cs = [a; b] \/ cs = [b; a])
    /\ __mul__ (length h + a) (Node (length h + b)) (placed h g)
       = (placed h (g ++ [mkValue (RMul a b (length g)) (Some "*"%string) cs
                           (py_mul (data na) (data nb)) (of_int 0)]),
          Ok (length h + length g)).
Proof.
  intros Ha Hb. destruct (children_placed a b) as (cs & Hset & Hcs).
  exists cs. split; [exact Hcs|]. unfold __mul__, coerce.
  rewrite (bind_eq _ _ _ (placed h g) (length h + b)) by reflexivity.
  rewrite (bind_eq _ _ _ _ _ (placed_data g a na Ha)).
  rewrite (bind_eq _ _ _ _ _ (placed_data g b nb Hb)).
  now apply (node_placed g _ _ cs "*"
               (fun out => RMul (length h + a) (length h + b) out) (RMul a b (length g))).
Qed.

(** With a number on the right, the number is wrapped in a leaf first. *)
Lemma mul_num_placed g a na (x : num) :
  g !! a = Some na ->
  exists cs,
    (cs = [a; length g] \/ cs = [length g; a])
    /\ __mul__ (length h + a) (Num x) (placed h g)
       = (placed h (g ++ [mkValue RNone None [] x (of_int 0);
                          mkValue (RMul a (length g) (S (length g))) (Some "*"%string) cs
                            (py_mul (data na) x) (of_int 0)]),
          Ok (length h + S (length g))).
Proof.
  intros Ha. pose proof (lookup_lt_Some _ _ _ Ha) as Hlt.
  set (g1 := g ++ [mkValue RNone None [] x (of_int 0)]).
  assert (Ha1 : g1 !! a = Some na) by now apply lookup_app_l_Some.
  assert (Hx1 : g1 !! length g = Some (mkValue RNone None [] x (of_int 0)))
    by now apply list_lookup_middle.
  destruct (mul_placed g1 a (length g) _ _ Ha1 Hx1) as (cs & Hcs & Hrun).
  rewrite decide_False in Hcs by lia.
  exists cs. split; [exact Hcs|].
  unfold __mul__, coerce in *.
  rewrite (bind_eq _ _ _ _ _ (leaf_placed g x)). fold g1.
  rewrite (bind_eq _ _ _ (placed h g1) (length h + length g)) in Hrun by reflexivity.
  rewrite Hrun. unfold g1. rewrite length_app, <- app_assoc. simpl.
  now rewrite Nat.add_1_r.
Qed.

Lemma pow_placed g a na (p : num) :
  g !! a = Some na ->
  __pow__ (length h + a) (Num p) (placed h g)
  = match py_pow (data na) p with
    | Ok d =>
        (placed h (g ++ [mkValue (RPow a p (length g)) (Some "**"%string) [a] d
                           (of_int 0)]),
         Ok (length h + length g))
    | Raise e => (placed h g, Raise e)
    end.
Proof.
  intros Ha. unfold __pow__.
  rewrite (bind_eq _ _ _ _ _ (placed_data g a na Ha)).
  destruct (py_pow (data na) p) as [d|e]; [|reflexivity].
  rewrite (bind_eq _ _ _ (placed h g) d) by reflexivity.
  apply (node_placed g _ _ [a] "**"
           (fun out => RPow (length h + a) p out) (RPow a p (length g)));
    [apply set_iter_single | reflexivity].
Qed.

End PlacedOperators.

(** ** The scenarios, run after any store *)

Section ProgramsAt.

Context {num : Type} {arith : Arith num} {sets : SetOrder}.

Variable h : list (Value num).

(** Running [backward] and returning [r], on a graph placed after [h]. *)
Lemma then_backward_placed {A} (g : list (Value num)) fuel (y : ref) (r : A) :
  (run backward fuel (length h + y) ; ret r) (placed h g)
  = match backward fuel y g with
    | (g', Ok _) => (placed h g', Ok r)
    | (g', Raise e) => (placed h g', Raise e)
    end.
Proof.
  unfold bind. rewrite (backward_placed h fuel y g).
  now destruct (backward fuel y g) as [g' [[]|e]].
Qed.

Lemma double_backward_at (d : num) (fuel : nat) :
  double_backward d (2 + fuel) h
  = (placed h
       [ mkValue RNone None [] d (py_add (py_add (of_int 0) (of_int 1)) (of_int 1));
         mkValue (RAdd 0 0 1) (Some "+"%string) [0] (py_add d d) (of_int 1) ],
     Ok (length h + 0, length h + 1)).
Proof.
  transitivity (double_backward d (2 + fuel) (placed h []));
    [now rewrite placed_nil|]. unfold double_backward.
  rewrite (bind_eq _ _ _ _ _ (leaf_placed h [] d)). simpl app. simpl length.
  destruct (add_placed h [mkValue RNone None [] d (of_int 0)] 0 0 _ _ eq_refl eq_refl)
    as (cs & Hcs & Hadd).
  simpl in Hcs. subst cs. rewrite (bind_eq _ _ _ _ _ Hadd). simpl app. simpl length.
  now rewrite then_backward_placed.
Qed.

Lemma square_backward_at (d : num) (fuel : nat) :
  square_backward d (2 + fuel) h
  = (placed h
       [ mkValue RNone None [] d
           (py_add (py_add (of_int 0) (py_mul d (of_int 1))) (py_mul d (of_int 1)));
         mkValue (RMul 0 0 1) (Some "*"%string) [0] (py_mul d d) (of_int 1) ],
     Ok (length h + 0, length h + 1)).
Proof.
  transitivity (square_backward d (2 + fuel) (placed h []));
    [now rewrite placed_nil|]. unfold square_backward.
  rewrite (bind_eq _ _ _ _ _ (leaf_placed h [] d)). simpl app. simpl length.
  destruct (mul_placed h [mkValue RNone None [] d (of_int 0)] 0 0 _ _ eq_refl eq_refl)
    as (cs & Hcs & Hmul).
  simpl in Hcs. subst cs. rewrite (bind_eq _ _ _ _ _ Hmul). simpl app. simpl length.
  now rewrite then_backward_placed.
Qed.

Lemma sub_backward_at (x y : num) (fuel : nat) :
  exists cs1 cs2,
    (cs1 = [1; 2] \/ cs1 = [2; 1]) /\ (cs2 = [0; 3] \/ cs2 = [3; 0])
    /\ sub_backward x y (3 + fuel) h
       = (placed h
            [ mkValue RNone None [] x (py_add (of_int 0) (of_int 1));
              mkValue RNone None [] y
                (py_add (of_int 0)
                   (py_mul (of_int (-1)) (py_add (of_int 0) (of_int 1))));
              mkValue RNone None [] (of_int (-1))
                (py_add (of_int 0) (py_mul y (py_add (of_int 0) (of_int 1))));
              mkValue (RMul 1 2 3) (Some "*"%string) cs1
                (py_mul y (of_int (-1))) (py_add (of_int 0) (of_int 1));
              mkValue (RAdd 0 3 4) (Some "+"%string) cs2
                (py_add x (py_mul y (of_int (-1)))) (of_int 1) ],
          Ok (length h + 0, length h + 1, length h + 4)).
Proof.
  assert (Hstart :
    forall {A} (c : ref -> ref -> M num A),
      (do a <- __init__ x [] None ; do b <- __init__ y [] None ; c a b) h
      = c (length h + 0) (length h + 1)
          (placed h [mkValue RNone None [] x (of_int 0);
                     mkValue RNone None [] y (of_int 0)])).
  { intros A c.
    transitivity ((do a <- __init__ x [] None ; do b <- __init__ y [] None ; c a b)
                    (placed h [])); [now rewrite placed_nil|].
    rewrite (bind_eq _ _ _ _ _ (leaf_placed h [] x)). simpl app. simpl length.
    now rewrite (bind_eq _ _ _ _ _ (leaf_placed h _ y)). }
  unfold sub_backward, __sub__, __neg__.
  destruct (mul_num_placed h [mkValue RNone None [] x (of_int 0);
                              mkValue RNone None [] y (of_int 0)] 1 _ (of_int (-1))
              eq_refl) as (cs1 & Hcs1 & Hneg).
  simpl app in Hneg. simpl length in Hneg, Hcs1.
  match type of Hneg with _ = (placed h ?g, _) =>
    destruct (add_placed h g 0 3 _ _ eq_refl eq_refl) as (cs2 & Hcs2 & Hadd)
  end.
  simpl in Hcs2. simpl app in Hadd. simpl length in Hadd.
  exists cs1, cs2. split; [exact Hcs1|]. split; [exact Hcs2|].
  rewrite Hstart.
  rewrite (bind_eq _ _ _ _ _
             (eq_trans (bind_eq _ _ _ _ _ Hneg) Hadd)).
  rewrite then_backward_placed.
  destruct Hcs1 as [->| ->]; destruct Hcs2 as [->| ->]; reflexivity.
Qed.

Lemma truediv_backward_at (x y : num) (fuel : nat) :
  match py_pow y (of_int (-1)) with
  | Raise e =>
      truediv_backward x y (3 + fuel) h
      = (placed h [ mkValue RNone None [] x (of_int 0);
                    mkValue RNone None [] y (of_int 0) ], Raise e)
  | Ok inv =>
      exists cs,
        (cs = [0; 2] \/ cs = [2; 0])
        /\ truediv_backward x y (3 + fuel) h
           = match py_pow y (py_sub (of_int (-1)) (of_int 1)) with
             | Ok inv2 =>
                 (placed h
                    [ mkValue RNone None [] x
                        (py_add (of_int 0) (py_mul inv (of_int 1)));
                      mkValue RNone None [] y
                        (py_add (of_int 0)
                           (py_mul (py_mul (of_int (-1)) inv2)
                              (py_add (of_int 0) (py_mul x (of_int 1)))));
                      mkValue (RPow 1 (of_int (-1)) 2) (Some "**"%string) [1] inv
                        (py_add (of_int 0) (py_mul x (of_int 1)));
                      mkValue (RMul 0 2 3) (Some "*"%string) cs
                        (py_mul x inv) (of_int 1) ],
                  Ok (length h + 0, length h + 1, length h + 3))
             | Raise e =>
                 (placed h
                    [ mkValue RNone None [] x
                        (py_add (of_int 0) (py_mul inv (of_int 1)));
                      mkValue RNone None [] y (of_int 0);
                      mkValue (RPow 1 (of_int (-1)) 2) (Some "**"%string) [1] inv
                        (py_add (of_int 0) (py_mul x (of_int 1)));
                      mkValue (RMul 0 2 3) (Some "*"%string) cs
                        (py_mul x inv) (of_int 1) ],
                  Raise e)
             end
  end.
Proof.
  unfold truediv_backward.
  pose proof (pow_placed h [mkValue RNone None [] x (of_int 0);
                            mkValue RNone None [] y (of_int 0)] 1 _ (of_int (-1))
                eq_refl) as Hpow.
  cbn [data length app] in Hpow.
  assert (Hstart :
    forall {A} (c : ref -> ref -> M num A),
      (do a <- __init__ x [] None ; do b <- __init__ y [] None ; c a b) h
      = c (length h + 0) (length h + 1)
          (placed h [mkValue RNone None [] x (of_int 0);
                     mkValue RNone None [] y (of_int 0)])).
  { intros A c.
    transitivity ((do a <- __init__ x [] None ; do b <- __init__ y [] None ; c a b)
                    (placed h [])); [now rewrite placed_nil|].
    rewrite (bind_eq _ _ _ _ _ (leaf_placed h [] x)). simpl app. simpl length.
    now rewrite (bind_eq _ _ _ _ _ (leaf_placed h _ y)). }
  destruct (py_pow y (of_int (-1))) as [inv|e].
  - match type of Hpow with _ = (placed h ?g, _) =>
      destruct (mul_placed h g 0 2 _ _ eq_refl eq_refl) as (cs & Hcs & Hmul)
    end.
    simpl in Hcs. cbn [data length app] in Hmul.
    exists cs. split; [exact Hcs|].
    rewrite Hstart.
    assert (Htd : __truediv__ (length h + 0) (Node (length h + 1))
                    (placed h [mkValue RNone None [] x (of_int 0);
                               mkValue RNone None [] y (of_int 0)])
                  = (placed h
                       [mkValue RNone None [] x (of_int 0);
                        mkValue RNone None [] y (of_int 0);
                        mkValue (RPow 1 (of_int (-1)) 2) (Some "**"%string) [1] inv
                          (of_int 0);
                        mkValue (RMul 0 2 3) (Some "*"%string) cs (py_mul x inv)
                          (of_int 0)],
                     Ok (length h + 3))).
    { unfold __truediv__, coerce.
      rewrite (bind_eq _ _ _ (placed h _) (length h + 1)) by reflexivity.
      rewrite (bind_eq _ _ _ _ _ Hpow). exact Hmul. }
    rewrite (bind_eq _ _ _ _ _ Htd).
    rewrite then_backward_placed.
    destruct Hcs as [->| ->]; unfold backward; simpl;
      cbv -[py_pow py_mul py_add py_sub of_int placed length Nat.add];
      destruct (py_pow y (py_sub (of_int (-1)) (of_int 1))); reflexivity.
  - rewrite Hstart. apply bind_raise. unfold __truediv__, coerce.
    rewrite (bind_eq _ _ _ (placed h _) (length h + 1)) by reflexivity.
    now apply bind_raise.
Qed.

End ProgramsAt.

(** ** The derived operators, [exp] and [tanh], run in any store *)

Section DerivedEquations.

Context {num : Type} {arith : Arith num} {sets : SetOrder}.

Implicit Types (h : list (Value num)) (a b : ref).

(** [a - b]: the constant [-1], the product [b * -1], the sum. *)
Lemma sub_node_eq h a b (na nb : Value num) :
  h !! a = Some na -> h !! b = Some nb ->
  __sub__ a (Node b) h
  = (h ++ [leaf (of_int (-1));
           made (RMul b (length h) (S (length h))) "*" [b; length h]
             (py_mul (data nb) (of_int (-1)));
           made (RAdd a (S (length h)) (S (S (length h)))) "+" [a; S (length h)]
             (py_add (data na) (py_mul (data nb) (of_int (-1))))],
     Ok (S (S (length h)))).
Proof.
  intros Ha Hb. unfold __sub__, __neg__.
  rewrite (bind_eq _ _ _ _ _ (mul_num_eq h b nb (of_int (-1)) Hb)).
  match goal with |- __add__ _ _ ?h1 = _ => set (k := h1) end.
  assert (Hm : k !! S (length h)
               = Some (made (RMul b (length h) (S (length h))) "*" [b; length h]
                         (py_mul (data nb) (of_int (-1)))))
    by apply lookup_snoc2.
  assert (Ha1 : k !! a = Some na) by now apply lookup_app_l_Some.
  rewrite (add_node_eq k a (S (length h)) _ _ Ha1 Hm).
  unfold k. rewrite length_app, <- app_assoc. simpl.
  now replace (length h + 2) with (S (S (length h))) by lia.
Qed.

(** [a / b]: the power [b ** -1], then the product; or what the power
    raises. *)
Lemma truediv_node_eq h a b (na nb : Value num) :
  h !! a = Some na -> h !! b = Some nb ->
  __truediv__ a (Node b) h
  = match py_pow (data nb) (of_int (-1)) with
    | Ok inv =>
        (h ++ [made (RPow b (of_int (-1)) (length h)) "**" [b] inv;
               made (RMul a (length h) (S (length h))) "*" [a; length h]
                 (py_mul (data na) inv)],
         Ok (S (length h)))
    | Raise e => (h, Raise e)
    end.
Proof.
  intros Ha Hb. unfold __truediv__, coerce.
  rewrite (bind_eq _ _ h h b) by reflexivity.
  destruct (py_pow (data nb) (of_int (-1))) as [inv|e] eqn:Hp.
  - rewrite (bind_eq _ _ _ _ _ (pow_num_eq h b nb _ inv Hb Hp)).
    match goal with |- __mul__ _ _ ?h1 = _ => set (k := h1) end.
    assert (Hi : k !! length h
                 = Some (made (RPow b (of_int (-1)) (length h)) "**" [b] inv))
      by now apply list_lookup_middle.
    assert (Ha1 : k !! a = Some na) by now apply lookup_app_l_Some.
    rewrite (mul_node_eq k a (length h) _ _ Ha1 Hi).
    unfold k. rewrite length_app, <- app_assoc. simpl.
    now replace (length h + 1) with (S (length h)) by lia.
  - apply bind_raise. now apply (pow_raise_eq h b nb).
Qed.

(** [a.tanh()]: the formula on what [math.exp] gives, or what [math.exp]
    or the division raises. *)
Lemma tanh_node_eq h a (na : Value num) :
  h !! a = Some na ->
  tanh a h
  = match math_exp (py_mul (of_int 2) (data na)) with
    | Raise e => (h, Raise e)
    | Ok ex =>
        match py_truediv (py_sub ex (of_int 1)) (py_add ex (of_int 1)) with
        | Raise e => (h, Raise e)
        | Ok t => (h ++ [made (RTanh a (length h)) "tanh" [a] t], Ok (length h))
        end
    end.
Proof.
  intros Ha. unfold tanh.
  rewrite (bind_eq _ _ h h (data na)) by now apply get_data_eq.
  destruct (math_exp (py_mul (of_int 2) (data na))) as [ex|e] eqn:He;
    [|now apply bind_raise].
  rewrite (bind_eq _ _ h h ex) by reflexivity.
  rewrite (bind_eq _ _ h h (data na)) by now apply get_data_eq.
  rewrite (bind_eq _ _ h h ex) by (unfold lift; now rewrite He).
  destruct (py_truediv (py_sub ex (of_int 1)) (py_add ex (of_int 1))) as [t|e];
    [|now apply bind_raise].
  rewrite (bind_eq _ _ h h t) by reflexivity.
  apply (new_node_eq h _ _ "tanh" (fun out => RTanh a out)).
Qed.

(** [a.exp()] *)
Lemma exp_node_eq h a (na : Value num) :
  h !! a = Some na ->
  exp a h
  = match math_exp (data na) with
    | Raise e => (h, Raise e)
    | Ok d => (h ++ [made (RExp a (length h)) "exp" [a] d], Ok (length h))
    end.
Proof.
  intros Ha. destruct (math_exp (data na)) as [d|e] eqn:He.
  - now apply (exp_eq h a na).
  - unfold exp. rewrite (bind_eq _ _ h h (data na)) by now apply get_data_eq.
    apply bind_raise. unfold lift. now rewrite He.
Qed.


(** Below the newest node, only that node has the one before it as a
    child. *)
Lemma sole_below_top (k : list (Value num)) (m : ref) :
  wf k -> length k = S (S m) ->
  forall q nq, q <> S m -> k !! q = Some nq -> m ∉ _prev nq.
Proof.
  intros Hwf Hlen q nq Hq Hnq Hin.
  pose proof (lookup_lt_Some _ _ _ Hnq) as Hlt.
  pose proof (wf_child_lt k q nq m Hwf Hnq Hin). lia.
Qed.

(** What the closures of the two newest nodes add, when the newest is the
    root of a pass that returns: the root's [grad] is [1], and the node
    before it has received from the root only. *)
Lemma top_pair_amounts (k : list (Value num)) (m : ref) (nm nout : Value num)
    (fuel : nat) (k' : list (Value num)) :
  wf k -> length k = S (S m) ->
  k !! m = Some nm -> k !! S m = Some nout ->
  m ∈ _prev nout -> grad nm = of_int 0 -> S m < fuel ->
  backward fuel (S m) k = (k', Ok tt) ->
  exists l,
    rule_amounts k' (_backward nout) = Ok l
    /\ node_amounts k' (S m) = Ok l
    /\ grad_of k' (S m) = of_int 1
    /\ grad_of k' m = accumulate (of_int 0) (amounts_to m l)
    /\ node_amounts k' m = rule_amounts k' (_backward nm)
    /\ forall v, data_of k' v = data_of k v.
Proof.
  intros Hwf Hlen Hm Hout Hin Hg Hfuel Hrun.
  destruct (sole_parent_grad k fuel (S m) m nout k' Hwf Hfuel Hout Hin
              (sole_below_top k m Hwf Hlen) Hrun) as (Hroot & l & Hl & Hgm).
  assert (Hlt : S m < length k) by lia.
  destruct (backward_spec k fuel (S m) Hwf Hlt Hfuel) as (_ & _ & _ & _ & Hb).
  rewrite Hrun in Hb. destruct Hb as [Hf _].
  destruct (frame_lookup _ k k' (S m) nout Hf Hout) as (n1 & Hn1 & Hb1 & _).
  destruct (frame_lookup _ k k' m nm Hf Hm) as (n2 & Hn2 & Hb2 & _).
  exists l. split; [|split; [exact Hl|split; [exact Hroot|split; [|split]]]].
  - unfold node_amounts in Hl. now rewrite Hn1, Hb1 in Hl.
  - rewrite Hgm. unfold grad_of. now rewrite Hm, Hg.
  - unfold node_amounts. now rewrite Hn2, Hb2.
  - intros v. apply (data_of_frame _ k k' v Hf).
Qed.

(** The closures of [a - b], after [(a - b).backward()] returned. *)
Lemma sub_amounts h a b (na nb : Value num) (fuel : nat) (h' : list (Value num)) :
  wf h -> h !! a = Some na -> h !! b = Some nb ->
  S (S (length h)) < fuel ->
  backward fuel (S (S (length h))) (__sub__ a (Node b) h).1 = (h', Ok tt) ->
  node_amounts h' (S (S (length h)))
  = Ok [(a, of_int 1); (S (length h), of_int 1)]
  /\ node_amounts h' (S (length h))
     = Ok [(b, py_mul (of_int (-1)) (py_add (of_int 0) (of_int 1)));
           (length h, py_mul (data nb) (py_add (of_int 0) (of_int 1)))].
Proof.
  intros Hwf Ha Hb Hfuel Hrun.
  destruct (op_spec_run (__sub__ a (Node b)) h (op_spec_sub a (Node b)))
    as (_ & Hw & _).
  specialize (Hw Hwf). rewrite (sub_node_eq h a b na nb Ha Hb) in Hw, Hrun.
  simpl fst in Hw, Hrun.
  match type of Hw with wf ?k => set (h1 := k) in * end.
  assert (Hlen : length h1 = S (S (S (length h))))
    by (unfold h1; rewrite length_app; simpl; lia).
  assert (Hm : h1 !! S (length h)
               = Some (made (RMul b (length h) (S (length h))) "*" [b; length h]
                         (py_mul (data nb) (of_int (-1)))))
    by (unfold h1; rewrite lookup_app_r by lia;
        now replace (S (length h) - length h) with 1 by lia).
  assert (Hout : h1 !! S (S (length h))
                 = Some (made (RAdd a (S (length h)) (S (S (length h)))) "+"
                           [a; S (length h)]
                           (py_add (data na) (py_mul (data nb) (of_int (-1))))))
    by (unfold h1; rewrite lookup_app_r by lia;
        now replace (S (S (length h)) - length h) with 2 by lia).
  assert (Hc : h1 !! length h = Some (leaf (of_int (-1))))
    by (unfold h1; now apply list_lookup_middle).
  assert (Hin : S (length h) ∈ _prev (made (RAdd a (S (length h)) (S (S (length h))))
                                        "+" [a; S (length h)]
                                        (py_add (data na)
                                           (py_mul (data nb) (of_int (-1)))))).
  { destruct (Hw _ _ Hout) as (_ & Htg & _). simpl in Htg.
    rewrite Forall_forall in Htg. apply Htg. right. left. }
  destruct (top_pair_amounts h1 (S (length h)) _ _ fuel h' Hw Hlen Hm Hout Hin
              eq_refl Hfuel Hrun) as (l & Hl & Hnl & Hroot & Hgm & Hnm & Hd).
  pose proof (lookup_lt_Some _ _ _ Ha) as Halt.
  simpl in Hl. rewrite Hroot in Hl. injection Hl as <-.
  unfold amounts_to in Hgm. simpl in Hgm.
  rewrite decide_False in Hgm by lia. rewrite decide_True in Hgm by reflexivity.
  simpl in Hgm. unfold accumulate in Hgm. simpl in Hgm.
  split; [exact Hnl|]. rewrite Hnm. simpl. rewrite Hgm, !Hd.
  unfold data_of. rewrite Hc. unfold h1. rewrite lookup_app_l by now apply lookup_lt_Some in Hb.
  now rewrite Hb.
Qed.

(** The closures of [a / b], after [(a / b).backward()] returned. *)
Lemma truediv_amounts h a b (na nb : Value num) (inv : num) (fuel : nat)
    (h' : list (Value num)) :
  wf h -> h !! a = Some na -> h !! b = Some nb ->
  py_pow (data nb) (of_int (-1)) = Ok inv ->
  S (length h) < fuel ->
  backward fuel (S (length h)) (__truediv__ a (Node b) h).1 = (h', Ok tt) ->
  node_amounts h' (S (length h))
  = Ok [(a, py_mul inv (of_int 1)); (length h, py_mul (data na) (of_int 1))]
  /\ node_amounts h' (length h)
     = match py_pow (data nb) (py_sub (of_int (-1)) (of_int 1)) with
       | Ok inv2 =>
           Ok [(b, py_mul (py_mul (of_int (-1)) inv2)
                     (py_add (of_int 0) (py_mul (data na) (of_int 1))))]
       | Raise e => Raise e
       end.
Proof.
  intros Hwf Ha Hb Hinv Hfuel Hrun.
  destruct (op_spec_run (__truediv__ a (Node b)) h (op_spec_truediv a (Node b)))
    as (_ & Hw & _).
  specialize (Hw Hwf). rewrite (truediv_node_eq h a b na nb Ha Hb), Hinv in Hw, Hrun.
  simpl fst in Hw, Hrun.
  match type of Hw with wf ?k => set (h1 := k) in * end.
  assert (Hlen : length h1 = S (S (length h)))
    by (unfold h1; rewrite length_app; simpl; lia).
  assert (Hp : h1 !! length h
               = Some (made (RPow b (of_int (-1)) (length h)) "**" [b] inv))
    by (unfold h1; now apply list_lookup_middle).
  assert (Hout : h1 !! S (length h)
                 = Some (made (RMul a (length h) (S (length h))) "*" [a; length h]
                           (py_mul (data na) inv)))
    by (unfold h1; apply lookup_snoc2).
  assert (Hin : length h ∈ _prev (made (RMul a (length h) (S (length h))) "*"
                                    [a; length h] (py_mul (data na) inv))).
  { destruct (Hw _ _ Hout) as (_ & Htg & _). simpl in Htg.
    rewrite Forall_forall in Htg. apply Htg. right. left. }
  destruct (top_pair_amounts h1 (length h) _ _ fuel h' Hw Hlen Hp Hout Hin
              eq_refl Hfuel Hrun) as (l & Hl & Hnl & Hroot & Hgm & Hnm & Hd).
  pose proof (lookup_lt_Some _ _ _ Ha) as Halt.
  pose proof (lookup_lt_Some _ _ _ Hb) as Hblt.
  assert (Hda : data_of h1 a = data na)
    by (unfold data_of, h1; rewrite lookup_app_l by lia; now rewrite Ha).
  assert (Hdb : data_of h1 b = data nb)
    by (unfold data_of, h1; rewrite lookup_app_l by lia; now rewrite Hb).
  assert (Hdp : data_of h1 (length h) = inv)
    by (unfold data_of; now rewrite Hp).
  simpl in Hl. rewrite Hroot, !Hd, Hda, Hdp in Hl. injection Hl as <-.
  unfold amounts_to in Hgm. simpl in Hgm.
  rewrite decide_False in Hgm by lia. rewrite decide_True in Hgm by reflexivity.
  simpl in Hgm. unfold accumulate in Hgm. simpl in Hgm.
  split; [exact Hnl|]. rewrite Hnm. simpl. rewrite Hgm, !Hd, Hdb.
  reflexivity.
Qed.

End DerivedEquations.

(** ** Doubles: the scenarios of the specification *)

Section DoubleResults.

Import PyFloat.

Context (c_exp : float -> outcome float) (c_pow : float -> float -> outcome float).
Context (sets : SetOrder).

Implicit Types (h : list (Value float)) (a b : ref).

(** C2, amended. In doubles, for a leaf [x = Value(d)] made after any
    store: [x + x] and [x * x] hold [x] as their single child, and both
    contributions reach [x.grad]. After [(x + x).backward()], [x.grad] is
    [2.0]. After [(x * x).backward()], [x.grad] is [(0.0 + d) + d], and
    [x.grad == 2 * x.data] holds exactly when [d] is no NaN. *)
Theorem shared_operand_accumulates h (d : float) (fuel : nat) :
  (exists nx ny,
     @double_backward float (float_arith c_exp c_pow) sets d (2 + fuel) h
     = (h ++ [nx; ny], Ok (length h, S (length h)))
     /\ data nx = d /\ _prev nx = [] /\ _prev ny = [length h]
     /\ data ny = (d + d)%float
     /\ grad nx = 2%float /\ grad ny = 1%float)
  /\ (exists nx ny,
        @square_backward float (float_arith c_exp c_pow) sets d (2 + fuel) h
        = (h ++ [nx; ny], Ok (length h, S (length h)))
        /\ data nx = d /\ _prev nx = [] /\ _prev ny = [length h]
        /\ data ny = (d * d)%float
        /\ grad nx = (0 + d + d)%float /\ grad ny = 1%float
        /\ (grad nx =? 2 * data nx)%float = negb (is_nan d)).
Proof.
  split.
  - rewrite (@double_backward_at float (float_arith c_exp c_pow) sets h d fuel).
    unfold placed, shift. cbn [map _prev _backward _op data grad shift_rule].
    rewrite !Nat.add_0_r, !Nat.add_1_r.
    do 2 eexists. split; [reflexivity|]. now repeat split.
  - rewrite (@square_backward_at float (float_arith c_exp c_pow) sets h d fuel).
    unfold placed, shift. cbn [map _prev _backward _op data grad shift_rule].
    rewrite !Nat.add_0_r, !Nat.add_1_r.
    do 2 eexists. split; [reflexivity|]. simpl.
    change (float_of_int 1) with 1%float. change (float_of_int 0) with 0%float.
    rewrite mul_one. repeat split.
    rewrite <- (mul_one d) at 1 2. apply square_grad_eqb.
Qed.

(** C5, amended. In doubles, [-a] is [a * -1], [a - b] is [a + (-b)] and
    [a / b] is [a * b ** -1], as calls. For nodes [a] and [b] of any store,
    [a - b] adds the constant [-1.0], the product [b * -1.0] and the sum,
    which holds the double [a.data - b.data]; [a / b] adds the power
    [b ** -1] and the product, which holds [a.data * b.data ** -1], the
    power being what [**] returns, or it raises what [**] raises and adds
    nothing. In a well-formed store, when [(a - b).backward()] returns,
    the closure of the sum has added [1.0] to [a.grad] and the closure of
    the product [-1.0] to [b.grad]; when [(a / b).backward()] returns, the
    closure of the product has added [b.data ** -1] to [a.grad] and the
    closure of the power [-(b.data ** -2) * (0.0 + a.data)] to [b.grad].
    For leaves [a = Value(x)] and [b = Value(y)] made after any
    store: [(a - b).backward()] leaves [a.grad = 1.0] and [b.grad = -1.0];
    [(a / b).backward()] leaves [a.grad = 0.0 + y ** -1] and
    [b.grad = 0.0 + (-(y ** -2)) * (0.0 + x)], the products and sums being
    those of doubles, or it raises what either power raises. *)
Theorem derived_operators h a b (na nb : Value float) (x y : float) (fuel : nat) :
  h !! a = Some na -> h !! b = Some nb ->
  (@__neg__ float (float_arith c_exp c_pow) sets a
   = @__mul__ float (float_arith c_exp c_pow) sets a (Num (-1)%float)
   /\ @__sub__ float (float_arith c_exp c_pow) sets a (Node b)
      = (do n <- @__neg__ float (float_arith c_exp c_pow) sets b ;
         @__add__ float (float_arith c_exp c_pow) sets a (Node n))
   /\ @__truediv__ float (float_arith c_exp c_pow) sets a (Node b)
      = (do inv <- @__pow__ float (float_arith c_exp c_pow) sets b (Num (-1)%float) ;
         @__mul__ float (float_arith c_exp c_pow) sets a (Node inv)))
  /\ (exists c m out,
        @__sub__ float (float_arith c_exp c_pow) sets a (Node b) h
        = (h ++ [c; m; out], Ok (S (S (length h))))
        /\ data c = (-1)%float /\ _backward c = RNone
        /\ data m = (- data nb)%float
        /\ _backward m = RMul b (length h) (S (length h))
        /\ data out = (data na - data nb)%float
        /\ _backward out = RAdd a (S (length h)) (S (S (length h))))
  /\ match float_pow c_pow (data nb) (-1) with
     | Ok inv =>
         exists p out,
           @__truediv__ float (float_arith c_exp c_pow) sets a (Node b) h
           = (h ++ [p; out], Ok (S (length h)))
           /\ data p = inv /\ _backward p = RPow b (-1)%float (length h)
           /\ data out = (data na * inv)%float
           /\ _backward out = RMul a (length h) (S (length h))
     | Raise e =>
         @__truediv__ float (float_arith c_exp c_pow) sets a (Node b) h = (h, Raise e)
     end
  /\ (wf h ->
      forall (depth : nat) (h' : list (Value float)),
        S (S (length h)) < depth ->
        @backward float (float_arith c_exp c_pow) depth (S (S (length h)))
          (@__sub__ float (float_arith c_exp c_pow) sets a (Node b) h).1
        = (h', Ok tt) ->
        @node_amounts float (float_arith c_exp c_pow) h' (S (S (length h)))
        = Ok [(a, 1%float); (S (length h), 1%float)]
        /\ @node_amounts float (float_arith c_exp c_pow) h' (S (length h))
           = Ok [(b, (-1)%float); (length h, data nb)])
  /\ (wf h ->
      forall (inv : float) (depth : nat) (h' : list (Value float)),
        float_pow c_pow (data nb) (-1) = Ok inv ->
        S (length h) < depth ->
        @backward float (float_arith c_exp c_pow) depth (S (length h))
          (@__truediv__ float (float_arith c_exp c_pow) sets a (Node b) h).1
        = (h', Ok tt) ->
        @node_amounts float (float_arith c_exp c_pow) h' (S (length h))
        = Ok [(a, inv); (length h, data na)]
        /\ @node_amounts float (float_arith c_exp c_pow) h' (length h)
           = match float_pow c_pow (data nb) (-2) with
             | Ok inv2 => Ok [(b, (- inv2 * (0 + data na))%float)]
             | Raise e => Raise e
             end)
  /\ (exists nx ny c m out,
        @sub_backward float (float_arith c_exp c_pow) sets x y (3 + fuel) h
        = (h ++ [nx; ny; c; m; out], Ok (length h, S (length h), 4 + length h))
        /\ data nx = x /\ data ny = y /\ data out = (x - y)%float
        /\ grad nx = 1%float /\ grad ny = (-1)%float)
  /\ match float_pow c_pow y (-1) with
     | Raise e =>
         @truediv_backward float (float_arith c_exp c_pow) sets x y (3 + fuel) h
         = (h ++ [float_leaf x; float_leaf y], Raise e)
     | Ok inv =>
         match float_pow c_pow y (-2) with
         | Ok inv2 =>
             exists nx ny p out,
               @truediv_backward float (float_arith c_exp c_pow) sets x y (3 + fuel) h
               = (h ++ [nx; ny; p; out], Ok (length h, S (length h), 3 + length h))
               /\ data nx = x /\ data ny = y /\ data out = (x * inv)%float
               /\ grad nx = (0 + inv)%float
               /\ grad ny = (0 + - inv2 * (0 + x))%float
         | Raise e =>
             exists nx ny p out,
               @truediv_backward float (float_arith c_exp c_pow) sets x y (3 + fuel) h
               = (h ++ [nx; ny; p; out], Raise e)
               /\ grad nx = (0 + inv)%float /\ grad ny = 0%float
         end
     end.
Proof.
  intros Ha Hb. split; [|split; [|split; [|split; [|split; [|split]]]]].
  - repeat split.
  - rewrite (@sub_node_eq float (float_arith c_exp c_pow) sets h a b na nb Ha Hb).
    do 3 eexists. split; [reflexivity|]. simpl.
    change (float_of_int (-1)) with (-1)%float.
    rewrite mul_minus_one, add_opp. now repeat split.
  - rewrite (@truediv_node_eq float (float_arith c_exp c_pow) sets h a b na nb Ha Hb).
    change (@py_pow float (float_arith c_exp c_pow)) with (float_pow c_pow).
    change (@of_int float (float_arith c_exp c_pow) (-1)) with (-1)%float.
    destruct (float_pow c_pow (data nb) (-1)) as [inv|e]; [|reflexivity].
    do 2 eexists. split; [reflexivity|]. now repeat split.
  - intros Hwf depth h' Hdepth Hrun.
    destruct (@sub_amounts float (float_arith c_exp c_pow) sets h a b na nb depth h'
                Hwf Ha Hb Hdepth Hrun) as [Hout Hm].
    split; [exact Hout|]. rewrite Hm.
    change (@py_mul float (float_arith c_exp c_pow)) with PrimFloat.mul.
    change (@py_add float (float_arith c_exp c_pow)
              (@of_int float (float_arith c_exp c_pow) 0)
              (@of_int float (float_arith c_exp c_pow) 1)) with 1%float.
    change (@of_int float (float_arith c_exp c_pow) (-1)) with (-1)%float.
    now rewrite !mul_one.
  - intros Hwf inv depth h' Hinv Hdepth Hrun.
    destruct (@truediv_amounts float (float_arith c_exp c_pow) sets h a b na nb inv
                depth h' Hwf Ha Hb Hinv Hdepth Hrun) as [Hout Hp].
    rewrite Hout, Hp.
    change (@py_pow float (float_arith c_exp c_pow)) with (float_pow c_pow).
    change (@py_sub float (float_arith c_exp c_pow)
              (@of_int float (float_arith c_exp c_pow) (-1))
              (@of_int float (float_arith c_exp c_pow) 1)) with (-2)%float.
    change (@py_mul float (float_arith c_exp c_pow)) with PrimFloat.mul.
    change (@py_add float (float_arith c_exp c_pow)) with PrimFloat.add.
    change (@of_int float (float_arith c_exp c_pow) (-1)) with (-1)%float.
    change (@of_int float (float_arith c_exp c_pow) 1) with 1%float.
    change (@of_int float (float_arith c_exp c_pow) 0) with 0%float.
    rewrite !mul_one. split; [reflexivity|].
    destruct (float_pow c_pow (data nb) (-2)) as [inv2|e]; [|reflexivity].
    now rewrite (mul_comm (-1) inv2), mul_minus_one.
  - destruct (@sub_backward_at float (float_arith c_exp c_pow) sets h x y fuel)
      as (cs1 & cs2 & _ & _ & Hrun).
    rewrite Hrun. unfold placed, shift.
    cbn [map _prev _backward _op data grad shift_rule].
    rewrite !Nat.add_0_r, !Nat.add_1_r.
    replace (length h + 4) with (4 + length h) by lia.
    do 5 eexists. split; [reflexivity|]. simpl.
    change (float_of_int (-1)) with (-1)%float.
    rewrite mul_minus_one, add_opp. now repeat split.
  - pose proof (@truediv_backward_at float (float_arith c_exp c_pow) sets h x y fuel)
      as Hrun.
    change (@py_pow float (float_arith c_exp c_pow)) with (float_pow c_pow) in Hrun.
    change (@py_sub float (float_arith c_exp c_pow) (@of_int float _ (-1))
              (@of_int float _ 1)) with (-2)%float in Hrun.
    change (@of_int float (float_arith c_exp c_pow) (-1)) with (-1)%float in Hrun.
    destruct (float_pow c_pow y (-1)) as [inv|e].
    + destruct Hrun as (cs & _ & Hrun). rewrite Hrun.
      unfold placed, shift. cbn [map _prev _backward _op data grad shift_rule].
      rewrite !Nat.add_0_r, !Nat.add_1_r.
      replace (length h + 3) with (3 + length h) by lia.
      destruct (float_pow c_pow y (-2)) as [inv2|e].
      * do 4 eexists. split; [reflexivity|]. simpl.
        change (float_of_int 1) with 1%float. change (float_of_int 0) with 0%float.
        change (float_of_int (-1)) with (-1)%float.
        rewrite !mul_one, (mul_comm (-1) inv2), mul_minus_one. now repeat split.
      * do 4 eexists. split; [reflexivity|]. simpl.
        change (float_of_int 1) with 1%float. change (float_of_int 0) with 0%float.
        rewrite !mul_one. now split.
    + rewrite Hrun. unfold placed, shift. simpl map. reflexivity.
Qed.


End DoubleResults.

Section DoubleFacts.

Import PyFloat.

(** C2, as stated, fails for a leaf that holds NaN: after
    [(x * x).backward()], [x.grad == 2 * x.data] is [False]. *)
Lemma square_of_nan :
  exists d : float,
    forall c_exp c_pow (sets : SetOrder) (fuel : nat),
      exists h nx,
        @square_backward float (float_arith c_exp c_pow) sets d (2 + fuel) []
        = (h, Ok (0, 1))
        /\ h !! 0 = Some nx
        /\ data nx = d
        /\ (grad nx =? 2 * data nx)%float = false.
Proof.
  exists nan. intros c_exp c_pow sets fuel.
  rewrite (@square_backward_at float (float_arith c_exp c_pow) sets [] nan fuel).
  do 2 eexists. split; [reflexivity|]. split; [reflexivity|]. now split.
Qed.

(** C6, as stated, fails on a graph that holds a gradient from before: with
    [x.grad = 5.0] and [y = x + x], the first [y.backward()] leaves
    [x.grad = 7.0]; after the reset, the second leaves [x.grad = 2.0]. *)
Lemma stale_grad_round_trip :
  exists (h : list (Value float)) (y : ref) (nodes : list ref),
    wf h /\ (forall v, v ∈ nodes <-> reach h y v)
    /\ forall c_exp c_pow (fuel : nat),
         exists h1 h2,
           @backward float (float_arith c_exp c_pow) (2 + fuel) y h = (h1, Ok tt)
           /\ (run @zero_grad float (float_arith c_exp c_pow) nodes ;
               @backward float (float_arith c_exp c_pow) (2 + fuel) y) h1
              = (h2, Ok tt)
           /\ map grad h1 = [7; 1]%float
           /\ map grad h2 = [2; 1]%float.
Proof.
  exists stale_graph, 1, [0; 1]. split; [|split].
  - apply wf_from_wf. simpl. unfold node_ok. simpl. repeat constructor.
  - intros v. split.
    + intros Hv. apply elem_of_cons in Hv as [->|Hv].
      * eapply reach_step; [reflexivity | | constructor]. simpl. left.
      * apply elem_of_cons in Hv as [->|Hv]; [constructor | inversion Hv].
    + intros Hr. inversion Hr as [|? n c ? Hn Hc Hr']; subst; [repeat constructor|].
      injection Hn as <-. simpl in Hc.
      apply elem_of_cons in Hc as [->|Hc]; [|inversion Hc].
      inversion Hr' as [|? n' c' ? Hn' Hc' _]; subst; [repeat constructor|].
      injection Hn' as <-. simpl in Hc'. inversion Hc'.
  - intros c_exp c_pow fuel. do 2 eexists. repeat split.
Qed.

(** C5, as stated, fails for [a = Value(7.0)] and [b = Value(3.0)] with a
    [**] that rounds to nearest at [3.0 ** -1], [3.0 ** -2] and
    [3.0 ** 2], and there is such a [**]: after [(a / b).backward()],
    [b.grad] is [(-1 * 3.0 ** -2) * 7.0 = -0.7777777777777777], which is
    not the double [-7.0 / 3.0 ** 2 = -0.7777777777777778]. *)
Lemma quotient_gradient_rounds :
  exists x y : float,
    (exists c_pow : float -> float -> outcome float,
       c_pow y (-1)%float = Ok (1 / y)%float
       /\ c_pow y (-2)%float = Ok (1 / (y * y))%float
       /\ c_pow y 2%float = Ok (y * y)%float)
    /\ forall c_exp c_pow (sets : SetOrder) (fuel : nat),
         c_pow y (-1)%float = Ok (1 / y)%float ->
         c_pow y (-2)%float = Ok (1 / (y * y))%float ->
         c_pow y 2%float = Ok (y * y)%float ->
         exists h ny sq,
           @truediv_backward float (float_arith c_exp c_pow) sets x y (3 + fuel) []
           = (h, Ok (0, 1, 3))
           /\ h !! 1 = Some ny
           /\ float_pow c_pow y 2 = Ok sq
           /\ grad ny = (-0x1.8e38e38e38e38p-1)%float
           /\ (- x / sq)%float = (-0x1.8e38e38e38e39p-1)%float
           /\ (grad ny =? - x / sq)%float = false.
Proof.
  exists 7%float, 3%float. split.
  { exists (fun u v => if (v =? 2)%float then Ok (u * u)%float
                       else if (v =? -1)%float then Ok (1 / u)%float
                       else Ok (1 / (u * u))%float).
    now repeat split. }
  intros c_exp c_pow sets fuel H1 H2 H3.
  pose proof (@truediv_backward_at float (float_arith c_exp c_pow) sets [] 7%float
                3%float fuel) as Hrun.
  change (@py_pow float (float_arith c_exp c_pow) 3%float
            (@of_int float (float_arith c_exp c_pow) (-1)))
    with (c_pow 3 (-1))%float in Hrun.
  change (@py_pow float (float_arith c_exp c_pow) 3%float
            (@py_sub float (float_arith c_exp c_pow)
               (@of_int float (float_arith c_exp c_pow) (-1))
               (@of_int float (float_arith c_exp c_pow) 1)))
    with (c_pow 3 (-2))%float in Hrun.
  rewrite H1 in Hrun. destruct Hrun as (cs & _ & Hrun). rewrite H2 in Hrun.
  rewrite Hrun. do 3 eexists. split; [reflexivity|]. split; [reflexivity|].
  split; [exact H3|]. now repeat split.
Qed.

End DoubleFacts.

(** ** Doubles: [exp], numbers as operands, reflected operators *)

Section DoubleOperators.

Import PyFloat.

Context (c_exp : float -> outcome float) (c_pow : float -> float -> outcome float).
Context (sets : SetOrder).

Implicit Types (h : list (Value float)) (a : ref).

(** X8. In doubles, for a node [a] of any store, [a.exp()] adds one node
    with the single child [a], which holds what [math.exp(a.data)]
    returns, or it raises what [math.exp] raises and adds nothing. The
    value is [0.0] when [a.data] is below [-746]. The closure of the new
    node adds [out.data * out.grad] to [a.grad]. *)
Theorem exp_in_doubles h a (na : Value float) :
  h !! a = Some na ->
  @exp float (float_arith c_exp c_pow) sets a h
  = match float_exp c_exp (data na) with
    | Raise e => (h, Raise e)
    | Ok d =>
        (h ++ [mkValue (RExp a (length h)) (Some "exp"%string) [a] d 0%float],
         Ok (length h))
    end
  /\ ((data na <? -746)%float = true ->
      @exp float (float_arith c_exp c_pow) sets a h
      = (h ++ [mkValue (RExp a (length h)) (Some "exp"%string) [a] 0%float 0%float],
         Ok (length h)))
  /\ (forall (k : list (Value float)) (out : ref) (ka kout : Value float),
        k !! a = Some ka -> k !! out = Some kout ->
        _backward kout = RExp a out ->
        @call_backward float (float_arith c_exp c_pow) out k
        = (alter (with_grad (grad ka + data kout * grad kout)%float) a k, Ok tt)).
Proof.
  intros Ha.
  assert (Hrun :
    @exp float (float_arith c_exp c_pow) sets a h
    = match float_exp c_exp (data na) with
      | Raise e => (h, Raise e)
      | Ok d =>
          (h ++ [mkValue (RExp a (length h)) (Some "exp"%string) [a] d 0%float],
           Ok (length h))
      end).
  { rewrite (@exp_node_eq float (float_arith c_exp c_pow) sets h a na Ha).
    change (@math_exp float (float_arith c_exp c_pow)) with (float_exp c_exp).
    destruct (float_exp c_exp (data na)) as [d|e]; [|reflexivity].
    unfold made. now rewrite set_iter_single. }
  split; [exact Hrun|]. split.
  - intros Hlt. now rewrite Hrun, (float_exp_underflow c_exp _ Hlt).
  - intros k out ka kout Hka Hkout Hrule.
    exact (@exp_closure_at float (float_arith c_exp c_pow) k a out ka kout
             Hka Hkout Hrule).
Qed.

Lemma yields_snoc2 h (m : M float ref) (n1 n2 : Value float) (d : float) :
  m h = (h ++ [n1; n2], Ok (S (length h))) -> data n2 = d -> yields m h d.
Proof.
  intros Hm Hd. exists (h ++ [n1; n2]), (S (length h)), n2.
  split; [exact Hm|]. split; [lia|]. split; [apply lookup_snoc2 | exact Hd].
Qed.

(** X9. In doubles, for a node [a] of any store and a number [x]: every
    operator with a number on one side returns a new node. [a + x] and
    [x + a] hold the same double, and so do [a * x] and [x * a]; [-a]
    holds [-a.data]; [a - x] holds [a.data - x] and [x - a] holds
    [x - a.data]. [a / x] holds [a.data * x ** -1] and [x / a] holds
    [a.data ** -1 * x], the power being what [**] returns; when [**]
    raises, the call raises the same, [a / x] having added the node of
    [x] and [x / a] nothing. *)
Theorem number_operands h a (na : Value float) (x : float) :
  h !! a = Some na ->
  yields (@__add__ float (float_arith c_exp c_pow) sets a (Num x)) h (data na + x)%float
  /\ yields (@__radd__ float (float_arith c_exp c_pow) sets a x) h (x + data na)%float
  /\ yields (@__mul__ float (float_arith c_exp c_pow) sets a (Num x)) h (data na * x)%float
  /\ yields (@__rmul__ float (float_arith c_exp c_pow) sets a x) h (x * data na)%float
  /\ yields (@__neg__ float (float_arith c_exp c_pow) sets a) h (- data na)%float
  /\ yields (@__sub__ float (float_arith c_exp c_pow) sets a (Num x)) h (data na - x)%float
  /\ yields (@__rsub__ float (float_arith c_exp c_pow) sets a x) h (x - data na)%float
  /\ match float_pow c_pow x (-1) with
     | Ok inv =>
         yields (@__truediv__ float (float_arith c_exp c_pow) sets a (Num x)) h
           (data na * inv)%float
     | Raise e =>
         @__truediv__ float (float_arith c_exp c_pow) sets a (Num x) h
         = (h ++ [float_leaf x], Raise e)
     end
  /\ match float_pow c_pow (data na) (-1) with
     | Ok inv =>
         yields (@__rtruediv__ float (float_arith c_exp c_pow) sets a x) h
           (inv * x)%float
     | Raise e =>
         @__rtruediv__ float (float_arith c_exp c_pow) sets a x h = (h, Raise e)
     end.
Proof.
  intros Ha.
  pose proof (@add_num_eq float (float_arith c_exp c_pow) sets h a na x Ha) as Hadd.
  pose proof (@mul_num_eq float (float_arith c_exp c_pow) sets h a na x Ha) as Hmul.
  pose proof (@mul_num_eq float (float_arith c_exp c_pow) sets h a na (-1)%float Ha)
    as Hneg.
  split; [|split; [|split; [|split; [|split; [|split; [|split; [|split]]]]]]].
  - eapply yields_snoc2; [exact Hadd|reflexivity].
  - eapply yields_snoc2; [exact Hadd|]. simpl. apply add_comm.
  - eapply yields_snoc2; [exact Hmul|reflexivity].
  - eapply yields_snoc2; [exact Hmul|]. simpl. apply mul_comm.
  - eapply yields_snoc2; [exact Hneg|]. simpl. apply mul_minus_one.
  - eapply yields_snoc2;
      [exact (@add_num_eq float (float_arith c_exp c_pow) sets h a na (- x)%float Ha)|].
    simpl. apply add_opp.
  - unfold yields, __rsub__, __radd__.
    match type of Hneg with _ = (?k, _) => set (h1 := k) in * end.
    assert (Hn : h1 !! S (length h)
                 = Some (@made float (float_arith c_exp c_pow) sets
                           (RMul a (length h) (S (length h))) "*"
                           [a; length h] (data na * -1)%float))
      by apply lookup_snoc2.
    pose proof (@add_num_eq float (float_arith c_exp c_pow) sets h1 (S (length h)) _ x Hn)
      as Hadd2.
    do 3 eexists. split; [|split; [|split]].
    + rewrite (bind_eq _ _ h h1 (S (length h))) by exact Hneg. exact Hadd2.
    + unfold h1. rewrite length_app. simpl. lia.
    + apply lookup_snoc2.
    + simpl. rewrite mul_minus_one, add_comm. apply add_opp.
  - unfold __truediv__, coerce.
    set (h1 := h ++ [float_leaf x]).
    assert (Hinit : @__init__ float (float_arith c_exp c_pow) sets x [] None h
                    = (h1, Ok (length h))).
    { unfold __init__, h1, float_leaf. now rewrite set_iter_nil. }
    assert (Hl : h1 !! length h = Some (float_leaf x)) by now apply list_lookup_middle.
    assert (Ha1 : h1 !! a = Some na) by now apply lookup_app_l_Some.
    destruct (float_pow c_pow x (-1)) as [inv|e] eqn:Hp.
    + pose proof (@pow_num_eq float (float_arith c_exp c_pow) sets h1 (length h)
                    (float_leaf x) (-1)%float inv Hl Hp) as Hpow.
      match type of Hpow with _ = (?k, _) => set (h2 := k) in * end.
      assert (Hi : h2 !! length h1
                   = Some (@made float (float_arith c_exp c_pow) sets
                             (RPow (length h) (-1)%float (length h1)) "**"
                             [length h] inv))
        by now apply list_lookup_middle.
      assert (Ha2 : h2 !! a = Some na) by now apply lookup_app_l_Some.
      pose proof (@mul_node_eq float (float_arith c_exp c_pow) sets h2 a (length h1)
                    _ _ Ha2 Hi) as Hm.
      do 3 eexists. split; [|split; [|split]].
      * rewrite (bind_eq _ _ h h1 (length h)) by exact Hinit.
        rewrite (bind_eq _ _ h1 h2 (length h1)) by exact Hpow. exact Hm.
      * unfold h2, h1. rewrite !length_app. simpl. lia.
      * now apply list_lookup_middle.
      * reflexivity.
    + rewrite (bind_eq _ _ h h1 (length h)) by exact Hinit.
      apply bind_raise.
      exact (@pow_raise_eq float (float_arith c_exp c_pow) sets h1 (length h)
               (float_leaf x) (-1)%float e Hl Hp).
  - unfold __rtruediv__, __rmul__.
    destruct (float_pow c_pow (data na) (-1)) as [inv|e] eqn:Hp.
    + pose proof (@pow_num_eq float (float_arith c_exp c_pow) sets h a na (-1)%float inv
                    Ha Hp) as Hpow.
      match type of Hpow with _ = (?k, _) => set (h1 := k) in * end.
      assert (Hi : h1 !! length h
                   = Some (@made float (float_arith c_exp c_pow) sets
                             (RPow a (-1)%float (length h)) "**" [a] inv))
        by now apply list_lookup_middle.
      pose proof (@mul_num_eq float (float_arith c_exp c_pow) sets h1 (length h) _ x Hi)
        as Hm.
      do 3 eexists. split; [|split; [|split]].
      * rewrite (bind_eq _ _ h h1 (length h)) by exact Hpow. exact Hm.
      * unfold h1. rewrite length_app. simpl. lia.
      * apply lookup_snoc2.
      * reflexivity.
    + apply bind_raise.
      exact (@pow_raise_eq float (float_arith c_exp c_pow) sets h a na (-1)%float e
               Ha Hp).
Qed.

End DoubleOperators.

(** ** [micrograd/nn.py]: the constructors *)

Section NetworkInit.

Import nn.

Context {num : Type} {arith : Arith num} {sets : SetOrder}.

Implicit Types (h : list (Value num)) (uniform : nat -> num).

Lemma init_weights_eq uniform n t h :
  init_weights uniform n t h
  = (h ++ map (fun i => leaf (uniform i)) (seq t n), Ok (seq (length h) n)).
Proof.
  revert t h. induction n as [|n IH]; intros t h; simpl.
  - unfold ret. now rewrite app_nil_r.
  - rewrite (bind_eq _ _ h (h ++ [leaf (uniform t)]) (length h)) by reflexivity.
    rewrite (bind_eq _ _ _ _ _ (IH (S t) (h ++ [leaf (uniform t)]))).
    unfold ret. rewrite length_app, <- app_assoc. simpl.
    now rewrite Nat.add_1_r.
Qed.

Lemma Neuron_init_eq uniform n_inputs t h :
  Neuron_init uniform n_inputs t h
  = (h ++ neuron_nodes uniform n_inputs t,
     Ok (mkNeuron (seq (length h) n_inputs) (length h + n_inputs), t + n_inputs)).
Proof.
  unfold Neuron_init.
  rewrite (bind_eq _ _ _ _ _ (init_weights_eq uniform n_inputs t h)).
  unfold bind, __init__, ret, neuron_nodes, leaf.
  now rewrite length_app, length_map, length_seq, <- app_assoc.
Qed.

Lemma neuron_nodes_length uniform n_inputs t :
  length (neuron_nodes uniform n_inputs t) = n_inputs + 1.
Proof. unfold neuron_nodes. now rewrite length_app, length_map, length_seq. Qed.

Lemma neuron_nodes_leaves uniform n_inputs t :
  Forall (fun n => exists d, n = leaf d) (neuron_nodes uniform n_inputs t).
Proof.
  unfold neuron_nodes. apply Forall_app. split.
  - apply Forall_map, Forall_forall. intros i _. now eexists.
  - constructor; [now eexists | constructor].
Qed.

Lemma seq_snoc_app (s n : nat) : seq s n ++ [s + n] = seq s (n + 1).
Proof. now rewrite seq_app. Qed.

Lemma Neuron_in_mono h h' (n : Neuron) :
  length h <= length h' -> Neuron_in h n -> Neuron_in h' n.
Proof.
  intros Hle. unfold Neuron_in. intros HF.
  eapply Forall_impl; [exact HF|]. simpl. intros v Hv. lia.
Qed.

Lemma init_neurons_spec uniform n_inputs n_outputs t h :
  exists new ns,
    init_neurons uniform n_inputs n_outputs t h
    = (h ++ new, Ok (ns, t + n_outputs * n_inputs))
    /\ flat_map Neuron_parameters ns = seq (length h) (length new)
    /\ length new = n_outputs * (n_inputs + 1)
    /\ Forall (fun n => exists d, n = leaf d) new
    /\ length ns = n_outputs
    /\ Forall (Neuron_in (h ++ new)) ns.
Proof.
  revert t h. induction n_outputs as [|k IH]; intros t h; simpl.
  - exists [], []. rewrite app_nil_r, Nat.add_0_r. repeat split; constructor.
  - destruct (IH (t + n_inputs) (h ++ neuron_nodes uniform n_inputs t))
      as (new & ns & Hrun & Hps & Hlen & Hleaf & Hns & Hin).
    exists (neuron_nodes uniform n_inputs t ++ new),
      (mkNeuron (seq (length h) n_inputs) (length h + n_inputs) :: ns).
    rewrite length_app, neuron_nodes_length in Hps.
    split; [|split; [|split; [|split; [|split]]]].
    + rewrite (bind_eq _ _ _ _ _ (Neuron_init_eq uniform n_inputs t h)). simpl.
      rewrite (bind_eq _ _ _ _ _ Hrun). unfold ret. simpl.
      rewrite <- app_assoc. do 3 f_equal. lia.
    + simpl. unfold Neuron_parameters at 1. simpl. rewrite Hps.
      rewrite seq_snoc_app, length_app, neuron_nodes_length.
      now rewrite <- seq_app.
    + rewrite length_app, neuron_nodes_length, Hlen. lia.
    + apply Forall_app. split; [apply neuron_nodes_leaves | exact Hleaf].
    + simpl. now rewrite Hns.
    + rewrite app_assoc. constructor; [|exact Hin].
      unfold Neuron_in, Neuron_parameters. simpl. rewrite seq_snoc_app.
      apply Forall_forall. intros v Hv. apply elem_of_seq in Hv.
      rewrite !length_app, neuron_nodes_length. lia.
Qed.

Lemma MLP_in_mono h h' (ls : list Layer) :
  length h <= length h' ->
  Forall (fun l => Forall (Neuron_in h) (neurons l)) ls ->
  Forall (fun l => Forall (Neuron_in h') (neurons l)) ls.
Proof.
  intros Hle HF. eapply Forall_impl; [exact HF|]. simpl. intros l Hl.
  eapply Forall_impl; [exact Hl|]. intros n. now apply Neuron_in_mono.
Qed.

Lemma init_layers_spec uniform n_inputs (n_outputs : list nat) t h :
  exists new ls,
    init_layers uniform n_inputs n_outputs t h
    = (h ++ new, Ok (ls, t + n_weights n_inputs n_outputs))
    /\ flat_map Layer_parameters ls = seq (length h) (length new)
    /\ length new = n_parameters n_inputs n_outputs
    /\ Forall (fun n => exists d, n = leaf d) new
    /\ map (fun l => length (neurons l)) ls = n_outputs
    /\ Forall (fun l => Forall (Neuron_in (h ++ new)) (neurons l)) ls.
Proof.
  revert n_inputs t h. induction n_outputs as [|n rest IH]; intros n_inputs t h; simpl.
  - exists [], []. rewrite app_nil_r, Nat.add_0_r. repeat split; constructor.
  - destruct (init_neurons_spec uniform n_inputs n t h)
      as (new1 & ns & Hrun1 & Hps1 & Hlen1 & Hleaf1 & Hns & Hin1).
    destruct (IH n (t + n * n_inputs) (h ++ new1))
      as (new2 & ls & Hrun2 & Hps2 & Hlen2 & Hleaf2 & Hls & Hin2).
    exists (new1 ++ new2), (mkLayer ns :: ls).
    rewrite length_app in Hps2.
    split; [|split; [|split; [|split; [|split]]]].
    + unfold Layer_init.
      rewrite (bind_eq _ _ h (h ++ new1) (mkLayer ns, t + n * n_inputs))
        by (now rewrite (bind_eq _ _ _ _ _ Hrun1)).
      simpl. rewrite (bind_eq _ _ _ _ _ Hrun2). unfold ret. simpl.
      rewrite <- app_assoc. do 3 f_equal. lia.
    + simpl. unfold Layer_parameters at 1. simpl. rewrite Hps1, Hps2.
      now rewrite length_app, <- seq_app.
    + rewrite length_app. lia.
    + apply Forall_app. now split.
    + simpl. now rewrite Hns, Hls.
    + rewrite app_assoc. constructor; [|exact Hin2]. simpl.
      eapply Forall_impl; [exact Hin1|]. intros nr. apply Neuron_in_mono.
      rewrite !length_app. lia.
Qed.

(** X10. [MLP(n_inputs, n_outputs)] adds its parameters to the store and
    nothing else: [n * (m + 1)] leaves with [grad] 0 for a layer of [n]
    neurons with [m] inputs, where [m] is the width of the layer before it;
    [parameters()] lists exactly these nodes, each once, in the order they
    were made; the layers have the widths asked for; and one number is
    drawn for every weight. *)
Theorem MLP_init_parameters uniform n_inputs (n_outputs : list nat) t h :
  exists new mlp,
    MLP_init uniform n_inputs n_outputs t h
    = (h ++ new, Ok (mlp, t + n_weights n_inputs n_outputs))
    /\ MLP_parameters mlp = seq (length h) (length new)
    /\ length new = n_parameters n_inputs n_outputs
    /\ Forall (fun n => exists d, n = leaf d) new
    /\ widths mlp = n_outputs
    /\ MLP_in (h ++ new) mlp.
Proof.
  destruct (init_layers_spec uniform n_inputs n_outputs t h)
    as (new & ls & Hrun & Hps & Hlen & Hleaf & Hls & Hin).
  exists new, (mkMLP ls). split; [|now repeat split].
  unfold MLP_init. now rewrite (bind_eq _ _ _ _ _ Hrun).
Qed.

End NetworkInit.

(** ** [micrograd/nn.py]: the calls *)

Section NetworkCalls.

Import nn.

Context {num : Type} {arith : Arith num} {sets : SetOrder}.

Implicit Types (h : list (Value num)) (v : ref).

Lemma data_of_prefix h h' v :
  h `prefix_of` h' -> v < length h -> data_of h' v = data_of h v.
Proof.
  intros [k ->] Hv. unfold data_of. now rewrite lookup_app_l by lia.
Qed.

Lemma value_of_prefix h h' (x : operand num) :
  h `prefix_of` h' -> operand_in h x -> value_of h' x = value_of h x.
Proof. destruct x as [v|r]; simpl; [apply data_of_prefix | reflexivity]. Qed.

Lemma values_of_prefix h h' (xs : list (operand num)) :
  h `prefix_of` h' -> Forall (operand_in h) xs ->
  map (value_of h') xs = map (value_of h) xs.
Proof.
  intros Hpre Hxs. induction Hxs as [|x xs Hx _ IH]; simpl; [reflexivity|].
  now rewrite IH, (value_of_prefix h h' x).
Qed.

Lemma operand_in_mono h h' (x : operand num) :
  h `prefix_of` h' -> operand_in h x -> operand_in h' x.
Proof.
  intros Hpre. apply prefix_length in Hpre. destruct x; simpl; [lia|tauto].
Qed.

Lemma operands_in_mono h h' (xs : list (operand num)) :
  h `prefix_of` h' -> Forall (operand_in h) xs -> Forall (operand_in h') xs.
Proof.
  intros Hpre HF. eapply Forall_impl; [exact HF|]. intros x.
  now apply operand_in_mono.
Qed.

Lemma refs_in_mono h h' (vs : list ref) :
  h `prefix_of` h' ->
  Forall (fun v => v < length h) vs -> Forall (fun v => v < length h') vs.
Proof.
  intros Hpre HF. apply prefix_length in Hpre.
  eapply Forall_impl; [exact HF|]. simpl. intros v Hv. lia.
Qed.

Lemma weighted_fold_prefix h h' (ws : list ref) (xs : list num) (acc : num) :
  h `prefix_of` h' -> Forall (fun v => v < length h) ws ->
  fold_left (fun acc p => py_add acc (py_mul (data_of h' p.1) p.2)) (zip ws xs) acc
  = fold_left (fun acc p => py_add acc (py_mul (data_of h p.1) p.2)) (zip ws xs) acc.
Proof.
  intros Hpre Hws. revert xs acc.
  induction Hws as [|wi ws Hwi _ IH]; intros xs acc; [reflexivity|].
  destruct xs as [|x xs]; [reflexivity|]. simpl.
  now rewrite IH, (data_of_prefix h h' wi).
Qed.

Lemma neuron_value_prefix h h' (n : Neuron) (xs : list num) :
  h `prefix_of` h' -> Neuron_in h n -> neuron_value h' n xs = neuron_value h n xs.
Proof.
  intros Hpre Hn. unfold Neuron_in, Neuron_parameters in Hn.
  apply Forall_app in Hn as [Hw Hb]. rewrite Forall_singleton in Hb.
  unfold neuron_value, weighted_sum.
  now rewrite (weighted_fold_prefix h h' (w n) xs _ Hpre Hw),
    (data_of_prefix h h' (b n) Hpre Hb).
Qed.

Lemma neurons_values_prefix h h' (ns : list Neuron) (xs : list num) :
  h `prefix_of` h' -> Forall (Neuron_in h) ns ->
  neurons_values h' ns xs = neurons_values h ns xs.
Proof.
  intros Hpre Hns. induction Hns as [|n ns Hn _ IH]; simpl; [reflexivity|].
  now rewrite IH, (neuron_value_prefix h h' n xs Hpre Hn).
Qed.

Lemma layer_value_prefix h h' (l : Layer) (x : shape) :
  h `prefix_of` h' -> Forall (Neuron_in h) (neurons l) ->
  layer_value h' l x = layer_value h l x.
Proof.
  intros Hpre Hl. unfold layer_value.
  destruct (neurons l) as [|n ns] eqn:Hns; [reflexivity|].
  destruct x as [x|xs]; [reflexivity|].
  now rewrite (neurons_values_prefix h h' (n :: ns) xs Hpre Hl).
Qed.

Lemma layers_value_prefix h h' (ls : list Layer) :
  h `prefix_of` h' ->
  Forall (fun l => Forall (Neuron_in h) (neurons l)) ls ->
  forall x, layers_value h' ls x = layers_value h ls x.
Proof.
  intros Hpre Hls. induction Hls as [|l ls Hl _ IH]; intros x; [reflexivity|].
  simpl. rewrite (layer_value_prefix h h' l x Hpre Hl).
  destruct (layer_value h l x) as [[x'|]|e]; [apply IH | reflexivity | reflexivity].
Qed.

Lemma neurons_values_length h (ns : list Neuron) (xs ts : list num) :
  neurons_values h ns xs = Ok ts -> length ts = length ns.
Proof.
  revert ts. induction ns as [|n ns IH]; intros ts; simpl.
  - intros [= <-]. reflexivity.
  - destruct (neuron_value h n xs) as [t|e]; [|discriminate].
    destruct (neurons_values h ns xs) as [ts'|e]; [|discriminate].
    intros [= <-]. simpl. now rewrite (IH ts' eq_refl).
Qed.

(** The operators that a neuron calls, on nodes of the store. *)

Lemma mul_operand_ok h v (x : operand num) :
  v < length h -> operand_in h x ->
  exists h' p,
    __mul__ v x h = (h', Ok p) /\ h `prefix_of` h' /\ p < length h'
    /\ data_of h' p = py_mul (data_of h v) (value_of h x).
Proof.
  intros Hv Hx. destruct (lookup_lt_is_Some_2 h v Hv) as [a Ha].
  assert (Hda : data_of h v = data a) by (unfold data_of; now rewrite Ha).
  destruct x as [o|r]; simpl in Hx.
  - destruct (lookup_lt_is_Some_2 h o Hx) as [nb Hb].
    do 2 eexists. split; [apply (mul_node_eq h v o a nb Ha Hb)|].
    split; [now apply prefix_app_r|]. split; [rewrite length_app; simpl; lia|].
    unfold data_of at 1. rewrite list_lookup_middle by reflexivity. simpl.
    rewrite Hda. unfold data_of. now rewrite Hb.
  - do 2 eexists. split; [apply (mul_num_eq h v a r Ha)|].
    split; [now apply prefix_app_r|]. split; [rewrite length_app; simpl; lia|].
    unfold data_of at 1. rewrite lookup_snoc2. simpl. now rewrite Hda.
Qed.

Lemma add_nodes_ok h v o :
  v < length h -> o < length h ->
  exists h' p,
    __add__ v (Node o) h = (h', Ok p) /\ h `prefix_of` h' /\ p < length h'
    /\ data_of h' p = py_add (data_of h v) (data_of h o).
Proof.
  intros Hv Ho. destruct (lookup_lt_is_Some_2 h v Hv) as [a Ha].
  destruct (lookup_lt_is_Some_2 h o Ho) as [nb Hb].
  do 2 eexists. split; [apply (add_node_eq h v o a nb Ha Hb)|].
  split; [now apply prefix_app_r|]. split; [rewrite length_app; simpl; lia|].
  unfold data_of. rewrite list_lookup_middle by reflexivity. simpl.
  now rewrite Ha, Hb.
Qed.

Lemma tanh_ok h v :
  v < length h ->
  match tanh_value (data_of h v) with
  | Ok t =>
      tanh v h = (h ++ [made (RTanh v (length h)) "tanh" [v] t], Ok (length h))
  | Raise e => tanh v h = (h, Raise e)
  end.
Proof.
  intros Hv. destruct (lookup_lt_is_Some_2 h v Hv) as [a Ha].
  rewrite (tanh_node_eq h v a Ha). unfold tanh_value, data_of. rewrite Ha.
  destruct (math_exp (py_mul (of_int 2) (data a))) as [ex|e]; [|reflexivity].
  now destruct (py_truediv (py_sub ex (of_int 1)) (py_add ex (of_int 1))).
Qed.

Lemma sum_products_ok (ws : list ref) :
  forall (xs : list (operand num)) (acc : ref) h,
    Forall (fun v => v < length h) ws -> Forall (operand_in h) xs ->
    acc < length h ->
    exists h' out,
      sum_products (zip ws xs) acc h = (h', Ok out)
      /\ h `prefix_of` h' /\ out < length h'
      /\ data_of h' out
         = fold_left (fun acc p => py_add acc (py_mul (data_of h p.1) p.2))
             (zip ws (map (value_of h) xs)) (data_of h acc).
Proof.
  induction ws as [|wi ws IH]; intros xs acc h Hws Hxs Hacc.
  - exists h, acc. now repeat split.
  - destruct xs as [|xi xs]; [exists h, acc; now repeat split|].
    apply Forall_cons in Hws as [Hwi Hws]. apply Forall_cons in Hxs as [Hxi Hxs].
    destruct (mul_operand_ok h wi xi Hwi Hxi) as (h1 & p & Hmul & Hpre1 & Hp & Hdp).
    assert (Hacc1 : acc < length h1) by (apply prefix_length in Hpre1; lia).
    destruct (add_nodes_ok h1 acc p Hacc1 Hp) as (h2 & acc' & Hadd & Hpre2 & Hacc' & Hda).
    assert (Hpre : h `prefix_of` h2) by (etrans; eassumption).
    destruct (IH xs acc' h2 (refs_in_mono h h2 ws Hpre Hws)
                (operands_in_mono h h2 xs Hpre Hxs) Hacc')
      as (h3 & out & Hsum & Hpre3 & Hout & Hdo).
    exists h3, out. split; [|split; [|split]].
    + simpl. rewrite (bind_eq _ _ _ _ _ Hmul), (bind_eq _ _ _ _ _ Hadd). exact Hsum.
    + etrans; eassumption.
    + exact Hout.
    + rewrite Hdo. simpl.
      rewrite (values_of_prefix h h2 xs Hpre Hxs).
      rewrite (weighted_fold_prefix h h2 ws _ _ Hpre Hws).
      now rewrite Hda, Hdp, (data_of_prefix h h1 acc Hpre1 Hacc).
Qed.

Lemma Neuron_call_ok h (n : Neuron) (xs : list (operand num)) :
  Neuron_in h n -> Forall (operand_in h) xs ->
  exists h',
    h `prefix_of` h'
    /\ match neuron_value h n (map (value_of h) xs) with
       | Ok t =>
           exists out,
             Neuron_call n (Several xs) h = (h', Ok (Fine out))
             /\ length h <= out < length h' /\ data_of h' out = t
       | Raise e => Neuron_call n (Several xs) h = (h', Raise e)
       end.
Proof.
  intros Hn Hxs. unfold Neuron_in, Neuron_parameters in Hn.
  apply Forall_app in Hn as [Hw Hb]. rewrite Forall_singleton in Hb.
  destruct (sum_products_ok (w n) xs (b n) h Hw Hxs Hb)
    as (h1 & pre & Hsum & Hpre1 & Hp & Hdp).
  pose proof (tanh_ok h1 pre Hp) as Htanh.
  unfold neuron_value, weighted_sum. rewrite <- Hdp.
  unfold Neuron_call. rewrite (bind_eq _ _ _ _ _ Hsum).
  destruct (tanh_value (data_of h1 pre)) as [t|e].
  - eexists. split; [|exists (length h1); split; [|split]].
    + etrans; [exact Hpre1 | now apply prefix_app_r].
    + now rewrite (bind_eq _ _ _ _ _ Htanh).
    + apply prefix_length in Hpre1. rewrite length_app. simpl. lia.
    + unfold data_of. now rewrite list_lookup_middle.
  - exists h1. split; [exact Hpre1|]. now apply bind_raise.
Qed.

Lemma neurons_in_mono h h' (ns : list Neuron) :
  h `prefix_of` h' -> Forall (Neuron_in h) ns -> Forall (Neuron_in h') ns.
Proof.
  intros Hpre HF. eapply Forall_impl; [exact HF|]. intros n.
  apply Neuron_in_mono. now apply prefix_length.
Qed.

Lemma call_neurons_ok (ns : list Neuron) :
  forall h (xs : list (operand num)),
    Forall (Neuron_in h) ns -> Forall (operand_in h) xs ->
    exists h',
      h `prefix_of` h'
      /\ match neurons_values h ns (map (value_of h) xs) with
         | Ok ts =>
             exists outs,
               call_neurons ns (Several xs) h = (h', Ok (Fine outs))
               /\ Forall (fun v => v < length h') outs
               /\ map (data_of h') outs = ts
         | Raise e => call_neurons ns (Several xs) h = (h', Raise e)
         end.
Proof.
  induction ns as [|n ns IH]; intros h xs Hns Hxs.
  - exists h. split; [reflexivity|]. exists []. now repeat split.
  - apply Forall_cons in Hns as [Hn Hns].
    destruct (Neuron_call_ok h n xs Hn Hxs) as (h1 & Hpre1 & Hcall).
    simpl neurons_values.
    destruct (neuron_value h n (map (value_of h) xs)) as [t|e].
    + destruct Hcall as (out & Hcall & Hout & Hdo).
      destruct (IH h1 xs (neurons_in_mono h h1 ns Hpre1 Hns)
                  (operands_in_mono h h1 xs Hpre1 Hxs)) as (h2 & Hpre2 & Hrest).
      rewrite (values_of_prefix h h1 xs Hpre1 Hxs),
        (neurons_values_prefix h h1 ns _ Hpre1 Hns) in Hrest.
      exists h2. split; [etrans; eassumption|].
      destruct (neurons_values h ns (map (value_of h) xs)) as [ts|e].
      * destruct Hrest as (outs & Hrest & Houts & Hds).
        exists (out :: outs). split; [|split].
        -- simpl. rewrite (bind_eq _ _ _ _ _ Hcall). simpl.
           now rewrite (bind_eq _ _ _ _ _ Hrest).
        -- constructor; [apply prefix_length in Hpre2; lia | exact Houts].
        -- simpl. rewrite (data_of_prefix h1 h2 out Hpre2) by lia.
           now rewrite Hdo, Hds.
      * simpl. rewrite (bind_eq _ _ _ _ _ Hcall). simpl. now apply bind_raise.
    + exists h1. split; [exact Hpre1|]. simpl. now apply bind_raise.
Qed.

Lemma Layer_call_ok h (l : Layer) (x : input num) :
  Forall (Neuron_in h) (neurons l) -> input_in h x ->
  exists h',
    h `prefix_of` h'
    /\ match layer_value h l (shape_of h x) with
       | Raise e => Layer_call l x h = (h', Raise e)
       | Ok TypeError => Layer_call l x h = (h', Ok TypeError)
       | Ok (Fine s) =>
           exists y,
             Layer_call l x h = (h', Ok (Fine y))
             /\ input_in h' y /\ shape_of h' y = s
       end
    /\ forall h'' r,
         Layer_call l x h = (h'', Ok r) ->
         result_kind r = layer_kind (length (neurons l)) (kind_of x).
Proof.
  intros Hl Hx. unfold Layer_call, layer_value.
  destruct (neurons l) as [|n ns] eqn:Hns.
  - exists h. split; [reflexivity|]. split.
    + exists (Several []). split; [reflexivity|]. split; [constructor | reflexivity].
    + intros h'' r [= <- <-]. reflexivity.
  - destruct x as [x|xs].
    + exists h. split; [reflexivity|]. split; [reflexivity|].
      intros h'' r [= <- <-]. now destruct ns.
    + destruct (call_neurons_ok (n :: ns) h xs Hl Hx) as (h' & Hpre & Hcall).
      exists h'. split; [exact Hpre|]. simpl shape_of. cbv beta iota.
      destruct (neurons_values h (n :: ns) (map (value_of h) xs)) as [ts|e] eqn:Hts.
      * destruct Hcall as (outs & Hcall & Houts & Hds).
        pose proof (neurons_values_length h _ _ _ Hts) as Hlen.
        rewrite <- Hds, length_map in Hlen.
        assert (Hin : Forall (operand_in h') (map Node outs)).
        { apply Forall_map. eapply Forall_impl; [exact Houts|]. now intros v Hv. }
        rewrite (bind_eq _ _ _ _ _ Hcall), <- Hds.
        destruct outs as [|o [|o2 outs]]; [discriminate | |].
        -- split.
           ++ exists (Single (Node o)). split; [reflexivity|]. split; [|reflexivity].
              now apply Forall_cons in Houts as [Ho _].
           ++ intros h'' r [= <- <-]. destruct ns; [reflexivity|discriminate].
        -- split.
           ++ exists (Several (map Node (o :: o2 :: outs))).
              split; [reflexivity|]. split; [exact Hin|].
              simpl. now rewrite map_map.
           ++ intros h'' r [= <- <-]. destruct ns as [|n2 ns]; [discriminate|].
              simpl in *. now rewrite length_map, Hlen.
      * split; [now apply bind_raise|].
        intros h'' r Hr. rewrite (bind_raise _ _ _ _ _ Hcall) in Hr. discriminate.
Qed.

Lemma call_layers_ok (ls : list Layer) :
  forall h (x : input num),
    Forall (fun l => Forall (Neuron_in h) (neurons l)) ls -> input_in h x ->
    exists h',
      h `prefix_of` h'
      /\ match layers_value h ls (shape_of h x) with
         | Raise e => call_layers ls x h = (h', Raise e)
         | Ok TypeError => call_layers ls x h = (h', Ok TypeError)
         | Ok (Fine s) =>
             exists y,
               call_layers ls x h = (h', Ok (Fine y))
               /\ input_in h' y /\ shape_of h' y = s
         end
      /\ forall h'' r,
           call_layers ls x h = (h'', Ok r) ->
           result_kind r
           = layers_kind (map (fun l => length (neurons l)) ls) (kind_of x).
Proof.
  induction ls as [|l ls IH]; intros h x Hls Hx.
  - exists h. split; [reflexivity|]. split.
    + exists x. now repeat split.
    + intros h'' r [= <- <-]. reflexivity.
  - apply Forall_cons in Hls as [Hl Hls].
    destruct (Layer_call_ok h l x Hl Hx) as (h1 & Hpre1 & Hcall & Hk1).
    simpl layers_value.
    destruct (layer_value h l (shape_of h x)) as [[s1|]|e].
    + destruct Hcall as (x1 & Hcall & Hx1 & Hs1).
      destruct (IH h1 x1 (MLP_in_mono h h1 ls (prefix_length _ _ Hpre1) Hls) Hx1)
        as (h2 & Hpre2 & Hrest & Hk).
      rewrite Hs1, (layers_value_prefix h h1 ls Hpre1 Hls) in Hrest.
      exists h2. split; [etrans; eassumption|]. split.
      * simpl. rewrite (bind_eq _ _ _ _ _ Hcall). exact Hrest.
      * intros h'' r Hr. simpl in Hr. rewrite (bind_eq _ _ _ _ _ Hcall) in Hr.
        simpl. rewrite <- (Hk1 _ _ Hcall). simpl. exact (Hk _ _ Hr).
    + exists h1. split; [exact Hpre1|]. split.
      * simpl. now rewrite (bind_eq _ _ _ _ _ Hcall).
      * intros h'' r Hr. simpl in Hr. rewrite (bind_eq _ _ _ _ _ Hcall) in Hr.
        injection Hr as <- <-. simpl. now rewrite <- (Hk1 _ _ Hcall).
    + exists h1. split; [exact Hpre1|]. split.
      * simpl. now apply bind_raise.
      * intros h'' r Hr. simpl in Hr. rewrite (bind_raise _ _ _ _ _ Hcall) in Hr.
        discriminate.
Qed.

(** X11. A neuron whose weights and bias are nodes of the store, called on
    a list of nodes and numbers, computes
    [tanh(((b + w1 * x1) + w2 * x2) + ...)] with the arithmetic of its
    numbers, added in this order: the pairs are those that [zip] gives,
    so surplus inputs or weights are passed over. It returns a new node
    that holds the result, or raises what [tanh] raises on the sum. Called
    on a single node or number, it raises [TypeError] and leaves the store
    as it was. The nodes of the store stay as they were. *)
Theorem Neuron_call_value h (n : Neuron) (x : input num) :
  Neuron_in h n -> input_in h x ->
  match x with
  | Single _ => Neuron_call n x h = (h, Ok TypeError)
  | Several xs =>
      exists h',
        h `prefix_of` h'
        /\ match tanh_value (weighted_sum h n (map (value_of h) xs)) with
           | Ok t =>
               exists out,
                 Neuron_call n x h = (h', Ok (Fine out))
                 /\ length h <= out < length h' /\ data_of h' out = t
           | Raise e => Neuron_call n x h = (h', Raise e)
           end
  end.
Proof.
  intros Hn Hx. destruct x as [x|xs]; [reflexivity|].
  exact (Neuron_call_ok h n xs Hn Hx).
Qed.

(** X12. A network whose parameters are nodes of the store, called on
    nodes and numbers, computes the composition of its layers as functions
    on numbers ([layers_value]): every neuron of a layer is applied to the
    outputs of the layer before, a layer of one neuron gives the bare
    value, a layer without neurons the empty list. The call returns nodes
    that hold these numbers; it raises [TypeError] where a bare value
    meets a layer that has neurons; it raises what the first [tanh] that
    fails raises. The nodes of the store stay as they were. Whenever the
    call returns, the kind of the result follows from the widths of the
    layers alone. *)
Theorem MLP_call_value h (mlp : MLP) (x : input num) :
  MLP_in h mlp -> input_in h x ->
  exists h',
    h `prefix_of` h'
    /\ match layers_value h (layers mlp) (shape_of h x) with
       | Raise e => MLP_call mlp x h = (h', Raise e)
       | Ok TypeError => MLP_call mlp x h = (h', Ok TypeError)
       | Ok (Fine s) =>
           exists y,
             MLP_call mlp x h = (h', Ok (Fine y))
             /\ input_in h' y /\ shape_of h' y = s
       end
    /\ forall h'' r,
         MLP_call mlp x h = (h'', Ok r) ->
         result_kind r = layers_kind (widths mlp) (kind_of x).
Proof. intros Hm Hx. exact (call_layers_ok (layers mlp) h x Hm Hx). Qed.

End NetworkCalls.

(** ** [Module.zero_grad] on a neuron *)

Section ZeroGrad.

Import nn.

Context {num : Type} {arith : Arith num} {sets : SetOrder}.

(** X13. [n.zero_grad()], for a neuron whose weights and bias are nodes of
    the store, returns; it sets [grad] to 0 at the weights and the bias and
    changes nothing else: no other field of theirs, and no other node, of
    which the inputs and the nodes that calls of the neuron made. Calling
    it again changes nothing. *)
Theorem Neuron_zero_grad_resets (h : list (Value num)) (n : Neuron) :
  Neuron_in h n ->
  exists h',
    Neuron_zero_grad n h = (h', Ok tt)
    /\ length h' = length h
    /\ (forall v nv, h !! v = Some nv ->
          h' !! v = Some (if bool_decide (v ∈ w n ++ [b n])
                          then with_grad (of_int 0) nv else nv))
    /\ Neuron_zero_grad n h' = (h', Ok tt).
Proof.
  intros Hn. unfold Neuron_zero_grad, Neuron_in in *.
  destruct (zero_grad_spec (Neuron_parameters n) h Hn) as (h' & Hrun & Hlen & Hlook).
  assert (Hn' : Forall (fun p => p < length h') (Neuron_parameters n))
    by now rewrite Hlen.
  destruct (zero_grad_spec (Neuron_parameters n) h' Hn') as (h2 & Hrun2 & Hlen2 & Hlook2).
  exists h'. split; [exact Hrun|]. split; [exact Hlen|]. split.
  - intros v nv Hv. rewrite Hlook, Hv. unfold Neuron_parameters.
    now case_bool_decide.
  - rewrite Hrun2. f_equal. apply list_eq. intros v. rewrite Hlook2, Hlook.
    case_bool_decide; [|reflexivity].
    now destruct (h !! v).
Qed.

End ZeroGrad.

(** ** [micrograd/nn.py]: the store stays well formed *)

Section NetworkInvariants.

Import nn.

Context {num : Type} {arith : Arith num} {sets : SetOrder}.

Lemma grows_ret {A} (a : A) : grows (ret a : M num A).
Proof. intros h0. now apply hoare_ret. Qed.

Lemma grows_bind {A B} (m : M num A) (k : A -> M num B) :
  grows m -> (forall a, grows (k a)) -> grows (bind m k).
Proof. intros Hm Hk h0. eapply hoare_bind; [apply Hm|]. intros a. apply Hk. Qed.

Lemma grows_op (m : M num ref) : op_spec m -> grows m.
Proof.
  intros Hm h0. eapply hoare_conseq; [apply (Hm h0) | | |]; simpl; auto.
  now intros a h [Hext _].
Qed.

Lemma grows_leaf (d : num) : grows (__init__ d [] None).
Proof.
  intros h0. eapply hoare_conseq; [apply (hoare_leaf h0 d) | | |]; simpl; auto.
  now intros a h [Hext _].
Qed.

Lemma grows_run {A} (m : M num A) (h : list (Value num)) :
  grows m -> extends h (m h).1.
Proof.
  intros Hm. apply (hoare_state (fun h' => extends h h') m); [apply Hm|].
  apply extends_refl.
Qed.

Lemma grows_init_weights uniform n t : grows (init_weights uniform n t).
Proof.
  revert t. induction n as [|n IH]; intros t; simpl; [apply grows_ret|].
  apply grows_bind; [apply grows_leaf|]. intros v.
  apply grows_bind; [apply IH|]. intros vs. apply grows_ret.
Qed.

Lemma grows_Neuron_init uniform n_inputs t : grows (Neuron_init uniform n_inputs t).
Proof.
  apply grows_bind; [apply grows_init_weights|]. intros ws.
  apply grows_bind; [apply grows_leaf|]. intros bias. apply grows_ret.
Qed.

Lemma grows_init_neurons uniform n_inputs n_outputs t :
  grows (init_neurons uniform n_inputs n_outputs t).
Proof.
  revert t. induction n_outputs as [|k IH]; intros t; simpl; [apply grows_ret|].
  apply grows_bind; [apply grows_Neuron_init|]. intros n.
  apply grows_bind; [apply IH|]. intros r. apply grows_ret.
Qed.

Lemma grows_init_layers uniform n_inputs (n_outputs : list nat) t :
  grows (init_layers uniform n_inputs n_outputs t).
Proof.
  revert n_inputs t. induction n_outputs as [|n rest IH]; intros n_inputs t; simpl;
    [apply grows_ret|].
  apply grows_bind.
  { apply grows_bind; [apply grows_init_neurons|]. intros r. apply grows_ret. }
  intros l. apply grows_bind; [apply IH|]. intros r. apply grows_ret.
Qed.

Lemma grows_MLP_init uniform n_inputs (n_outputs : list nat) t :
  grows (MLP_init uniform n_inputs n_outputs t).
Proof. apply grows_bind; [apply grows_init_layers|]. intros r. apply grows_ret. Qed.

Lemma grows_sum_products (pairs : list (ref * operand num)) (acc : ref) :
  grows (sum_products pairs acc).
Proof.
  revert acc. induction pairs as [|[wi xi] rest IH]; intros acc; simpl;
    [apply grows_ret|].
  apply grows_bind; [apply grows_op, op_spec_mul|]. intros p.
  apply grows_bind; [apply grows_op, op_spec_add|]. intros acc'. apply IH.
Qed.

Lemma grows_Neuron_call (n : Neuron) (x : input num) : grows (Neuron_call n x).
Proof.
  destruct x as [x|xs]; simpl; [apply grows_ret|].
  apply grows_bind; [apply grows_sum_products|]. intros pre.
  apply grows_bind; [apply grows_op, op_spec_tanh|]. intros out. apply grows_ret.
Qed.

Lemma grows_call_neurons (ns : list Neuron) (x : input num) : grows (call_neurons ns x).
Proof.
  induction ns as [|n ns IH]; simpl; [apply grows_ret|].
  apply grows_bind; [apply grows_Neuron_call|]. intros [v|]; [|apply grows_ret].
  apply grows_bind; [apply IH|]. intros [vs|]; apply grows_ret.
Qed.

Lemma grows_Layer_call (l : Layer) (x : input num) : grows (Layer_call l x).
Proof. apply grows_bind; [apply grows_call_neurons|]. intros r. apply grows_ret. Qed.

Lemma grows_call_layers (ls : list Layer) (x : input num) : grows (call_layers ls x).
Proof.
  revert x. induction ls as [|l ls IH]; intros x; simpl; [apply grows_ret|].
  apply grows_bind; [apply grows_Layer_call|]. intros [x'|]; [apply IH | apply grows_ret].
Qed.

(** X14. The constructors and the calls of [micrograd/nn.py] only add
    nodes: the store they leave, whether they return or raise, begins with
    the store they were given; it is well formed if that was; and it has
    every [grad] at 0 if that had. *)
Theorem network_keeps_invariants (h : list (Value num)) :
  (forall uniform n_inputs t,
     let h' := (Neuron_init uniform n_inputs t h).1 in
     h `prefix_of` h' /\ (wf h -> wf h') /\ (all_fresh h -> all_fresh h'))
  /\ (forall uniform n_inputs n_outputs t,
        let h' := (Layer_init uniform n_inputs n_outputs t h).1 in
        h `prefix_of` h' /\ (wf h -> wf h') /\ (all_fresh h -> all_fresh h'))
  /\ (forall uniform n_inputs n_outputs t,
        let h' := (MLP_init uniform n_inputs n_outputs t h).1 in
        h `prefix_of` h' /\ (wf h -> wf h') /\ (all_fresh h -> all_fresh h'))
  /\ (forall n x,
        let h' := (Neuron_call n x h).1 in
        h `prefix_of` h' /\ (wf h -> wf h') /\ (all_fresh h -> all_fresh h'))
  /\ (forall l x,
        let h' := (Layer_call l x h).1 in
        h `prefix_of` h' /\ (wf h -> wf h') /\ (all_fresh h -> all_fresh h'))
  /\ (forall mlp x,
        let h' := (MLP_call mlp x h).1 in
        h `prefix_of` h' /\ (wf h -> wf h') /\ (all_fresh h -> all_fresh h')).
Proof.
  split; [|split; [|split; [|split; [|split]]]]; intros; apply grows_run.
  - apply grows_Neuron_init.
  - apply grows_bind; [apply grows_init_neurons|]. intros r. apply grows_ret.
  - apply grows_MLP_init.
  - apply grows_Neuron_call.
  - apply grows_Layer_call.
  - apply grows_call_layers.
Qed.

End NetworkInvariants.

(** ** A closure that raises *)

Section BackwardRaises.

Context {num : Type} {arith : Arith num} {sets : SetOrder}.

(** X15. [y.backward()] for a power [y = a ** p] whose derivative
    [p * a.data ** (p - 1)] is not defined, as for [a.data] zero and [p]
    below 1, raises what the power [a.data ** (p - 1)] raises, out of the
    closure of [y]. The pass is not undone: [y.grad] is 1 afterwards, and
    nothing else has changed. *)
Theorem backward_through_power_raises (k : list (Value num)) (fuel : nat)
    (y a out : ref) (ny na : Value num) (p : num) (e : error) :
  wf k -> y < fuel ->
  k !! y = Some ny -> _backward ny = RPow a p out ->
  k !! a = Some na ->
  py_pow (data na) (py_sub p (of_int 1)) = Raise e ->
  backward fuel y k = (alter (with_grad (of_int 1)) y k, Raise e).
Proof.
  intros Hwf Hfuel Hy Hrule Ha Hpow.
  assert (Hlt : y < length k) by (eapply lookup_lt_Some; eauto).
  destruct (build_topo_root k fuel y Hwf Hlt Hfuel)
    as (visited & topo & Hr & _ & _ & _ & _ & Hlast).
  apply last_Some in Hlast as [topo' ->].
  destruct (Hwf y ny Hy) as (Hprev & Htargets & _).
  rewrite Hrule in Htargets. simpl in Htargets.
  apply Forall_cons in Htargets as [Hin _].
  assert (Hay : a < y) by (rewrite Forall_forall in Hprev; auto).
  unfold backward. rewrite Hr. simpl. rewrite reverse_snoc.
  set (k1 := alter (with_grad (of_int 1)) y k).
  assert (Hy1 : k1 !! y = Some (with_grad (of_int 1) ny)).
  { unfold k1. rewrite list_lookup_alter, decide_True by reflexivity.
    now rewrite Hy. }
  assert (Ha1 : k1 !! a = Some na).
  { unfold k1. rewrite list_lookup_alter, decide_False by lia. exact Ha. }
  rewrite (bind_eq _ _ k k1 tt) by now apply (set_grad_eq k y ny).
  simpl. apply bind_raise. unfold call_backward.
  rewrite (bind_eq _ _ k1 k1 (with_grad (of_int 1) ny))
    by (unfold get_node; now rewrite Hy1).
  simpl. rewrite Hrule. simpl.
  apply (iadd_grad_raise k1 a na); [exact Ha1|].
  rewrite (bind_eq _ _ k1 k1 (data na)) by now apply get_data_eq.
  apply bind_raise. unfold lift. now rewrite Hpow.
Qed.

End BackwardRaises.

(** ** The hypotheses of the results, met on example stores *)

Section Witnesses.

Import nn.

Lemma demo_graph_backward :
  @backward float demo_arith 5 4 demo_graph = (demo_graph_done, Ok tt).
Proof. reflexivity. Qed.

Lemma demo_graph_reach (v : ref) : reach demo_graph 4 v <-> v ∈ [0; 1; 2; 3; 4].
Proof.
  split.
  - intros Hr. pose proof (reach_le demo_graph 4 v demo_graph_wf Hr) as Hle.
    do 5 (destruct v as [|v]; [repeat constructor|]). lia.
  - intros Hv.
    assert (H3 : reach demo_graph 4 3).
    { eapply reach_step; [reflexivity | | constructor]. simpl. left. }
    assert (H2 : reach demo_graph 4 2).
    { eapply reach_step; [reflexivity | | constructor]. simpl. right. left. }
    assert (H0 : reach demo_graph 4 0).
    { eapply reach_trans; [exact H3|].
      eapply reach_step; [reflexivity | | constructor]. simpl. left. }
    assert (H1 : reach demo_graph 4 1).
    { eapply reach_trans; [exact H3|].
      eapply reach_step; [reflexivity | | constructor]. simpl. right. left. }
    rewrite !elem_of_cons in Hv.
    destruct Hv as [->|[->|[->|[->|[->|Hv]]]]]; auto; [constructor | inversion Hv].
Qed.

Lemma demo_graph_fresh : @fresh_grads float demo_arith demo_graph 4.
Proof.
  intros v n _ Hv.
  do 5 (destruct v as [|v]; [injection Hv as <-; reflexivity|]). discriminate.
Qed.

Lemma demo_graph_all_fresh : @all_fresh float demo_arith demo_graph.
Proof. repeat constructor. Qed.

Lemma root_of_zero_wf : wf root_of_zero.
Proof. apply wf_from_wf. simpl. unfold node_ok. simpl. repeat constructor. Qed.

Lemma backward_sets_root_grad_witness :
  wf demo_graph /\ 4 < length demo_graph /\ 4 < 5
  /\ match @backward float demo_arith 5 4 demo_graph with
     | (h', Ok _) => exists n, h' !! 4 = Some n /\ grad n = 1%float
     | (_, Raise e) => @pow_error float demo_arith e
     end.
Proof.
  split; [exact demo_graph_wf|]. split; [simpl; lia|]. split; [lia|].
  apply (@backward_sets_root_grad float demo_arith);
    [exact demo_graph_wf | simpl; lia | lia].
Defined.


Lemma backward_reset_backward_witness :
  wf demo_graph /\ 4 < length demo_graph /\ 4 < 5
  /\ @fresh_grads float demo_arith demo_graph 4
  /\ (forall v, v ∈ [0; 1; 2; 3; 4] <-> reach demo_graph 4 v)
  /\ @backward float demo_arith 5 4 demo_graph = (demo_graph_done, Ok tt)
  /\ @zero_grad float demo_arith [0; 1; 2; 3; 4] demo_graph_done = (demo_graph, Ok tt)
  /\ @backward float demo_arith 5 4
       (@zero_grad float demo_arith [0; 1; 2; 3; 4] demo_graph_done).1
     = (demo_graph_done, Ok tt).
Proof.
  split; [exact demo_graph_wf|]. split; [simpl; lia|]. split; [lia|].
  split; [exact demo_graph_fresh|].
  split; [intros v; symmetry; apply demo_graph_reach|].
  split; [exact demo_graph_backward|].
  apply (@backward_reset_backward float demo_arith demo_graph 5 4 [0; 1; 2; 3; 4]
           demo_graph_done);
    [exact demo_graph_wf | simpl; lia | lia | exact demo_graph_fresh
    | intros v; symmetry; apply demo_graph_reach | exact demo_graph_backward].
Defined.

Lemma pow_follows_power_witness :
  demo_graph !! 0 = Some (float_leaf 2)
  /\ (forall b : ref,
        @__pow__ float demo_arith insertion_order 0 (Node b) demo_graph
        = (demo_graph, Raise UnsupportedExponentType))
  /\ (forall p : float,
        @__pow__ float demo_arith insertion_order 0 (Num p) demo_graph =
        match @py_pow float demo_arith 2%float p with
        | Ok d =>
            (demo_graph ++ [mkValue (RPow 0 p 5) (Some "**"%string) [0] d 0%float],
             Ok 5)
        | Raise e => (demo_graph, Raise e)
        end).
Proof.
  split; [reflexivity|].
  exact (@pow_follows_power float demo_arith insertion_order demo_graph 0 _ eq_refl).
Defined.

Lemma derived_operators_witness :
  demo_graph !! 0 = Some (float_leaf 2) /\ demo_graph !! 1 = Some (float_leaf (-3))
  /\ exists c m out,
       @__sub__ float demo_arith insertion_order 0 (Node 1) demo_graph
       = (demo_graph ++ [c; m; out], Ok 7)
       /\ data c = (-1)%float /\ _backward c = RNone
       /\ data m = 3%float /\ _backward m = RMul 1 5 6
       /\ data out = 5%float /\ _backward out = RAdd 0 6 7.
Proof.
  split; [reflexivity|]. split; [reflexivity|].
  exact (proj1 (proj2 (derived_operators (fun x => Ok x) (fun x _ => Ok x)
                         insertion_order demo_graph 0 1 _ _ 7%float 3%float 0
                         eq_refl eq_refl))).
Defined.


Lemma operators_keep_invariants_witness :
  wf demo_graph /\ @all_fresh float demo_arith demo_graph
  /\ wf (@__add__ float demo_arith insertion_order 4 (Node 2) demo_graph).1
  /\ @all_fresh float demo_arith
       (@__add__ float demo_arith insertion_order 4 (Node 2) demo_graph).1.
Proof.
  split; [exact demo_graph_wf|]. split; [exact demo_graph_all_fresh|].
  apply (@operators_keep_invariants float demo_arith insertion_order demo_graph
           demo_graph_wf demo_graph_all_fresh).
Defined.

Lemma backward_assigns_reachable_only_witness :
  wf demo_graph /\ 3 < length demo_graph /\ 3 < 5
  /\ forall v, ~ reach demo_graph 3 v ->
       (@backward float demo_arith 5 3 demo_graph).1 !! v = demo_graph !! v.
Proof.
  split; [exact demo_graph_wf|]. split; [simpl; lia|]. split; [lia|].
  apply (@backward_assigns_reachable_only float demo_arith);
    [exact demo_graph_wf | simpl; lia | lia].
Defined.

Lemma backward_chain_rule_witness :
  wf demo_graph /\ 4 < length demo_graph /\ 4 < 5
  /\ @backward float demo_arith 5 4 demo_graph = (demo_graph_done, Ok tt)
  /\ exists topo,
       NoDup topo
       /\ (forall v, v ∈ topo <-> reach demo_graph 4 v)
       /\ children_first demo_graph topo
       /\ (forall p, p ∈ topo ->
             exists l, @node_amounts float demo_arith demo_graph_done p = Ok l)
       /\ forall v,
            @grad_of float demo_arith demo_graph_done v
            = @accumulate float demo_arith
                (if decide (v = 4) then 1%float
                 else @grad_of float demo_arith demo_graph v)
                (@received float demo_arith demo_graph_done (reverse topo) v).
Proof.
  split; [exact demo_graph_wf|]. split; [simpl; lia|]. split; [lia|].
  split; [exact demo_graph_backward|].
  apply (@backward_chain_rule float demo_arith demo_graph 5 4 demo_graph_done);
    [exact demo_graph_wf | simpl; lia | lia | exact demo_graph_backward].
Defined.

Lemma exp_tanh_overflow_witness :
  [float_leaf 710] !! 0 = Some (float_leaf 710)
  /\ (710 <=? 710)%float = true /\ is_infinity 710 = false
  /\ (710 <=? 2 * 710)%float = true /\ is_infinity (2 * 710) = false
  /\ @exp float demo_arith insertion_order 0 [float_leaf 710]
     = ([float_leaf 710], Raise OverflowError)
  /\ @tanh float demo_arith insertion_order 0 [float_leaf 710]
     = ([float_leaf 710], Raise OverflowError).
Proof.
  do 5 (split; [reflexivity|]).
  split.
  - exact (proj1 (exp_tanh_overflow (fun x => Ok x) (fun x _ => Ok x) insertion_order
                    [float_leaf 710] 0 (float_leaf 710) eq_refl) eq_refl eq_refl).
  - exact (proj2 (exp_tanh_overflow (fun x => Ok x) (fun x _ => Ok x) insertion_order
                    [float_leaf 710] 0 (float_leaf 710) eq_refl) eq_refl eq_refl).
Defined.

Lemma tanh_saturates_witness :
  [float_leaf (-400)] !! 0 = Some (float_leaf (-400))
  /\ (2 * -400 <? -746)%float = true
  /\ @tanh float demo_arith insertion_order 0 [float_leaf (-400)]
     = ([float_leaf (-400);
         mkValue (RTanh 0 1) (Some "tanh"%string) [0] (-1)%float 0%float], Ok 1)
  /\ [float_leaf 0x1p1023] !! 0 = Some (float_leaf 0x1p1023)
  /\ (710 <=? 2 * 0x1p1023)%float = true /\ is_infinity (2 * 0x1p1023) = true
  /\ @tanh float demo_arith insertion_order 0 [float_leaf 0x1p1023]
     = ([float_leaf 0x1p1023;
         mkValue (RTanh 0 1) (Some "tanh"%string) [0] nan 0%float], Ok 1).
Proof.
  do 2 (split; [reflexivity|]).
  split.
  - exact (proj1 (tanh_saturates (fun x => Ok x) (fun x _ => Ok x) insertion_order
                    [float_leaf (-400)] 0 (float_leaf (-400)) eq_refl) eq_refl).
  - do 3 (split; [reflexivity|]).
    exact (proj2 (tanh_saturates (fun x => Ok x) (fun x _ => Ok x) insertion_order
                    [float_leaf 0x1p1023] 0 (float_leaf 0x1p1023) eq_refl) eq_refl eq_refl).
Defined.

Lemma zero_divisor_raises_witness :
  [float_leaf 1; float_leaf 0] !! 1 = Some (float_leaf 0)
  /\ (0 =? 0)%float = true
  /\ @__truediv__ float demo_arith insertion_order 0 (Node 1) [float_leaf 1; float_leaf 0]
     = ([float_leaf 1; float_leaf 0], Raise ZeroDivisionError)
  /\ @__rtruediv__ float demo_arith insertion_order 1 1%float [float_leaf 1; float_leaf 0]
     = ([float_leaf 1; float_leaf 0], Raise ZeroDivisionError).
Proof.
  do 2 (split; [reflexivity|]).
  exact (zero_divisor_raises (fun x => Ok x) (fun x _ => Ok x) insertion_order
           [float_leaf 1; float_leaf 0] 0 1 (float_leaf 0) 1%float eq_refl eq_refl).
Defined.

Lemma exp_in_doubles_witness :
  [float_leaf (-800)] !! 0 = Some (float_leaf (-800))
  /\ (-800 <? -746)%float = true
  /\ @exp float demo_arith insertion_order 0 [float_leaf (-800)]
     = ([float_leaf (-800);
         mkValue (RExp 0 1) (Some "exp"%string) [0] 0%float 0%float], Ok 1).
Proof.
  do 2 (split; [reflexivity|]).
  exact (proj1 (proj2 (exp_in_doubles (fun x => Ok x) (fun x _ => Ok x) insertion_order
                         [float_leaf (-800)] 0 _ eq_refl)) eq_refl).
Defined.

Lemma number_operands_witness :
  demo_graph !! 0 = Some (float_leaf 2)
  /\ yields (@__rsub__ float demo_arith insertion_order 0 5%float) demo_graph 3%float
  /\ yields (@__sub__ float demo_arith insertion_order 0 (Num 5%float)) demo_graph
       (-3)%float.
Proof.
  split; [reflexivity|].
  pose proof (number_operands (fun x => Ok x) (fun x _ => Ok x) insertion_order
                demo_graph 0 _ 5%float eq_refl) as H.
  split; [apply H | apply H].
Defined.

Lemma Neuron_call_value_witness :
  Neuron_in demo_params (mkNeuron [0; 1] 2)
  /\ input_in demo_params (Several [Num 1%float; Node 0])
  /\ @tanh_value float demo_arith
       (@weighted_sum float demo_arith demo_params (mkNeuron [0; 1] 2)
          (map (@value_of float demo_arith demo_params) [Num 1%float; Node 0]))
     = Ok (-1)%float
  /\ exists h',
       demo_params `prefix_of` h'
       /\ match @tanh_value float demo_arith
                  (@weighted_sum float demo_arith demo_params (mkNeuron [0; 1] 2)
                     (map (@value_of float demo_arith demo_params)
                        [Num 1%float; Node 0])) with
          | Ok t =>
              exists out,
                @Neuron_call float demo_arith insertion_order (mkNeuron [0; 1] 2)
                  (Several [Num 1%float; Node 0]) demo_params = (h', Ok (Fine out))
                /\ length demo_params <= out < length h'
                /\ @data_of float demo_arith h' out = t
          | Raise e =>
              @Neuron_call float demo_arith insertion_order (mkNeuron [0; 1] 2)
                (Several [Num 1%float; Node 0]) demo_params = (h', Raise e)
          end.
Proof.
  assert (Hn : Neuron_in demo_params (mkNeuron [0; 1] 2))
    by (repeat constructor; simpl; lia).
  assert (Hx : input_in demo_params (Several [Num 1%float; Node 0]))
    by (repeat constructor; simpl; lia).
  split; [exact Hn|]. split; [exact Hx|]. split; [reflexivity|].
  exact (@Neuron_call_value float demo_arith insertion_order demo_params _ _ Hn Hx).
Defined.

Lemma MLP_call_value_witness :
  MLP_in demo_params demo_wide_mlp
  /\ input_in demo_params (Several [Num 1%float; Node 0])
  /\ @layers_value float demo_arith demo_params (layers demo_wide_mlp)
       (@shape_of float demo_arith demo_params (Several [Num 1%float; Node 0]))
     = Ok (Fine (One (-1)%float))
  /\ exists h',
       demo_params `prefix_of` h'
       /\ match @layers_value float demo_arith demo_params (layers demo_wide_mlp)
                  (@shape_of float demo_arith demo_params
                     (Several [Num 1%float; Node 0])) with
          | Raise e =>
              @MLP_call float demo_arith insertion_order demo_wide_mlp
                (Several [Num 1%float; Node 0]) demo_params = (h', Raise e)
          | Ok TypeError =>
              @MLP_call float demo_arith insertion_order demo_wide_mlp
                (Several [Num 1%float; Node 0]) demo_params = (h', Ok TypeError)
          | Ok (Fine s) =>
              exists y,
                @MLP_call float demo_arith insertion_order demo_wide_mlp
                  (Several [Num 1%float; Node 0]) demo_params = (h', Ok (Fine y))
                /\ input_in h' y /\ @shape_of float demo_arith h' y = s
          end
       /\ forall h'' r,
            @MLP_call float demo_arith insertion_order demo_wide_mlp
              (Several [Num 1%float; Node 0]) demo_params = (h'', Ok r) ->
            result_kind r = layers_kind (widths demo_wide_mlp) (KSeveral 2).
Proof.
  assert (Hm : MLP_in demo_params demo_wide_mlp)
    by (repeat constructor; simpl; lia).
  assert (Hx : input_in demo_params (Several [Num 1%float; Node 0]))
    by (repeat constructor; simpl; lia).
  split; [exact Hm|]. split; [exact Hx|]. split; [reflexivity|].
  exact (@MLP_call_value float demo_arith insertion_order demo_params _ _ Hm Hx).
Defined.

Lemma Neuron_zero_grad_resets_witness :
  Neuron_in demo_graph_done demo_neuron
  /\ exists h',
       @Neuron_zero_grad float demo_arith demo_neuron demo_graph_done = (h', Ok tt)
       /\ length h' = length demo_graph_done
       /\ (forall v nv, demo_graph_done !! v = Some nv ->
             h' !! v = Some (if bool_decide (v ∈ [0; 1] ++ [2])
                             then with_grad 0%float nv else nv))
       /\ @Neuron_zero_grad float demo_arith demo_neuron h' = (h', Ok tt).
Proof.
  assert (Hn : Neuron_in demo_graph_done demo_neuron)
    by (repeat constructor; simpl; lia).
  split; [exact Hn|].
  exact (@Neuron_zero_grad_resets float demo_arith demo_graph_done demo_neuron Hn).
Defined.

Lemma backward_through_power_raises_witness :
  wf root_of_zero /\ 1 < 2
  /\ root_of_zero !! 1
     = Some (mkValue (RPow 0 0.5%float 1) (Some "**"%string) [0] 0%float 0%float)
  /\ root_of_zero !! 0 = Some (float_leaf 0)
  /\ PyFloat.float_pow (fun x _ => Ok x) 0%float (0.5 - 1)%float = Raise ZeroDivisionError
  /\ @backward float demo_arith 2 1 root_of_zero
     = (alter (with_grad 1%float) 1 root_of_zero, Raise ZeroDivisionError).
Proof.
  split; [exact root_of_zero_wf|]. split; [lia|].
  do 3 (split; [reflexivity|]).
  exact (@backward_through_power_raises float demo_arith
           root_of_zero 2 1 0 1 _ _ 0.5%float ZeroDivisionError
           root_of_zero_wf ltac:(lia) eq_refl eq_refl eq_refl eq_refl).
Defined.

End Witnesses.
